(** * simple_text.h: UTF-8 atlas text, line layout and the typewriter effect

    A shallow embedding of [simple_text.h] (the header holding the whole text
    renderer of the PSP SDL2 sample) and the properties of its decoder, its
    line layout, its render cache and its typewriter tick.

    Conventions of the embedding.
    - The build target is the PSP (MIPS32, psp-gcc): [int] is 32 bits, [size_t]
      is 32 bits and plain [char] is signed.  The XOR masks of the decoder
      exist to cancel the sign extension of a lead byte, which confirms the
      signed reading.
    - A [std::string] and the bytes behind a [const char *] are a [list ascii];
      [strlen] stops at the first NUL byte.
    - An [int] is a [Z]; arithmetic the source does on [int] goes through
      [int32], arithmetic it does on [size_t] or [uint32_t] through [uint32].
      Signed overflow (undefined in C++) is read as two's-complement wrap.
    - [/] and [%] on [int] truncate toward zero: [Z.quot] and [Z.rem]. *)

From Stdlib Require Import String Ascii.
From Stdlib Require Import ZArith List Bool Lia Floats.
Import ListNotations.
Local Open Scope Z_scope.

(** ** Machine integers *)

Definition uint32 (z : Z) : Z := z mod 2 ^ 32.
Definition int32 (z : Z) : Z := (z + 2 ^ 31) mod 2 ^ 32 - 2 ^ 31.
Definition uint8 (z : Z) : Z := z mod 2 ^ 8.

(** [size_t] on the target.  Applied to an [int] it is the usual arithmetic
    conversion of an [int] that meets a [size_t] in one expression. *)
Definition size_t (z : Z) : Z := uint32 z.

(** The value of a plain (signed) [char] after integral promotion. *)
Definition char_to_int (c : ascii) : Z :=
  let n := Z.of_N (N_of_ascii c) in
  if 128 <=? n then n - 256 else n.

Definition byte_value (c : ascii) : Z := Z.of_N (N_of_ascii c).

(** A string literal of the source as a byte list. *)
Definition str (s : string) : list ascii := list_ascii_of_string s.

(** ** C strings *)

Definition is_nul (c : ascii) : bool := (byte_value c =? 0).

(** The bytes of a C string up to, not including, its terminator. *)
Fixpoint until_nul (s : list ascii) : list ascii :=
  match s with
  | [] => []
  | c :: rest => if is_nul c then [] else c :: until_nul rest
  end.

Definition strlen (s : list ascii) : Z := Z.of_nat (length (until_nul s)).

(** ** Code-point decoder *)

Definition is_utf8_start (c : ascii) : bool :=
  (Z.land (char_to_int c) 0xE0 =? 0xC0)
  || (Z.land (char_to_int c) 0xF0 =? 0xE0)
  || (Z.land (char_to_int c) 0xF8 =? 0xF0).

Definition is_utf_cont (c : ascii) : bool :=
  (Z.land (char_to_int c) 0xC0 =? 0x80).

(** The locals of [get_utf8_char_vector]. *)
Record decoder : Type := mk_decoder {
  converted : list Z;
  temp_char : Z;
  current_offset : Z;
  mask : Z
}.

Definition push_back {A} (v : list A) (x : A) : list A := v ++ [x].

(** The branch of the loop body taken on a start byte. *)
Definition decode_start (c : ascii) (st : decoder) : decoder :=
  if Z.land (char_to_int c) 0xE0 =? 0xC0 then
    mk_decoder (converted st)
               (Z.lor 0 (uint32 (Z.shiftl (char_to_int c) 8))) 0 0xffff0000
  else if Z.land (char_to_int c) 0xF0 =? 0xE0 then
    mk_decoder (converted st)
               (Z.lor 0 (uint32 (Z.shiftl (char_to_int c) 16))) 1 0xff000000
  else if Z.land (char_to_int c) 0xF8 =? 0xF0 then
    mk_decoder (converted st)
               (Z.lor 0 (uint32 (Z.shiftl (char_to_int c) 24))) 2 0x00000000
  else
    mk_decoder (converted st) 0 0 (mask st).

(** The branch taken on a continuation byte; [rest] is the text after it, so
    that [rest = []] is [i + 1 == strlen(text)] and its head is [text[i + 1]].
    A shift by [current_offset * 8 >= 32] (only after [current_offset] wrapped
    below zero) is undefined in C++; [num] is never used in that case. *)
Definition decode_cont (c : ascii) (rest : list ascii) (st : decoder) : decoder :=
  let num := uint32 (Z.shiftl (char_to_int c) (current_offset st * 8)) in
  let t0 := temp_char st in
  let t1 := if current_offset st =? 0 then Z.lor t0 (Z.land num 0xff0000ff) else t0 in
  let t2 := if current_offset st =? 1 then Z.lor t1 (Z.land num 0xff00ffff) else t1 in
  let t3 := if current_offset st =? 2 then Z.lor t2 (Z.land num 0xffffffff) else t2 in
  let off := uint8 (current_offset st - 1) in
  let last :=
    match rest with
    | next :: _ => negb (is_utf_cont next)
    | [] => true
    end in
  if last then
    let t4 := Z.lxor t3 (mask st) in
    mk_decoder (push_back (converted st) t4) t4 off (mask st)
  else
    mk_decoder (converted st) t3 off (mask st).

Definition decode_byte (c : ascii) (rest : list ascii) (st : decoder) : decoder :=
  if is_utf8_start c then decode_start c st
  else if is_utf_cont c then decode_cont c rest st
  else mk_decoder (push_back (converted st) (uint32 (char_to_int c)))
                  (temp_char st) (current_offset st) (mask st).

(** The [for] loop, over the bytes from position [i] to the terminator. *)
Fixpoint decode_loop (text : list ascii) (st : decoder) : decoder :=
  match text with
  | [] => st
  | c :: rest => decode_loop rest (decode_byte c rest st)
  end.

(** ** The renderer

    The header draws through an [SDL_Renderer].  The renderer is modelled by
    what the header can observe or cause: the current render target
    ([None] is the screen, as [nullptr] is for [SDL_SetRenderTarget]), a supply
    of fresh texture handles, and the log of the SDL calls issued so far.  A
    call that draws records the render target it drew on.
    [SDL_CreateTexture] is taken to succeed: the header never tests its
    result. *)

Definition SDL_Texture : Type := nat.

Record SDL_Rect : Type := mk_rect { rx : Z; ry : Z; rw : Z; rh : Z }.

Record SDL_Color : Type := mk_color { cr : Z; cg : Z; cb : Z }.

Inductive sdl_call : Type :=
| CreateTexture (created : SDL_Texture)
| SetRenderTarget (t : option SDL_Texture)
| SetTextureBlendMode (t : option SDL_Texture)
| SetRenderDrawColor (r g b a : Z)
| RenderClear (on : option SDL_Texture)
| SetTextureColorMod (t : option SDL_Texture) (color : SDL_Color)
| RenderCopy (on : option SDL_Texture) (src : option SDL_Texture)
             (srcrect dstrect : option SDL_Rect)
| DestroyTexture (t : option SDL_Texture)
| Callback.

Record SDL_Renderer : Type := mk_renderer {
  render_target : option SDL_Texture;
  next_texture : SDL_Texture;
  calls : list sdl_call
}.

Definition SDL (A : Type) : Type := SDL_Renderer -> A * SDL_Renderer.

Definition ret {A} (a : A) : SDL A := fun r => (a, r).

Definition bind {A B} (m : SDL A) (k : A -> SDL B) : SDL B :=
  fun r => let (a, r') := m r in k a r'.

Notation "x <- m ;; k" := (bind m (fun x => k))
  (at level 61, m at next level, right associativity).
Notation "m ;; k" := (bind m (fun _ => k))
  (at level 61, right associativity).

Definition issue (c : sdl_call) : SDL unit :=
  fun r => (tt, mk_renderer (render_target r) (next_texture r) (calls r ++ [c])).

Definition SDL_CreateTexture : SDL (option SDL_Texture) :=
  fun r => (Some (next_texture r),
            mk_renderer (render_target r) (S (next_texture r))
                        (calls r ++ [CreateTexture (next_texture r)])).

Definition SDL_GetRenderTarget : SDL (option SDL_Texture) :=
  fun r => (render_target r, r).

Definition SDL_SetRenderTarget (t : option SDL_Texture) : SDL unit :=
  fun r => (tt, mk_renderer t (next_texture r) (calls r ++ [SetRenderTarget t])).

Definition SDL_SetTextureBlendMode (t : option SDL_Texture) : SDL unit :=
  issue (SetTextureBlendMode t).

Definition SDL_SetRenderDrawColor (r g b a : Z) : SDL unit :=
  issue (SetRenderDrawColor r g b a).

Definition SDL_RenderClear : SDL unit :=
  fun r => issue (RenderClear (render_target r)) r.

Definition SDL_SetTextureColorMod (t : option SDL_Texture) (color : SDL_Color)
  : SDL unit :=
  issue (SetTextureColorMod t color).

Definition SDL_RenderCopy (src : option SDL_Texture)
    (srcrect dstrect : option SDL_Rect) : SDL unit :=
  fun r => issue (RenderCopy (render_target r) src srcrect dstrect) r.

Definition SDL_DestroyTexture (t : option SDL_Texture) : SDL unit :=
  issue (DestroyTexture t).

(** A call that changes the pixels of texture [t]. *)
Definition draws_on (t : SDL_Texture) (c : sdl_call) : bool :=
  match c with
  | RenderClear (Some t') => Nat.eqb t t'
  | RenderCopy (Some t') _ _ _ => Nat.eqb t t'
  | _ => false
  end.

(** ** The structs of the header *)

Record CombinedTexture : Type := mk_combined {
  finished : bool;
  texture : option SDL_Texture
}.

(** [timer] and [duration] are [float]s; every [float] is a binary64 value and
    the header only compares them and stores zero, so they are modelled by
    primitive floats. *)
Record TypeStats : Type := mk_stats {
  current_lines : list (list ascii);
  temp_text : list ascii;
  utf8_text : list Z;
  type_counter : Z;
  current_x : Z;
  timer : float;
  duration : float
}.

Record FontAtlas : Type := mk_atlas {
  atlas_texture : option SDL_Texture;
  characters : list ascii
}.

Definition white : SDL_Color := mk_color 255 255 255.

Section SimpleText.

(** [uint32_t mask;] is declared without an initialiser and is read when a
    continuation byte comes before any start byte: its first value is
    indeterminate, and every result below holds whatever it is. *)
Variable indeterminate_mask : Z.

Definition get_utf8_char_vector (text : list ascii) : list Z :=
  converted (decode_loop (until_nul text)
                         (mk_decoder [] 0 0 indeterminate_mask)).

(** ** Glyph index *)

(** The scan of [get_char_index]; [i] is the loop counter. *)
Fixpoint char_index_loop (utf8_atlas : list Z) (character : Z) (i : Z) : Z :=
  match utf8_atlas with
  | [] => -1
  | a :: rest =>
      if a =? character then i else char_index_loop rest character (i + 1)
  end.

Definition get_char_index (character : Z) (atlas : list ascii) : Z :=
  char_index_loop (get_utf8_char_vector atlas) character 0.

(** Division by a zero [cells_per_row] is undefined in C++; [Z.quot] and
    [Z.rem] return 0 and the dividend there. *)
Definition get_atlas_rect_by_index
    (index atlas_width atlas_height cell_width cell_height : Z) : SDL_Rect :=
  let cells_per_row := Z.quot atlas_width cell_width in
  let row := Z.quot index cells_per_row in
  let col := Z.rem index cells_per_row in
  mk_rect (int32 (col * cell_width)) (int32 (row * cell_height))
          cell_width cell_height.

(** ** Line layout *)

Definition is_newline (c : ascii) : bool := (byte_value c =? 10).

(** [isspace] of the classic locale, which [operator>>] skips. *)
Definition isspace (c : ascii) : bool :=
  (byte_value c =? 32) || ((9 <=? byte_value c) && (byte_value c <=? 13)).

(** [result.find('\n')]: [None] is [std::string::npos]. *)
Fixpoint find_newline (s : list ascii) : option nat :=
  match s with
  | [] => None
  | c :: rest =>
      if is_newline c then Some O
      else match find_newline rest with
           | Some p => Some (S p)
           | None => None
           end
  end.

(** [result.erase(found, 1)]. *)
Fixpoint erase_one (s : list ascii) (found : nat) : list ascii :=
  match s, found with
  | [], _ => []
  | _ :: rest, O => rest
  | c :: rest, S p => c :: erase_one rest p
  end.

(** The [while] loop of [remove_new_lines]; every turn erases one byte, so
    [length input_string] turns are enough fuel. *)
Fixpoint remove_new_lines_loop (fuel : nat) (result : list ascii) : list ascii :=
  match find_newline result with
  | None => result
  | Some found =>
      match fuel with
      | O => result
      | S fuel' => remove_new_lines_loop fuel' (erase_one result found)
      end
  end.

Definition remove_new_lines (input_string : list ascii) : list ascii :=
  remove_new_lines_loop (length input_string) input_string.

(** The [std::getline] loop: [line] holds the bytes extracted since the last
    delimiter.  At the end of the stream a line with no byte extracted fails
    the read and ends the loop. *)
Fixpoint getline_loop (iss line : list ascii) : list (list ascii) :=
  match iss with
  | [] => match line with
          | [] => []
          | _ :: _ => [remove_new_lines line]
          end
  | c :: rest =>
      if is_newline c then remove_new_lines line :: getline_loop rest []
      else getline_loop rest (line ++ [c])
  end.

Definition split_string_by_newline (input_string : list ascii)
  : list (list ascii) :=
  getline_loop input_string [].

(** The words [iss >> word] extracts in turn: leading white space is skipped,
    a word runs to the next white space or the end of the stream. *)
Fixpoint extract_words (iss word : list ascii) : list (list ascii) :=
  match iss with
  | [] => match word with
          | [] => []
          | _ :: _ => [word]
          end
  | c :: rest =>
      if isspace c then
        match word with
        | [] => extract_words rest []
        | _ :: _ => word :: extract_words rest []
        end
      else extract_words rest (word ++ [c])
  end.

Definition real_offset (size h_offset : Z) : Z :=
  int32 (size - Z.quot (int32 (size * h_offset)) 100).

Definition string_length (s : list ascii) : Z := Z.of_nat (length s).

(** The test of [split_text_by_size]: the lengths are [size_t], so both
    [real_offset] and [max_length] are converted to [size_t] and the sum is
    taken modulo [2 ^ 32]. *)
Definition fits (lastElement word : list ascii) (real_offset max_length : Z)
  : bool :=
  size_t (size_t (size_t (string_length lastElement * size_t real_offset)
                  + size_t (string_length word * size_t real_offset))
          + size_t real_offset)
  <=? size_t max_length.

Definition space : ascii := " "%char.

(** One turn of the [while (iss >> word)] loop; [rev result] exposes
    [result.back()]. *)
Definition place_word (real_offset max_length : Z)
    (result : list (list ascii)) (word : list ascii) : list (list ascii) :=
  match rev result with
  | [] => push_back result word
  | lastElement :: front =>
      if fits lastElement word real_offset max_length
      then rev front ++ [lastElement ++ space :: word]
      else push_back result word
  end.

Definition split_text_by_size (text : list ascii) (size h_offset max_length : Z)
  : list (list ascii) :=
  fold_left (place_word (real_offset size h_offset) max_length)
            (extract_words text []) [].

Definition get_all_lines (text : list ascii) (size h_offset max_length : Z)
  : list (list ascii) :=
  flat_map (fun t => split_text_by_size t size h_offset max_length)
           (split_string_by_newline text).

(** The loop of [get_current_line]; [i] is the loop counter. *)
Fixpoint current_line_loop (lines : list (list ascii)) (i total_chars : Z)
    (current_char : Z) : Z :=
  match lines with
  | [] => -1
  | l :: rest =>
      let utf8_line := get_utf8_char_vector l in
      let total_chars := int32 (total_chars + (Z.of_nat (length utf8_line) + 1)) in
      if total_chars >? current_char then i
      else current_line_loop rest (i + 1) total_chars current_char
  end.

Definition get_current_line (lines : list (list ascii)) (current_char : Z) : Z :=
  current_line_loop lines 0 0 current_char.

(** ** Drawing *)

(** The block that every path of the header ends a frame with: leave any
    render target for the screen, then copy the cached texture over it. *)
Definition present (target : CombinedTexture) : SDL unit :=
  rt <- SDL_GetRenderTarget ;;
  (match rt with
   | Some _ => SDL_SetRenderTarget None
   | None => ret tt
   end) ;;
  SDL_RenderCopy (texture target) None None.

(** The first [if] of [draw_text] and [draw_utf8_text]: the texture of a
    target is allocated and cleared on first use. *)
Definition ensure_texture (target : option CombinedTexture)
  : SDL (option CombinedTexture) :=
  match target with
  | Some tg =>
      match texture tg with
      | None =>
          t <- SDL_CreateTexture ;;
          SDL_SetRenderTarget t ;;
          SDL_SetTextureBlendMode t ;;
          SDL_SetRenderDrawColor 0 0 0 0 ;;
          SDL_RenderClear ;;
          ret (Some (mk_combined (finished tg) t))
      | Some _ => ret target
      end
  | None => ret None
  end.

Definition glyph_advance (size h_offset : Z) : Z :=
  int32 (size - Z.quot (int32 (h_offset * size)) 100).

(** The body of [for (auto c : utf8_text)]; the result is [current_x]. *)
Definition draw_code_point (font_atlas : FontAtlas) (y size h_offset : Z)
    (target : option CombinedTexture) (color : SDL_Color)
    (current_x : Z) (c : Z) : SDL Z :=
  if c =? 32 then
    let current_x := int32 (current_x + glyph_advance size h_offset) in
    (match target with
     | Some tg => present tg
     | None => ret tt
     end) ;;
    ret current_x
  else
    let index := get_char_index c (characters font_atlas) in
    if negb (index =? -1) then
      let source := get_atlas_rect_by_index index 512 512 32 32 in
      let destiny := mk_rect current_x y size size in
      let current_x := int32 (current_x + glyph_advance size h_offset) in
      match target with
      | Some tg =>
          tmp_target <- SDL_CreateTexture ;;
          SDL_SetRenderTarget tmp_target ;;
          SDL_SetTextureBlendMode tmp_target ;;
          SDL_SetRenderDrawColor 0 0 0 0 ;;
          SDL_RenderClear ;;
          SDL_SetTextureColorMod tmp_target color ;;
          SDL_RenderCopy (atlas_texture font_atlas) (Some source) (Some destiny) ;;
          SDL_SetRenderTarget (texture tg) ;;
          SDL_RenderCopy tmp_target None None ;;
          SDL_SetRenderTarget None ;;
          SDL_RenderCopy (texture tg) None None ;;
          SDL_DestroyTexture tmp_target ;;
          ret current_x
      | None =>
          SDL_RenderCopy (atlas_texture font_atlas) (Some source) (Some destiny) ;;
          ret current_x
      end
    else
      (match target with
       | Some tg => present tg
       | None => ret tt
       end) ;;
      ret current_x.

Fixpoint draw_code_points (font_atlas : FontAtlas) (y size h_offset : Z)
    (target : option CombinedTexture) (color : SDL_Color)
    (current_x : Z) (utf8_text : list Z) : SDL Z :=
  match utf8_text with
  | [] => ret current_x
  | c :: rest =>
      current_x <- draw_code_point font_atlas y size h_offset target color
                                   current_x c ;;
      draw_code_points font_atlas y size h_offset target color current_x rest
  end.

(** The closing [if (target)] of both functions. *)
Definition finish (target : option CombinedTexture)
  : SDL (option CombinedTexture) :=
  match target with
  | Some tg =>
      rt <- SDL_GetRenderTarget ;;
      (match rt with
       | Some _ => SDL_SetRenderTarget None
       | None => ret tt
       end) ;;
      ret (Some (mk_combined true (texture tg)))
  | None => ret None
  end.

(** [target] is the pointer argument, [None] for [nullptr]; the result is the
    pointed-to struct after the call. *)
Definition draw_utf8_text (utf8_text : list Z) (font_atlas : FontAtlas)
    (x y size h_offset : Z) (target : option CombinedTexture)
    (color : SDL_Color) : SDL (option CombinedTexture) :=
  target <- ensure_texture target ;;
  match target with
  | Some (mk_combined true t) =>
      present (mk_combined true t) ;;
      ret target
  | _ =>
      draw_code_points font_atlas y size h_offset target color x utf8_text ;;
      finish target
  end.

(** [draw_text] repeats the body of [draw_utf8_text] word for word once it
    has decoded [text.c_str()]. *)
Definition draw_text (text : list ascii) (font_atlas : FontAtlas)
    (x y size h_offset : Z) (target : option CombinedTexture)
    (color : SDL_Color) : SDL (option CombinedTexture) :=
  target <- ensure_texture target ;;
  match target with
  | Some (mk_combined true t) =>
      present (mk_combined true t) ;;
      ret target
  | _ =>
      let utf8_text := get_utf8_char_vector text in
      draw_code_points font_atlas y size h_offset target color x utf8_text ;;
      finish target
  end.

(** The [for (auto l : lines)] loop of [draw_text_multiline]. *)
Fixpoint draw_lines (font_atlas : FontAtlas) (rect : SDL_Rect)
    (size h_offset v_offset : Z) (target : option CombinedTexture)
    (current_y : Z) (lines : list (list ascii)) : SDL (option CombinedTexture) :=
  match lines with
  | [] => ret target
  | l :: rest =>
      target <- (match target with
                 | Some tg =>
                     draw_text l font_atlas (rx rect) current_y size h_offset
                               (Some (mk_combined false (texture tg))) white
                 | None =>
                     draw_text l font_atlas (rx rect) current_y size h_offset
                               None white
                 end) ;;
      draw_lines font_atlas rect size h_offset v_offset target
                 (int32 (current_y + Z.quot (int32 (size * v_offset)) 100)) rest
  end.

Definition draw_text_multiline (text : list ascii) (font_atlas : FontAtlas)
    (rect : SDL_Rect) (size h_offset v_offset : Z)
    (target : option CombinedTexture) (c_lines : option (list (list ascii)))
  : SDL (option CombinedTexture) :=
  match target with
  | Some (mk_combined true t) =>
      let r := mk_rect (rx rect) (ry rect) (rw rect) (rh rect) in
      SDL_RenderCopy t (Some r) (Some r) ;;
      ret target
  | _ =>
      let lines :=
        match c_lines with
        | Some ls => ls
        | None => split_text_by_size text size h_offset (rw rect)
        end in
      draw_lines font_atlas rect size h_offset v_offset target (ry rect) lines
  end.

(** ** The typewriter tick *)

(** [v[i]] with an [int] index, which [operator[]] takes as a [size_t];
    [None] is a read past the end, undefined in C++. *)
Definition vector_at (v : list Z) (i : Z) : option Z :=
  nth_error v (Z.to_nat (size_t i)).

(** [stats.type_counter > stats.utf8_text.size() - 1], compared as [size_t]:
    with an empty vector the right-hand side wraps to [2 ^ 32 - 1]. *)
Definition reveal_complete (stats : TypeStats) : bool :=
  size_t (type_counter stats)
  >? size_t (Z.of_nat (length (utf8_text stats)) - 1).

(** The lazy decode at the head of [draw_typewriter]. *)
Definition decode_once (text : list ascii) (stats : TypeStats) : TypeStats :=
  if (Z.of_nat (length (utf8_text stats)) =? 0) then
    mk_stats (current_lines stats) (temp_text stats)
             (get_utf8_char_vector (remove_new_lines text))
             (type_counter stats) (current_x stats)
             (timer stats) (duration stats)
  else stats.

(** The line test of a reveal: [&&] guards the read of the previous index. *)
Definition line_advanced (lines : list (list ascii)) (type_counter : Z) : bool :=
  (type_counter >? 0)
  && (get_current_line lines type_counter
      >? get_current_line lines (int32 (type_counter - 1))).

(** [get_utf8_char_vector("  ")[0]]. *)
Definition blank : Z := 32.

(** The test that sends a reveal down the skipping path. *)
Definition no_glyph (font_atlas : FontAtlas) (c : Z) : bool :=
  (get_char_index c (characters font_atlas) =? -1) && negb (c =? blank).

Definition set_current_x (stats : TypeStats) (x : Z) : TypeStats :=
  mk_stats (current_lines stats) (temp_text stats) (utf8_text stats)
           (type_counter stats) x (timer stats) (duration stats).

Definition increment_counter (stats : TypeStats) : TypeStats :=
  mk_stats (current_lines stats) (temp_text stats) (utf8_text stats)
           (int32 (type_counter stats + 1)) (current_x stats)
           (timer stats) (duration stats).

(** One call of [draw_typewriter].  [target] is dereferenced on every path, so
    it is taken by value; [callback] is [true] for a non-null pointer, and a
    call through it is logged as [Callback] (the callee has no argument
    through which it could reach [stats] or [target]).  The result is [None]
    when the tick reads [stats.utf8_text] past its end. *)
Definition draw_typewriter (text : list ascii) (font_atlas : FontAtlas)
    (rect : SDL_Rect) (target : CombinedTexture) (stats : TypeStats)
    (size : Z) (callback : bool) (h_offset v_offset : Z)
  : SDL (option (CombinedTexture * TypeStats)) :=
  let lines := get_all_lines text size h_offset (rw rect) in
  let tmptext := remove_new_lines text in
  let stats := decode_once text stats in
  if reveal_complete stats then
    present target ;;
    ret (Some (target, stats))
  else if (duration stats <? timer stats)%float then
    let current_line := get_current_line lines (type_counter stats) in
    let stats :=
      if line_advanced lines (type_counter stats)
      then set_current_x stats (rx rect) else stats in
    match vector_at (utf8_text stats) (type_counter stats) with
    | None => ret None
    | Some c =>
        if no_glyph font_atlas c then
          let stats := increment_counter stats in
          present target ;;
          ret (Some (target, stats))
        else
          let target := mk_combined false (texture target) in
          drawn <- draw_utf8_text [c] font_atlas (current_x stats)
                     (int32 (ry rect
                             + int32 (current_line
                                      * Z.quot (int32 (size * v_offset)) 100)))
                     size h_offset (Some target) white ;;
          let target := match drawn with Some tg => tg | None => target end in
          let stats :=
            mk_stats (current_lines stats) (temp_text stats) (utf8_text stats)
                     (int32 (type_counter stats + 1))
                     (int32 (current_x stats + glyph_advance size h_offset))
                     0%float (duration stats) in
          if (size_t (type_counter stats) >? size_t (string_length tmptext - 1))
             && callback
          then issue Callback ;; ret (Some (target, stats))
          else ret (Some (target, stats))
    end
  else
    present target ;;
    ret (Some (target, stats)).

(** The frame loop of the caller, as far as the typewriter sees it: before
    each tick the caller has folded the elapsed time into [stats.timer], so a
    run is given by the timer value each tick starts with. *)
Fixpoint typewriter_ticks (text : list ascii) (font_atlas : FontAtlas)
    (rect : SDL_Rect) (size : Z) (callback : bool) (h_offset v_offset : Z)
    (timers : list float) (target : CombinedTexture) (stats : TypeStats)
  : SDL (option (CombinedTexture * TypeStats)) :=
  match timers with
  | [] => ret (Some (target, stats))
  | t :: rest =>
      let stats :=
        mk_stats (current_lines stats) (temp_text stats) (utf8_text stats)
                 (type_counter stats) (current_x stats) t (duration stats) in
      out <- draw_typewriter text font_atlas rect target stats size callback
                             h_offset v_offset ;;
      match out with
      | Some (target, stats) =>
          typewriter_ticks text font_atlas rect size callback h_offset v_offset
                           rest target stats
      | None => ret None
      end
  end.

(** How often the callback has run. *)
Definition callback_count (cs : list sdl_call) : nat :=
  length (filter (fun c => match c with Callback => true | _ => false end) cs).

(** * Properties *)

(** ** Vocabulary of the statements *)

Definition is_ascii (c : ascii) : bool := byte_value c <? 128.

Definition not_newline (c : ascii) : bool := negb (is_newline c).

Definition INT_MAX : Z := 2 ^ 31 - 1.

(** What [get_current_line] has accumulated once it has passed every line:
    the code points of each line and one more per line. *)
Fixpoint line_total (lines : list (list ascii)) : Z :=
  match lines with
  | [] => 0
  | l :: rest => (Z.of_nat (length (get_utf8_char_vector l)) + 1) + line_total rest
  end.

(** The code points the lines hold, separators not counted. *)
Fixpoint character_count (lines : list (list ascii)) : Z :=
  match lines with
  | [] => 0
  | l :: rest => Z.of_nat (length (get_utf8_char_vector l)) + character_count rest
  end.

(** The line [split_text_by_size] builds from a group of words: the first
    word, then [" " + word] for each further one. *)
Definition line_of (group : list (list ascii)) : list ascii :=
  match group with
  | [] => []
  | w :: ws => fold_left (fun line word => line ++ space :: word) ws w
  end.

(** The bytes a list of words takes with one separator after each. *)
Fixpoint span (words : list (list ascii)) : Z :=
  match words with
  | [] => 0
  | w :: rest => (string_length w + 1) + span rest
  end.

Definition no_space (w : list ascii) : Prop := existsb isspace w = false.

(** [words_between_spaces text words]: [words] are the maximal runs of
    non-space bytes of [text], in order.  A word ends at the end of the text
    or right before a white-space byte. *)
Inductive words_between_spaces : list ascii -> list (list ascii) -> Prop :=
| wbs_end : words_between_spaces [] []
| wbs_space (c : ascii) (text : list ascii) (words : list (list ascii)) :
    isspace c = true ->
    words_between_spaces text words ->
    words_between_spaces (c :: text) words
| wbs_word (w text : list ascii) (words : list (list ascii)) :
    w <> [] -> no_space w ->
    (text = [] \/ exists c t, text = c :: t /\ isspace c = true) ->
    words_between_spaces text words ->
    words_between_spaces (w ++ text) (w :: words).

(** The width bound on a line, asked of the lines of several words. *)
Definition within_width (ro max_length : Z) (group : list (list ascii)) : Prop :=
  (2 <= length group)%nat -> string_length (line_of group) * ro <= max_length.

(** A call of one of the three static drawing functions on a cache. *)
Inductive draw_request : Type :=
| DrawText (text : list ascii) (font_atlas : FontAtlas)
           (x y size h_offset : Z) (color : SDL_Color)
| DrawUtf8Text (utf8_text : list Z) (font_atlas : FontAtlas)
               (x y size h_offset : Z) (color : SDL_Color)
| DrawTextMultiline (text : list ascii) (font_atlas : FontAtlas)
                    (rect : SDL_Rect) (size h_offset v_offset : Z)
                    (c_lines : option (list (list ascii))).

Definition run_request (q : draw_request) (target : option CombinedTexture)
  : SDL (option CombinedTexture) :=
  match q with
  | DrawText text font_atlas x y size h_offset color =>
      draw_text text font_atlas x y size h_offset target color
  | DrawUtf8Text utf8_text font_atlas x y size h_offset color =>
      draw_utf8_text utf8_text font_atlas x y size h_offset target color
  | DrawTextMultiline text font_atlas rect size h_offset v_offset c_lines =>
      draw_text_multiline text font_atlas rect size h_offset v_offset target
                          c_lines
  end.

(** Calls made one after the other on the same cache, nobody touching the
    cache in between. *)
Fixpoint run_requests (qs : list draw_request) (target : option CombinedTexture)
  : SDL (option CombinedTexture) :=
  match qs with
  | [] => ret target
  | q :: rest =>
      target <- run_request q target ;;
      run_requests rest target
  end.

(** [draw_text_multiline] is the one of the three that does not switch to
    the screen before it copies the cache. *)
Definition is_multiline (q : draw_request) : bool :=
  match q with
  | DrawTextMultiline _ _ _ _ _ _ _ => true
  | _ => false
  end.

Definition starts_with_multiline (qs : list draw_request) : bool :=
  match qs with
  | q :: _ => is_multiline q
  | [] => false
  end.

(** What a finished cache may still cause: leaving a render target for the
    screen, and copying the cached texture [t] onto an output other than
    itself. *)
Definition presents (t : SDL_Texture) (c : sdl_call) : bool :=
  match c with
  | SetRenderTarget None => true
  | RenderCopy on (Some src) _ _ =>
      Nat.eqb src t
      && match on with
         | Some o => negb (Nat.eqb t o)
         | None => true
         end
  | _ => false
  end.

Definition is_copy (c : sdl_call) : bool :=
  match c with
  | RenderCopy _ _ _ _ => true
  | _ => false
  end.

(** The calls of the block [present]. *)
Definition presentation (r : SDL_Renderer) (target : CombinedTexture)
  : list sdl_call :=
  match render_target r with
  | Some _ => [SetRenderTarget None]
  | None => []
  end ++ [RenderCopy None (texture target) None None].

(** A copy out of a cell of the atlas: the drawing of a glyph. *)
Definition glyph_draw (c : sdl_call) : bool :=
  match c with
  | RenderCopy _ _ (Some _) _ => true
  | _ => false
  end.

(** Where the cursor stands after a reveal that started from [x]: a code
    point without glyph leaves it, any other moves it by one advance. *)
Definition cursor_after (font_atlas : FontAtlas) (size h_offset c x : Z) : Z :=
  if no_glyph font_atlas c then x else int32 (x + glyph_advance size h_offset).

(** A computation that never runs the completion callback. *)
Definition quiet {A} (m : SDL A) : Prop :=
  forall r, callback_count (calls (snd (m r))) = callback_count (calls r).

(** The text [U+00E9] alone: the bytes [C3 A9]. *)
Definition e_acute : list ascii := [ascii_of_nat 195; ascii_of_nat 169].

(** ** Sample inputs *)

(** The atlas alphabets and texts of the runs below; the atlas image is the
    texture with handle 100. *)
Definition atlas_ab : FontAtlas := mk_atlas (Some 100%nat) (str "ab").
Definition atlas_a : FontAtlas := mk_atlas (Some 100%nat) (str "a").

Definition a_b : list ascii := str "a b".
Definition a___b : list ascii := str "a   b".

(** A renderer drawing on the screen, no call made yet. *)
Definition renderer0 : SDL_Renderer := mk_renderer None 0%nat [].

(** [CombinedTexture comb; comb.texture = nullptr; comb.finished = false;]. *)
Definition cache0 : CombinedTexture := mk_combined false None.

(** A [TypeStats] at the start of a run, the cursor at [x = 16]. *)
Definition stats0 : TypeStats := mk_stats [] [] [] 0 16 0%float 0%float.

(** A destination rectangle with [x = 16], of width [w]. *)
Definition rect16 (w : Z) : SDL_Rect := mk_rect 16 40 w 200.

(** [stats] as the caller hands it to a tick: counter, cursor and timer set. *)
Definition stats_at (utf8 : list Z) (counter x : Z) (t : float) : TypeStats :=
  mk_stats [] [] utf8 counter x t 0%float.

(** The counter and the cursor a run ends with. *)
Definition counter_and_cursor (out : option (CombinedTexture * TypeStats))
  : option (Z * Z) :=
  match out with
  | Some (_, st) => Some (type_counter st, current_x st)
  | None => None
  end.

Definition atlas_b : FontAtlas := mk_atlas (Some 100%nat) (str "b").

(** A cache that has been drawn: texture 7. *)
Definition cache7 : CombinedTexture := mk_combined true (Some 7%nat).

(** ** Vocabulary of the further properties *)

(** Whether the continuation byte before [rest] closes its sequence. *)
Definition closes (rest : list ascii) : bool :=
  match rest with
  | next :: _ => negb (is_utf_cont next)
  | [] => true
  end.

(** [encoded_char bytes v]: [bytes] is one well-formed sequence (a non-NUL
    ASCII byte, or a lead byte with the continuation bytes its pattern asks
    for) and [v] is the code point the decoder gives it. *)
Inductive encoded_char : list ascii -> Z -> Prop :=
| enc_one (c : ascii) :
    is_ascii c = true -> is_nul c = false ->
    encoded_char [c] (byte_value c)
| enc_two (lead c1 : ascii) :
    Z.land (char_to_int lead) 0xE0 = 0xC0 -> is_utf_cont c1 = true ->
    encoded_char [lead; c1] (byte_value lead * 256 + byte_value c1)
| enc_three (lead c1 c2 : ascii) :
    Z.land (char_to_int lead) 0xF0 = 0xE0 ->
    is_utf_cont c1 = true -> is_utf_cont c2 = true ->
    encoded_char [lead; c1; c2]
                 (byte_value lead * 65536 + byte_value c1 * 256 + byte_value c2)
| enc_four (lead c1 c2 c3 : ascii) :
    Z.land (char_to_int lead) 0xF8 = 0xF0 ->
    is_utf_cont c1 = true -> is_utf_cont c2 = true -> is_utf_cont c3 = true ->
    encoded_char [lead; c1; c2; c3]
                 (0xff000000 + byte_value c1 * 65536 + byte_value c2 * 256
                  + byte_value c3).

(** A text that is one well-formed sequence after the other, with the code
    points of the sequences in order. *)
Inductive encoded_text : list ascii -> list Z -> Prop :=
| enc_nil : encoded_text [] []
| enc_cons (bytes : list ascii) (v : Z) (text : list ascii) (cps : list Z) :
    encoded_char bytes v -> encoded_text text cps ->
    encoded_text (bytes ++ text) (v :: cps).

(** A string without newline byte. *)
Definition newline_free (s : list ascii) : Prop := forallb not_newline s = true.

(** A word as [operator>>] extracts it: not empty, no white space in it. *)
Definition proper_word (w : list ascii) : Prop := w <> [] /\ no_space w.

(** The words of a string. *)
Definition words_of (s : list ascii) : list (list ascii) := extract_words s [].

(** The newline byte. *)
Definition newline : ascii := "010"%char.

(** Lines put end to end, each followed by the newline that ends it. *)
Definition terminated (lines : list (list ascii)) : list ascii :=
  flat_map (fun l => l ++ [newline]) lines.

(** A text with the newline that ends its last line supplied where it is
    missing; the empty text has no line to end. *)
Definition closed (text : list ascii) : list ascii :=
  if Ascii.eqb (last text newline) newline then text else text ++ [newline].

(** How many of the calls satisfy [f]. *)
Definition tally (f : sdl_call -> bool) (cs : list sdl_call) : Z :=
  Z.of_nat (length (filter f cs)).

Definition is_create (c : sdl_call) : bool :=
  match c with
  | CreateTexture _ => true
  | _ => false
  end.

Definition is_destroy (c : sdl_call) : bool :=
  match c with
  | DestroyTexture _ => true
  | _ => false
  end.

(** A code point that [draw_text] and [draw_utf8_text] draw a glyph for:
    not the blank, and found in the atlas. *)
Definition drawable (font_atlas : FontAtlas) (c : Z) : bool :=
  negb (c =? 32) && negb (get_char_index c (characters font_atlas) =? -1).

Definition drawable_count (font_atlas : FontAtlas) (utf8 : list Z) : Z :=
  Z.of_nat (length (filter (drawable font_atlas) utf8)).

(** The texture a cache holds once a drawing function has run on it: its
    own, or the one allocated from the renderer on first use. *)
Definition texture_after (target : CombinedTexture) (r : SDL_Renderer)
  : option SDL_Texture :=
  match texture target with
  | Some t => Some t
  | None => Some (next_texture r)
  end.

Definition allocations (target : CombinedTexture) : Z :=
  match texture target with
  | Some _ => 0
  | None => 1
  end.

(** What a computation has added to the log between [r] and [r']: so many
    glyph copies, so many textures created, so many destroyed. *)
Definition effect (r r' : SDL_Renderer) (glyphs created destroyed : Z) : Prop :=
  tally glyph_draw (calls r') = tally glyph_draw (calls r) + glyphs
  /\ tally is_create (calls r') = tally is_create (calls r) + created
  /\ tally is_destroy (calls r') = tally is_destroy (calls r) + destroyed.

(** The textures alive after a stretch of calls, given those alive before
    it. *)
Fixpoint live_textures (cs : list sdl_call) (live : list SDL_Texture)
  : list SDL_Texture :=
  match cs with
  | [] => live
  | CreateTexture t :: rest => live_textures rest (live ++ [t])
  | DestroyTexture (Some t) :: rest =>
      live_textures rest (remove Nat.eq_dec t live)
  | _ :: rest => live_textures rest live
  end.

(** The render targets of the glyph copies of a stretch of calls, in order. *)
Definition glyph_targets (cs : list sdl_call) : list (option SDL_Texture) :=
  flat_map (fun c => match c with
                     | RenderCopy on _ (Some _) _ => [on]
                     | _ => []
                     end) cs.

(** The texture a cache holds before a call, among the live textures. *)
Definition held (target : CombinedTexture) : list SDL_Texture :=
  match texture target with
  | Some t => [t]
  | None => []
  end.

(** The texture of the cache, if any, came from this renderer: the handles
    the renderer has yet to hand out are above it. *)
Definition handed_out (target : CombinedTexture) (r : SDL_Renderer) : Prop :=
  forall t, texture target = Some t -> (t < next_texture r)%nat.

(** [x] is a temporary texture of a stretch of calls that fills [cache]: it
    is not the texture of the cache, the stretch creates it, copies it onto
    the cache and destroys it. *)
Definition temporary (cache : option SDL_Texture) (issued : list sdl_call)
    (x : SDL_Texture) : Prop :=
  Some x <> cache
  /\ In (CreateTexture x) issued
  /\ In (RenderCopy cache (Some x) None None) issued
  /\ In (DestroyTexture (Some x)) issued.

(** Between [r] and [r'] so many glyphs were drawn, each on a temporary
    texture of its own and nowhere else, and the one texture alive that the
    cache did not hold before is the one it holds now. *)
Definition drawn_through_temporaries (target : CombinedTexture)
    (r r' : SDL_Renderer) (glyphs : Z) : Prop :=
  exists issued temps,
    calls r' = calls r ++ issued
    /\ glyph_targets issued = map Some temps
    /\ Z.of_nat (length temps) = glyphs
    /\ NoDup temps
    /\ Forall (temporary (texture_after target r) issued) temps
    /\ map Some (live_textures issued (held target)) = [texture_after target r].

(** The drawable code points of all the lines of a text. *)
Fixpoint drawable_in_lines (font_atlas : FontAtlas) (lines : list (list ascii))
  : Z :=
  match lines with
  | [] => 0
  | l :: rest =>
      drawable_count font_atlas (get_utf8_char_vector l)
      + drawable_in_lines font_atlas rest
  end.

(** The lines [draw_text_multiline] draws: the caller's, or its own wrap. *)
Definition multiline_lines (text : list ascii) (rect : SDL_Rect)
    (size h_offset : Z) (c_lines : option (list (list ascii)))
  : list (list ascii) :=
  match c_lines with
  | Some ls => ls
  | None => split_text_by_size text size h_offset (rw rect)
  end.

(** ** Vocabulary of the typewriter runs *)

(** What [draw_typewriter] decodes on first use, its length, and the byte
    length [tmptext.length()] its callback test reads. *)
Definition decoded_text (text : list ascii) : list Z :=
  get_utf8_char_vector (remove_new_lines text).

Definition code_points (text : list ascii) : Z :=
  Z.of_nat (length (decoded_text text)).

Definition byte_count (text : list ascii) : Z :=
  string_length (remove_new_lines text).

(** The state a run is in between two ticks: the text not yet decoded or
    decoded from this text, the counter within the text. *)
Definition run_ready (text : list ascii) (stats : TypeStats) : Prop :=
  (utf8_text stats = [] \/ utf8_text stats = decoded_text text)
  /\ 0 <= type_counter stats <= code_points text.

(** The tick reveals a code point: some are left, the timer is past the
    duration. *)
Definition reveals (text : list ascii) (stats : TypeStats) : bool :=
  (type_counter stats <? code_points text)
  && (duration stats <? timer stats)%float.

Definition next_code_point (text : list ascii) (stats : TypeStats) : Z :=
  nth (Z.to_nat (type_counter stats)) (decoded_text text) 0.

(** The last code point of the text. *)
Definition last_code_point (text : list ascii) : Z :=
  last (decoded_text text) 0.

(** The ticks of a run that start with the timer past the duration. *)
Definition reveal_ticks (d : float) (timers : list float) : Z :=
  Z.of_nat (length (filter (fun t => (d <? t)%float) timers)).

(** ** The decoder *)

Lemma ascii_plain (c : ascii) :
  is_ascii c = true ->
  is_utf8_start c = false /\ is_utf_cont c = false
  /\ uint32 (char_to_int c) = byte_value c.
Proof.
  destruct c as [b0 b1 b2 b3 b4 b5 b6 b7].
  destruct b7; [ destruct b0, b1, b2, b3, b4, b5, b6; discriminate | ].
  intros _.
  destruct b0, b1, b2, b3, b4, b5, b6; repeat split; reflexivity.
Qed.

Lemma decode_loop_ascii (text : list ascii) :
  forallb is_ascii text = true ->
  forall st, converted (decode_loop text st)
             = converted st ++ map byte_value text.
Proof.
  induction text as [| c rest IH]; intros Hall st; simpl.
  - now rewrite app_nil_r.
  - simpl in Hall. apply andb_true_iff in Hall as [Hc Hrest].
    destruct (ascii_plain c Hc) as (Hs & Hk & Hv).
    unfold decode_byte. rewrite Hs, Hk, Hv.
    rewrite (IH Hrest). simpl. unfold push_back.
    now rewrite <- app_assoc.
Qed.

Lemma plain_bytes (text : list ascii) :
  Forall (fun c => 0 < byte_value c < 128) text ->
  forallb is_ascii text = true /\ until_nul text = text.
Proof.
  induction 1 as [| c rest Hc _ [IHa IHn]]; [ split; reflexivity | ].
  cbn [forallb until_nul]. unfold is_ascii at 1, is_nul.
  destruct (Z.ltb_spec (byte_value c) 128); [ | lia ].
  destruct (Z.eqb_spec (byte_value c) 0); [ lia | ].
  rewrite IHa, IHn. split; reflexivity.
Qed.

(** C7.  Decoding an ASCII-only string (every byte between 1 and 127, so the
    string is its own C string of length N) gives the bytes widened, in the
    order of the text: exactly N code points, and at every position the code
    point is the value of the byte at that position. *)
Theorem get_utf8_char_vector_ascii (text : list ascii) :
  Forall (fun c => 0 < byte_value c < 128) text ->
  get_utf8_char_vector text = map byte_value text
  /\ length (get_utf8_char_vector text) = length text
  /\ forall (i : nat) (c : ascii),
       nth_error text i = Some c ->
       nth_error (get_utf8_char_vector text) i = Some (byte_value c).
Proof.
  intros Hall. destruct (plain_bytes text Hall) as [Hascii Hnul].
  assert (E : get_utf8_char_vector text = map byte_value text).
  { unfold get_utf8_char_vector. rewrite Hnul.
    now rewrite (decode_loop_ascii text Hascii). }
  rewrite E. split; [ reflexivity | ]. split.
  - apply length_map.
  - intros i c Hi. now rewrite nth_error_map, Hi.
Qed.

Lemma two_byte_lead (c : ascii) :
  Z.land (char_to_int c) 0xE0 = 0xC0 ->
  is_nul c = false /\ is_utf8_start c = true
  /\ uint32 (Z.shiftl (char_to_int c) 8) = 0xffff0000 + byte_value c * 256.
Proof.
  destruct c as [b0 b1 b2 b3 b4 b5 b6 b7].
  destruct b5, b6, b7; try (destruct b0, b1, b2, b3, b4; discriminate).
  intros _.
  destruct b0, b1, b2, b3, b4; repeat split; reflexivity.
Qed.

Lemma continuation_byte (c : ascii) :
  is_utf_cont c = true ->
  is_nul c = false /\ is_utf8_start c = false
  /\ Z.land (uint32 (Z.shiftl (char_to_int c) 0)) 0xff0000ff
     = 0xff000000 + byte_value c.
Proof.
  destruct c as [b0 b1 b2 b3 b4 b5 b6 b7].
  destruct b6, b7; try (destruct b0, b1, b2, b3, b4, b5; discriminate).
  intros _.
  destruct b0, b1, b2, b3, b4, b5; repeat split; reflexivity.
Qed.

Lemma two_byte_value (lead cont : ascii) :
  Z.land (char_to_int lead) 0xE0 = 0xC0 ->
  is_utf_cont cont = true ->
  Z.lxor (Z.lor (Z.lor 0 (0xffff0000 + byte_value lead * 256))
                (0xff000000 + byte_value cont))
         0xffff0000
  = byte_value lead * 256 + byte_value cont.
Proof.
  destruct lead as [b0 b1 b2 b3 b4 b5 b6 b7].
  destruct b5, b6, b7; try (destruct b0, b1, b2, b3, b4; discriminate).
  intros _.
  destruct cont as [c0 c1 c2 c3 c4 c5 c6 c7].
  destruct c6, c7; try (destruct c0, c1, c2, c3, c4, c5; discriminate).
  intros _.
  destruct b0, b1, b2, b3, b4, c0, c1, c2, c3, c4, c5; reflexivity.
Qed.

(** C8.  A string made of one 2-byte sequence (a lead byte of the pattern
    [110xxxxx] and one continuation byte) decodes to exactly one code
    point.  Its value is the two bytes packed as [lead * 256 + cont], below
    [2 ^ 16]: it is fixed by the input alone (not even the uninitialised
    [mask] enters it), so every decode of that input gives the same value. *)
Theorem get_utf8_char_vector_two_byte (lead cont : ascii) :
  Z.land (char_to_int lead) 0xE0 = 0xC0 ->
  is_utf_cont cont = true ->
  get_utf8_char_vector [lead; cont]
  = [byte_value lead * 256 + byte_value cont]
  /\ 0 <= byte_value lead * 256 + byte_value cont < 2 ^ 16.
Proof.
  intros Hlead Hcont.
  destruct (two_byte_lead lead Hlead) as (Hn1 & Hs1 & Hv1).
  destruct (continuation_byte cont Hcont) as (Hn2 & Hs2 & Hv2).
  split.
  - unfold get_utf8_char_vector. simpl until_nul. rewrite Hn1, Hn2.
    simpl decode_loop. unfold decode_byte at 2. rewrite Hs1.
    unfold decode_start. rewrite (proj2 (Z.eqb_eq _ _) Hlead).
    unfold decode_byte. rewrite Hs2, Hcont.
    unfold decode_cont.
    cbn [converted temp_char current_offset mask push_back app].
    change (0 * 8) with 0. change (0 =? 0) with true.
    change (0 =? 1) with false. change (0 =? 2) with false.
    cbv iota. rewrite Hv1, Hv2.
    now rewrite (two_byte_value lead cont Hlead Hcont).
  - unfold byte_value.
    pose proof (N_ascii_bounded lead). pose proof (N_ascii_bounded cont).
    lia.
Qed.

(** ** Newlines *)

Lemma find_newline_none (s : list ascii) :
  find_newline s = None -> filter not_newline s = s.
Proof.
  induction s as [| c rest IH]; cbn; [ reflexivity | ].
  unfold not_newline at 1. destruct (is_newline c); [ discriminate | ].
  destruct (find_newline rest); [ discriminate | ].
  intros _. cbn. now rewrite IH.
Qed.

Lemma erase_one_newline (s : list ascii) :
  forall found,
    find_newline s = Some found ->
    filter not_newline (erase_one s found) = filter not_newline s
    /\ S (length (erase_one s found)) = length s.
Proof.
  induction s as [| c rest IH]; intros found; cbn; [ discriminate | ].
  unfold not_newline at 2. destruct (is_newline c) eqn:Hc.
  - intros H. injection H as <-. cbn. auto.
  - destruct (find_newline rest) as [p |]; [ | discriminate ].
    intros H. injection H as <-. cbn. unfold not_newline at 1. rewrite Hc. cbn.
    destruct (IH p eq_refl) as [Hf Hl]. now rewrite Hf, Hl.
Qed.

(** The fuel given to the loop of [remove_new_lines] is enough: the result
    is the input without its newline bytes. *)
Lemma remove_new_lines_filter (input_string : list ascii) :
  remove_new_lines input_string = filter not_newline input_string.
Proof.
  unfold remove_new_lines.
  assert (H : forall fuel s, (length s <= fuel)%nat ->
                             remove_new_lines_loop fuel s = filter not_newline s).
  { induction fuel as [| fuel IH]; intros s Hlen.
    - destruct s; [ reflexivity | cbn in Hlen; lia ].
    - cbn [remove_new_lines_loop].
      destruct (find_newline s) as [found |] eqn:Hfind.
      + destruct (erase_one_newline s found Hfind) as [Hf Hl].
        rewrite IH by lia. exact Hf.
      + symmetry. now apply find_newline_none. }
  now apply H.
Qed.

(** ** The line of a character *)

Lemma int32_small (z : Z) : - 2 ^ 31 <= z <= INT_MAX -> int32 z = z.
Proof.
  unfold int32, INT_MAX. intros H.
  rewrite Z.mod_small by lia. lia.
Qed.

Lemma line_total_nonneg (lines : list (list ascii)) : 0 <= line_total lines.
Proof. induction lines; simpl; lia. Qed.

Lemma line_total_count (lines : list (list ascii)) :
  line_total lines = character_count lines + Z.of_nat (length lines).
Proof. induction lines; simpl length; simpl; lia. Qed.

(** Past the accumulated total no line is found. *)
Lemma current_line_loop_not_found (lines : list (list ascii)) :
  forall i total c,
    0 <= total -> total + line_total lines <= INT_MAX ->
    total + line_total lines <= c ->
    current_line_loop lines i total c = -1.
Proof.
  induction lines as [| l rest IH]; intros i total c H0 Hmax Hc; simpl.
  - reflexivity.
  - simpl in Hmax, Hc. pose proof (line_total_nonneg rest).
    rewrite int32_small by (unfold INT_MAX in *; lia).
    destruct (Z.gtb_spec (total + (Z.of_nat (length (get_utf8_char_vector l)) + 1)) c).
    + lia.
    + apply IH; lia.
Qed.

(** Below the total a line is found, and a later index never finds an
    earlier line. *)
Lemma current_line_loop_monotone (lines : list (list ascii)) :
  forall i total c1 c2,
    0 <= total -> total + line_total lines <= INT_MAX ->
    lines <> [] \/ total <= c1 ->
    c1 <= c2 -> c2 < total + line_total lines ->
    i <= current_line_loop lines i total c1
    /\ current_line_loop lines i total c1 <= current_line_loop lines i total c2
    /\ current_line_loop lines i total c2 < i + Z.of_nat (length lines).
Proof.
  induction lines as [| l rest IH]; intros i total c1 c2 H0 Hmax Hne H12 Hc.
  - simpl in Hc. destruct Hne; [ congruence | lia ].
  - simpl in Hmax, Hc. pose proof (line_total_nonneg rest).
    simpl current_line_loop.
    rewrite int32_small by (unfold INT_MAX in *; lia).
    set (total' := total + (Z.of_nat (length (get_utf8_char_vector l)) + 1)) in *.
    change (length (l :: rest)) with (S (length rest)).
    destruct (Z.gtb_spec total' c1) as [Hlt1 | Hge1];
      destruct (Z.gtb_spec total' c2) as [Hlt2 | Hge2]; try lia.
    + assert (Hrest : c2 < total' + line_total rest) by (unfold total'; lia).
      destruct (IH (i + 1) total' c2 c2) as (Ha & _ & Hb);
        try (unfold total' in *; lia).
    + assert (Hrest : c2 < total' + line_total rest) by (unfold total'; lia).
      destruct (IH (i + 1) total' c1 c2) as (Ha & Hb & Hd);
        try (unfold total' in *; lia).
Qed.

(** C4 (amended).  For lines whose accumulated total ([line_total]: the code
    points of every line plus one per line) fits an [int]:
    [get_current_line] finds a line exactly for the indices below that total;
    over those indices it is monotonic non-decreasing; and it returns [-1]
    for every index at or past the total, that is, for every index that
    exceeds the character count of the lines by at least the number of
    lines. *)
Theorem get_current_line_monotone (lines : list (list ascii)) :
  line_total lines <= INT_MAX ->
  (forall c1 c2,
      0 <= c1 <= c2 -> c2 < line_total lines ->
      0 <= get_current_line lines c1 <= get_current_line lines c2
      /\ get_current_line lines c2 < Z.of_nat (length lines))
  /\ (forall c,
        character_count lines + Z.of_nat (length lines) <= c ->
        get_current_line lines c = -1).
Proof.
  intros Hmax. split.
  - intros c1 c2 H12 Hc. unfold get_current_line.
    destruct (current_line_loop_monotone lines 0 0 c1 c2) as (Ha & Hb & Hd);
      lia.
  - intros c Hc. rewrite <- line_total_count in Hc.
    apply current_line_loop_not_found; lia.
Qed.

(** ** Wrapping by width *)

Lemma extract_words_between_spaces (iss : list ascii) :
  forall word,
    no_space word ->
    match word with
    | [] => words_between_spaces iss (extract_words iss [])
    | _ :: _ => words_between_spaces (word ++ iss) (extract_words iss word)
    end.
Proof.
  induction iss as [| c rest IH]; intros word Hw.
  - destruct word as [| a w]; simpl.
    + constructor.
    + change (words_between_spaces ((a :: w) ++ []) [a :: w]).
      apply wbs_word; [ discriminate | exact Hw | now left | constructor ].
  - simpl. destruct (isspace c) eqn:Hc.
    + destruct word as [| a w].
      * apply wbs_space; [ exact Hc | exact (IH [] eq_refl) ].
      * change (words_between_spaces ((a :: w) ++ c :: rest)
                                     ((a :: w) :: extract_words rest [])).
        apply wbs_word; [ discriminate | exact Hw | right; eauto | ].
        apply wbs_space; [ exact Hc | exact (IH [] eq_refl) ].
    + assert (Hw' : no_space (word ++ [c])).
      { unfold no_space in *. rewrite existsb_app, Hw. simpl. now rewrite Hc. }
      specialize (IH (word ++ [c]) Hw').
      destruct word as [| a w]; simpl in *.
      * exact IH.
      * now rewrite <- app_assoc in IH.
Qed.

Ltac lengths :=
  cbn [length span app] in *;
  unfold string_length in *;
  rewrite ?length_app in *;
  cbn [length] in *;
  try lia.

Lemma span_nonneg (words : list (list ascii)) : 0 <= span words.
Proof. induction words as [| w rest IH]; lengths. Qed.

Lemma span_app (u v : list (list ascii)) : span (u ++ v) = span u + span v.
Proof. induction u; lengths. Qed.

Lemma span_concat_last (gs : list (list (list ascii))) (g : list (list ascii)) :
  span g <= span (concat (gs ++ [g])).
Proof.
  rewrite concat_app, span_app. cbn [concat]. rewrite app_nil_r.
  pose proof (span_nonneg (concat gs)). lia.
Qed.

Lemma extract_words_span (iss : list ascii) :
  forall word,
    span (extract_words iss word) <= string_length iss + string_length word + 1.
Proof.
  induction iss as [| c rest IH]; intros word.
  - destruct word; cbn [extract_words]; lengths.
  - cbn [extract_words]. destruct (isspace c).
    + specialize (IH []). destruct word as [| a w]; lengths.
    + specialize (IH (word ++ [c])). lengths.
Qed.

Lemma line_of_snoc (g : list (list ascii)) (w : list ascii) :
  g <> [] -> line_of (g ++ [w]) = line_of g ++ space :: w.
Proof.
  destruct g as [| a g]; [ congruence | intros _ ].
  simpl. now rewrite fold_left_app.
Qed.

Lemma line_of_length (g : list (list ascii)) :
  g <> [] -> string_length (line_of g) + 1 = span g.
Proof.
  induction g as [| w g IH] using rev_ind; [ congruence | intros _ ].
  destruct g as [| a g].
  - cbn [app line_of fold_left]. lengths.
  - rewrite line_of_snoc by discriminate. rewrite span_app.
    assert (Ha : a :: g <> []) by discriminate. specialize (IH Ha).
    lengths.
Qed.

Lemma uint32_small (z : Z) : 0 <= z < 2 ^ 32 -> uint32 z = z.
Proof. intros H. unfold uint32. now rewrite Z.mod_small. Qed.

(** Without wrap-around the test of [split_text_by_size] is the plain one. *)
Lemma fits_exact (lastElement word : list ascii) (ro max_length : Z) :
  0 <= ro -> 0 <= max_length <= INT_MAX ->
  (string_length lastElement + string_length word + 1) * ro < 2 ^ 32 ->
  fits lastElement word ro max_length
  = ((string_length lastElement + string_length word + 1) * ro <=? max_length).
Proof.
  intros Hro Hmax Hb. unfold fits, size_t.
  assert (HL : 0 <= string_length lastElement) by (unfold string_length; lia).
  assert (HW : 0 <= string_length word) by (unfold string_length; lia).
  assert (Hro' : ro < 2 ^ 32) by nia.
  rewrite (uint32_small ro) by lia.
  rewrite (uint32_small max_length) by (unfold INT_MAX in *; lia).
  rewrite (uint32_small (string_length lastElement * ro)) by nia.
  rewrite (uint32_small (string_length word * ro)) by nia.
  rewrite (uint32_small (string_length lastElement * ro + string_length word * ro)) by nia.
  rewrite uint32_small by nia.
  f_equal. ring.
Qed.

Lemma real_offset_range (size h_offset : Z) :
  0 <= size -> 0 <= h_offset <= 100 -> size * 100 <= INT_MAX ->
  0 <= real_offset size h_offset <= size.
Proof.
  intros Hs Hh Hb. unfold real_offset.
  assert (Hp : 0 <= size * h_offset <= size * 100) by nia.
  rewrite (int32_small (size * h_offset)) by (unfold INT_MAX in *; lia).
  assert (Hq : 0 <= Z.quot (size * h_offset) 100 <= size).
  { split.
    - apply Z.quot_pos; lia.
    - apply Z.quot_le_upper_bound; lia. }
  rewrite int32_small by (unfold INT_MAX in *; lia). lia.
Qed.

Section Wrap.

Variables (ro max_length bound : Z).
Hypothesis ro_nonneg : 0 <= ro.
Hypothesis max_length_int : 0 <= max_length <= INT_MAX.
Hypothesis no_wrap : bound * ro < 2 ^ 32.

(** One turn of the loop keeps the lines a grouping of the words read so
    far. *)
Lemma place_word_groups (groups : list (list (list ascii))) (word : list ascii) :
  Forall (fun g => g <> []) groups ->
  Forall (within_width ro max_length) groups ->
  span (concat groups) + span [word] <= bound + 1 ->
  exists groups',
    place_word ro max_length (map line_of groups) word = map line_of groups'
    /\ concat groups' = concat groups ++ [word]
    /\ Forall (fun g => g <> []) groups'
    /\ Forall (within_width ro max_length) groups'.
Proof.
  intros Hne Hw Hb. unfold place_word.
  destruct groups as [| g0 gs0 _] using rev_ind.
  - exists [[word]]. cbn. repeat split.
    + constructor; [ discriminate | constructor ].
    + constructor; [ | constructor ]. intros H. cbn in H. lia.
  - rewrite map_app. cbn [map]. rewrite rev_app_distr. cbn [rev app].
    rewrite rev_involutive.
    apply Forall_app in Hne as [Hne1 Hne2]. inversion Hne2 as [| ? ? Hg _]; subst.
    apply Forall_app in Hw as [Hw1 Hw2].
    assert (Hlen : string_length (line_of g0) + string_length word + 1 <= bound).
    { pose proof (line_of_length g0 Hg). pose proof (span_concat_last gs0 g0).
      cbn [span] in Hb. lia. }
    assert (H0 : 0 <= string_length (line_of g0) + string_length word + 1)
      by (unfold string_length; lia).
    rewrite fits_exact by (auto; nia).
    destruct (Z.leb_spec ((string_length (line_of g0) + string_length word + 1) * ro)
                         max_length) as [Hfit | Hnofit].
    + exists (gs0 ++ [g0 ++ [word]]). repeat split.
      * rewrite map_app. cbn [map]. now rewrite line_of_snoc.
      * rewrite !concat_app. cbn [concat]. now rewrite !app_nil_r, app_assoc.
      * apply Forall_app. split; [ exact Hne1 | ].
        constructor; [ | constructor ]. destruct g0; discriminate.
      * apply Forall_app. split; [ exact Hw1 | ].
        constructor; [ | constructor ]. intros _.
        rewrite line_of_snoc by exact Hg.
        replace (string_length (line_of g0 ++ space :: word))
          with (string_length (line_of g0) + string_length word + 1)
          by lengths.
        exact Hfit.
    + exists ((gs0 ++ [g0]) ++ [[word]]). repeat split.
      * unfold push_back. rewrite !map_app. reflexivity.
      * rewrite (concat_app (gs0 ++ [g0])). cbn [concat]. now rewrite app_nil_r.
      * apply Forall_app. split; [ apply Forall_app; now split | ].
        constructor; [ discriminate | constructor ].
      * apply Forall_app. split; [ apply Forall_app; now split | ].
        constructor; [ | constructor ]. intros H. cbn in H. lia.
Qed.

Lemma place_words_groups (words : list (list ascii)) :
  forall groups,
    Forall (fun g => g <> []) groups ->
    Forall (within_width ro max_length) groups ->
    span (concat groups) + span words <= bound + 1 ->
    exists groups',
      fold_left (place_word ro max_length) words (map line_of groups)
      = map line_of groups'
      /\ concat groups' = concat groups ++ words
      /\ Forall (fun g => g <> []) groups'
      /\ Forall (within_width ro max_length) groups'.
Proof.
  induction words as [| word rest IH]; intros groups Hne Hw Hb.
  - exists groups. cbn. rewrite app_nil_r. auto.
  - cbn [fold_left].
    pose proof (span_nonneg rest) as Hrest.
    destruct (place_word_groups groups word Hne Hw) as (g1 & E1 & C1 & N1 & W1).
    { cbn [span] in *. lia. }
    rewrite E1.
    destruct (IH g1 N1 W1) as (g2 & E2 & C2 & N2 & W2).
    { rewrite C1, span_app. cbn [span] in *. lia. }
    exists g2. repeat split; auto.
    rewrite C2, C1, <- app_assoc. reflexivity.
Qed.

End Wrap.

(** C3 (amended).  For [0 <= size], [h_offset] in [0..100] and
    [0 <= max_length], with [size * 100] in [int] range and
    [text.length() * effective_advance] in [size_t] range: the lines of
    [split_text_by_size] are a grouping of the white-space separated words of
    the input, in order, each line being its words joined by single spaces
    (so no word is cut and every break falls between two words); and every
    line that holds more than one word satisfies
    [char_count * effective_advance <= max_length].  A line that holds a
    single word is emitted whatever its width. *)
Theorem split_text_by_size_wraps (text : list ascii) (size h_offset max_length : Z) :
  0 <= size -> 0 <= h_offset <= 100 -> size * 100 <= INT_MAX ->
  0 <= max_length <= INT_MAX ->
  string_length text * real_offset size h_offset < 2 ^ 32 ->
  exists words groups,
    words_between_spaces text words
    /\ concat groups = words
    /\ Forall (fun g => g <> []) groups
    /\ split_text_by_size text size h_offset max_length = map line_of groups
    /\ Forall (within_width (real_offset size h_offset) max_length) groups.
Proof.
  intros Hs Hh Hsz Hmax Hb.
  destruct (real_offset_range size h_offset Hs Hh Hsz) as [Hro _].
  destruct (place_words_groups (real_offset size h_offset) max_length
              (string_length text) Hro Hmax Hb (extract_words text []) [])
    as (groups & E & C & N & W); try constructor.
  { pose proof (extract_words_span text []). cbn [concat span].
    unfold string_length in *. cbn [length] in *. lia. }
  exists (extract_words text []), groups. repeat split; auto.
  exact (extract_words_between_spaces text [] eq_refl).
Qed.

(** ** The render cache *)

Lemma presents_not_draws (t : SDL_Texture) (c : sdl_call) :
  presents t c = true -> draws_on t c = false.
Proof.
  destruct c as [ | [o |] | | | | | [o |] [s |] sr dr | | ]; cbn;
    try discriminate; try reflexivity.
  intros H. apply andb_true_iff in H as [_ H].
  now apply negb_true_iff in H.
Qed.

(** One call on a finished cache whose texture exists.  Only
    [draw_text_multiline] copies onto the render target it finds. *)
Lemma run_request_finished (q : draw_request) (t : SDL_Texture)
    (r : SDL_Renderer) :
  (is_multiline q = true -> render_target r <> Some t) ->
  exists issued,
    run_request q (Some (mk_combined true (Some t))) r
    = (Some (mk_combined true (Some t)),
       mk_renderer (if is_multiline q then render_target r else None)
                   (next_texture r) (calls r ++ issued))
    /\ Forall (fun c => presents t c = true) issued
    /\ length (filter is_copy issued) = 1%nat.
Proof.
  intros Hrt. destruct r as [rt nt cs]. cbn [render_target] in Hrt.
  destruct q; cbn.
  - destruct rt as [o |]; cbn.
    + exists [SetRenderTarget None; RenderCopy None (Some t) None None].
      rewrite <- app_assoc. cbn. repeat split.
      repeat constructor; cbn; now rewrite Nat.eqb_refl.
    + exists [RenderCopy None (Some t) None None]. repeat split.
      repeat constructor; cbn; now rewrite Nat.eqb_refl.
  - destruct rt as [o |]; cbn.
    + exists [SetRenderTarget None; RenderCopy None (Some t) None None].
      rewrite <- app_assoc. cbn. repeat split.
      repeat constructor; cbn; now rewrite Nat.eqb_refl.
    + exists [RenderCopy None (Some t) None None]. repeat split.
      repeat constructor; cbn; now rewrite Nat.eqb_refl.
  - eexists. repeat split.
    repeat constructor. cbn. rewrite Nat.eqb_refl.
    destruct rt as [o |]; [ | reflexivity ].
    cbn. apply negb_true_iff, Nat.eqb_neq.
    specialize (Hrt eq_refl). congruence.
Qed.

(** C2 (amended).  When [finished] is true and the texture of the cache is
    already allocated (non-null), any sequence of calls of [draw_text],
    [draw_utf8_text] and [draw_text_multiline] on the cache leaves the cache
    as it was ([finished] still true, same texture), and issues nothing but
    presentations: one copy of the cached texture per call onto the active
    output, preceded by a switch to the screen where the function makes one.
    No call draws on the cached texture.  [draw_text] and [draw_utf8_text]
    need nothing more; [draw_text_multiline] copies onto the render target it
    finds, so a sequence that begins with it must not find the cached texture
    itself as the render target. *)
Theorem finished_cache_is_only_presented (qs : list draw_request)
    (t : SDL_Texture) (r : SDL_Renderer) :
  (starts_with_multiline qs = true -> render_target r <> Some t) ->
  exists rt' issued,
    run_requests qs (Some (mk_combined true (Some t))) r
    = (Some (mk_combined true (Some t)),
       mk_renderer rt' (next_texture r) (calls r ++ issued))
    /\ (rt' = None \/ rt' = render_target r)
    /\ Forall (fun c => presents t c = true) issued
    /\ Forall (fun c => draws_on t c = false) issued
    /\ length (filter is_copy issued) = length qs.
Proof.
  revert r. induction qs as [| q rest IH]; intros r Hrt.
  - exists (render_target r), []. destruct r. cbn. rewrite app_nil_r.
    repeat split; auto.
  - cbn [starts_with_multiline] in Hrt.
    destruct (run_request_finished q t r Hrt) as (i1 & E1 & P1 & N1).
    cbn [run_requests]. unfold bind. rewrite E1.
    set (r1 := mk_renderer _ _ _).
    assert (Hrt1 : starts_with_multiline rest = true ->
                   render_target r1 <> Some t).
    { intros _. unfold r1. cbn.
      destruct (is_multiline q); [ now apply Hrt | discriminate ]. }
    destruct (IH r1 Hrt1) as (rt2 & i2 & E2 & R2 & P2 & D2 & N2).
    rewrite E2. exists rt2, (i1 ++ i2). unfold r1. cbn [next_texture calls].
    rewrite app_assoc. repeat split; auto.
    + unfold r1 in R2. cbn [render_target] in R2.
      destruct (is_multiline q); destruct R2 as [R2 | R2]; auto.
    + apply Forall_app. now split.
    + apply Forall_app. split; [ | exact D2 ].
      eapply Forall_impl; [ | exact P1 ]. apply presents_not_draws.
    + rewrite filter_app, length_app, N1, N2. reflexivity.
Qed.

(** ** The typewriter tick *)

Lemma decode_once_fields (text : list ascii) (stats : TypeStats) :
  type_counter (decode_once text stats) = type_counter stats
  /\ current_x (decode_once text stats) = current_x stats
  /\ timer (decode_once text stats) = timer stats
  /\ duration (decode_once text stats) = duration stats
  /\ current_lines (decode_once text stats) = current_lines stats
  /\ temp_text (decode_once text stats) = temp_text stats.
Proof. unfold decode_once. destruct (_ =? 0); cbn; auto 10. Qed.

Lemma present_run (target : CombinedTexture) (r : SDL_Renderer) :
  present target r
  = (tt, mk_renderer None (next_texture r) (calls r ++ presentation r target)).
Proof.
  destruct r as [[o |] nt cs]; cbn; [ | reflexivity ].
  unfold SDL_RenderCopy, issue. cbn. now rewrite <- app_assoc.
Qed.

Lemma presentation_no_glyph (r : SDL_Renderer) (target : CombinedTexture) :
  Forall (fun c => glyph_draw c = false) (presentation r target).
Proof.
  unfold presentation. destruct (render_target r); repeat constructor.
Qed.

(** C6 (amended).  On a reveal tick (text not complete, timer past the
    duration) whose code point has no glyph in the atlas and is not the
    blank, the tick succeeds, advances [type_counter] by exactly one, leaves
    the cache, the timer and the decoded text alone, issues only the
    presentation of the cached texture (no glyph is drawn), and does not
    advance the cursor: [current_x] is left as it was unless this tick's
    line test ([line_advanced]) holds, in which case the tick has already
    set it to [rect.x] before it looks up the glyph. *)
Theorem typewriter_skips_missing_glyph (text : list ascii)
    (font_atlas : FontAtlas) (rect : SDL_Rect) (target : CombinedTexture)
    (stats : TypeStats) (size : Z) (callback : bool) (h_offset v_offset : Z)
    (r : SDL_Renderer) (c : Z) :
  reveal_complete (decode_once text stats) = false ->
  (duration stats <? timer stats)%float = true ->
  - 2 ^ 31 <= type_counter stats < INT_MAX ->
  vector_at (utf8_text (decode_once text stats)) (type_counter stats) = Some c ->
  no_glyph font_atlas c = true ->
  draw_typewriter text font_atlas rect target stats size callback
                  h_offset v_offset r
  = (Some (target,
           mk_stats (current_lines stats) (temp_text stats)
                    (utf8_text (decode_once text stats))
                    (type_counter stats + 1)
                    (if line_advanced
                          (get_all_lines text size h_offset (rw rect))
                          (type_counter stats)
                     then rx rect else current_x stats)
                    (timer stats) (duration stats)),
     mk_renderer None (next_texture r) (calls r ++ presentation r target))
  /\ Forall (fun call => glyph_draw call = false) (presentation r target).
Proof.
  intros Hrev Htime Hint Hat Hno.
  split; [ | apply presentation_no_glyph ].
  destruct (decode_once_fields text stats) as (Etc & Ex & Et & Ed & El & Ett).
  unfold draw_typewriter. rewrite Hrev, Ed, Et, Htime, Etc.
  assert (Hvec : forall b : bool,
             vector_at (utf8_text (if b then set_current_x (decode_once text stats) (rx rect)
                                   else decode_once text stats))
                       (type_counter (if b then set_current_x (decode_once text stats) (rx rect)
                                      else decode_once text stats)) = Some c).
  { intros []; cbn; now rewrite ?Etc. }
  rewrite Hvec, Hno. unfold bind. rewrite present_run. unfold ret.
  destruct (line_advanced _ _); unfold increment_counter; cbn;
    rewrite ?Etc, ?Ex, ?Et, ?Ed, ?El, ?Ett;
    rewrite int32_small by (unfold INT_MAX in *; lia); reflexivity.
Qed.

Lemma current_line_loop_lower (lines : list (list ascii)) :
  forall i total c,
    current_line_loop lines i total c = -1
    \/ i <= current_line_loop lines i total c.
Proof.
  induction lines as [| l rest IH]; intros i total c; cbn [current_line_loop].
  - now left.
  - destruct (_ >? c); [ right; lia | ].
    destruct (IH (i + 1) (int32 (total + (Z.of_nat (length (get_utf8_char_vector l)) + 1))) c);
      [ now left | right; lia ].
Qed.

(** The line test of a reveal, in terms of the two line indices. *)
Lemma line_advanced_differs (lines : list (list ascii)) (tc : Z) :
  line_total lines <= INT_MAX -> 0 <= tc <= INT_MAX ->
  (get_current_line lines tc <> -1 ->
   line_advanced lines tc = true
   <-> 0 < tc /\ get_current_line lines tc <> get_current_line lines (tc - 1))
  /\ (get_current_line lines tc = -1 -> line_advanced lines tc = false).
Proof.
  intros Hmax Htc. unfold line_advanced. split.
  - intros Hfound.
    destruct (Z.gtb_spec tc 0) as [Hpos | Hzero]; cbn [andb].
    + rewrite int32_small by (unfold INT_MAX in *; lia).
      assert (Hin : tc < line_total lines).
      { destruct (Z.lt_ge_cases tc (line_total lines)) as [H | H]; [ exact H | ].
        exfalso. apply Hfound. unfold get_current_line.
        apply current_line_loop_not_found; lia. }
      destruct (current_line_loop_monotone lines 0 0 (tc - 1) tc)
        as (_ & Hle & _); try lia.
      fold (get_current_line lines (tc - 1)) in Hle.
      fold (get_current_line lines tc) in Hle.
      destruct (Z.gtb_spec (get_current_line lines tc)
                           (get_current_line lines (tc - 1))); split;
        intros; try split; try lia; try discriminate; try reflexivity.
    + split; [ discriminate | lia ].
  - intros Hnone. rewrite Hnone.
    destruct (tc >? 0); [ cbn | reflexivity ].
    unfold get_current_line.
    destruct (current_line_loop_lower lines 0 0 (int32 (tc - 1))) as [H | H];
      destruct (Z.gtb_spec (-1) (current_line_loop lines 0 0 (int32 (tc - 1))));
      try reflexivity; lia.
Qed.

(** C5 (amended).  On a reveal tick (text not complete, timer past the
    duration, a code point to reveal) the tick succeeds and its cursor starts
    from [rect.x] exactly when [type_counter > 0] and [get_current_line]
    gives the character about to be revealed a line index greater than the
    one of the previous character.  Where [get_current_line] finds a line for
    the character about to be revealed, that is exactly when the two line
    indices differ; where it returns [-1] for it, the cursor is not reset
    even though the indices may differ.  ([cursor_after]: the tick then
    leaves [current_x] at that start for a skipped code point and one advance
    further for a drawn one.) *)
Theorem typewriter_cursor_reset (text : list ascii)
    (font_atlas : FontAtlas) (rect : SDL_Rect) (target : CombinedTexture)
    (stats : TypeStats) (size : Z) (callback : bool) (h_offset v_offset : Z)
    (r : SDL_Renderer) (c : Z) :
  reveal_complete (decode_once text stats) = false ->
  (duration stats <? timer stats)%float = true ->
  0 <= type_counter stats <= INT_MAX ->
  vector_at (utf8_text (decode_once text stats)) (type_counter stats) = Some c ->
  line_total (get_all_lines text size h_offset (rw rect)) <= INT_MAX ->
  exists tg' st' r',
    draw_typewriter text font_atlas rect target stats size callback
                    h_offset v_offset r
    = (Some (tg', st'), r')
    /\ (get_current_line (get_all_lines text size h_offset (rw rect))
                         (type_counter stats) <> -1 ->
        0 < type_counter stats ->
        get_current_line (get_all_lines text size h_offset (rw rect))
                         (type_counter stats)
        <> get_current_line (get_all_lines text size h_offset (rw rect))
                            (type_counter stats - 1) ->
        current_x st' = cursor_after font_atlas size h_offset c (rx rect))
    /\ (get_current_line (get_all_lines text size h_offset (rw rect))
                         (type_counter stats) <> -1 ->
        ~ (0 < type_counter stats
           /\ get_current_line (get_all_lines text size h_offset (rw rect))
                               (type_counter stats)
              <> get_current_line (get_all_lines text size h_offset (rw rect))
                                  (type_counter stats - 1)) ->
        current_x st' = cursor_after font_atlas size h_offset c (current_x stats))
    /\ (get_current_line (get_all_lines text size h_offset (rw rect))
                         (type_counter stats) = -1 ->
        current_x st' = cursor_after font_atlas size h_offset c (current_x stats)).
Proof.
  intros Hrev Htime Hint Hat Hmax.
  set (lines := get_all_lines text size h_offset (rw rect)) in *.
  destruct (decode_once_fields text stats) as (Etc & Ex & Et & Ed & El & Ett).
  destruct (line_advanced_differs lines (type_counter stats) Hmax Hint)
    as [Hfound Hnone].
  assert (Hrun : exists tg' st' r',
             draw_typewriter text font_atlas rect target stats size callback
                             h_offset v_offset r
             = (Some (tg', st'), r')
             /\ current_x st'
                = cursor_after font_atlas size h_offset c
                    (if line_advanced lines (type_counter stats)
                     then rx rect else current_x stats)).
  { unfold draw_typewriter. fold lines. rewrite Hrev, Ed, Et, Htime, Etc.
    assert (Hvec : forall b : bool,
               vector_at (utf8_text (if b then set_current_x (decode_once text stats) (rx rect)
                                     else decode_once text stats))
                         (type_counter (if b then set_current_x (decode_once text stats) (rx rect)
                                        else decode_once text stats)) = Some c).
    { intros []; cbn; now rewrite ?Etc. }
    rewrite Hvec. unfold cursor_after.
    destruct (no_glyph font_atlas c).
    - unfold bind. rewrite present_run. unfold ret.
      do 3 eexists. split; [ reflexivity | ].
      destruct (line_advanced lines (type_counter stats)); cbn; now rewrite ?Ex.
    - unfold bind.
      destruct (draw_utf8_text _ _ _ _ _ _ _ _ r) as [drawn r1].
      destruct (_ && callback); cbn; do 3 eexists;
        (split; [ reflexivity | ]);
        destruct (line_advanced lines (type_counter stats)); cbn;
        now rewrite ?Ex. }
  destruct Hrun as (tg' & st' & r' & Erun & Ecur).
  exists tg', st', r'. split; [ exact Erun | ].
  repeat split.
  - intros Hf Hpos Hdiff.
    rewrite (proj2 (Hfound Hf) (conj Hpos Hdiff)) in Ecur. exact Ecur.
  - intros Hf Hsame.
    destruct (line_advanced lines (type_counter stats)) eqn:Eadv;
      [ | exact Ecur ].
    exfalso. apply Hsame. now apply (Hfound Hf).
  - intros Hn. rewrite (Hnone Hn) in Ecur. exact Ecur.
Qed.

(** ** The completion callback *)

Lemma callback_count_app (u v : list sdl_call) :
  callback_count (u ++ v) = (callback_count u + callback_count v)%nat.
Proof. unfold callback_count. now rewrite filter_app, length_app. Qed.

Lemma quiet_ret {A} (a : A) : quiet (ret a).
Proof. intros r. reflexivity. Qed.

Lemma quiet_bind {A B} (m : SDL A) (k : A -> SDL B) :
  quiet m -> (forall a, quiet (k a)) -> quiet (bind m k).
Proof.
  intros Hm Hk r. unfold bind.
  specialize (Hm r). destruct (m r) as [a r1]. cbn in Hm.
  now rewrite (Hk a r1).
Qed.

Lemma quiet_issue (c : sdl_call) : c <> Callback -> quiet (issue c).
Proof.
  intros Hc r. unfold issue. cbn [snd calls]. rewrite callback_count_app.
  destruct c; try congruence; cbn; lia.
Qed.

Lemma quiet_create : quiet SDL_CreateTexture.
Proof.
  intros r. unfold SDL_CreateTexture. cbn [snd calls].
  rewrite callback_count_app. cbn. lia.
Qed.

Lemma quiet_set_target (t : option SDL_Texture) : quiet (SDL_SetRenderTarget t).
Proof.
  intros r. unfold SDL_SetRenderTarget. cbn [snd calls].
  rewrite callback_count_app. cbn. lia.
Qed.

Lemma quiet_get_target : quiet SDL_GetRenderTarget.
Proof. intros r. reflexivity. Qed.

Lemma quiet_clear : quiet SDL_RenderClear.
Proof. intros r. apply quiet_issue. discriminate. Qed.

Lemma quiet_copy (src : option SDL_Texture) (sr dr : option SDL_Rect) :
  quiet (SDL_RenderCopy src sr dr).
Proof. intros r. apply quiet_issue. discriminate. Qed.

Ltac quiet_steps :=
  repeat first
    [ apply quiet_ret
    | apply quiet_create
    | apply quiet_set_target
    | apply quiet_get_target
    | apply quiet_clear
    | apply quiet_copy
    | apply quiet_issue; discriminate
    | apply quiet_bind; [ | intros ? ]
    | match goal with
      | |- quiet (match ?x with _ => _ end) => destruct x
      end ].

Lemma quiet_present (target : CombinedTexture) : quiet (present target).
Proof. unfold present. quiet_steps. Qed.

Lemma quiet_ensure_texture (target : option CombinedTexture) :
  quiet (ensure_texture target).
Proof.
  unfold ensure_texture, SDL_SetTextureBlendMode, SDL_SetRenderDrawColor.
  quiet_steps.
Qed.

Lemma quiet_draw_code_point (font_atlas : FontAtlas) (y size h_offset : Z)
    (target : option CombinedTexture) (color : SDL_Color) (x c : Z) :
  quiet (draw_code_point font_atlas y size h_offset target color x c).
Proof.
  unfold draw_code_point, SDL_SetTextureBlendMode, SDL_SetRenderDrawColor,
    SDL_SetTextureColorMod, SDL_DestroyTexture.
  destruct (c =? 32); [ | destruct (negb _) ];
    quiet_steps; apply quiet_present.
Qed.

Lemma quiet_draw_code_points (font_atlas : FontAtlas) (y size h_offset : Z)
    (target : option CombinedTexture) (color : SDL_Color)
    (utf8_text : list Z) :
  forall x,
    quiet (draw_code_points font_atlas y size h_offset target color x utf8_text).
Proof.
  induction utf8_text as [| c rest IH]; intros x; cbn [draw_code_points].
  - apply quiet_ret.
  - apply quiet_bind; [ apply quiet_draw_code_point | intros x'; apply IH ].
Qed.

Lemma quiet_draw_utf8_text (utf8_text : list Z) (font_atlas : FontAtlas)
    (x y size h_offset : Z) (target : option CombinedTexture)
    (color : SDL_Color) :
  quiet (draw_utf8_text utf8_text font_atlas x y size h_offset target color).
Proof.
  unfold draw_utf8_text.
  apply quiet_bind; [ apply quiet_ensure_texture | intros tg ].
  assert (Hbody : quiet (draw_code_points font_atlas y size h_offset tg color
                                          x utf8_text ;; finish tg)).
  { apply quiet_bind; [ apply quiet_draw_code_points | intros _ ].
    unfold finish. quiet_steps. }
  destruct tg as [[[|] t] |]; try exact Hbody.
  apply quiet_bind; [ apply quiet_present | intros _; apply quiet_ret ].
Qed.

Lemma e_acute_decoded :
  get_utf8_char_vector (remove_new_lines e_acute) = [0xC3A9].
Proof. reflexivity. Qed.

Lemma e_acute_length : string_length (remove_new_lines e_acute) = 2.
Proof. reflexivity. Qed.

(** One tick on the text [e_acute], from any state a run can be in: decoded
    or not yet, the code point revealed or not yet. *)
Lemma tick_e_acute (font_atlas : FontAtlas) (rect : SDL_Rect)
    (target : CombinedTexture) (stats : TypeStats) (size h_offset v_offset : Z)
    (r : SDL_Renderer) :
  (utf8_text stats = [] /\ type_counter stats = 0)
  \/ (utf8_text stats = [0xC3A9]
      /\ (type_counter stats = 0 \/ type_counter stats = 1)) ->
  exists tg' st' r',
    draw_typewriter e_acute font_atlas rect target stats size true
                    h_offset v_offset r
    = (Some (tg', st'), r')
    /\ callback_count (calls r') = callback_count (calls r)
    /\ utf8_text st' = [0xC3A9]
    /\ duration st' = duration stats
    /\ type_counter st'
       = (if (type_counter stats =? 1) || (duration stats <? timer stats)%float
          then 1 else 0).
Proof.
  intros Hinv.
  assert (Hdec : utf8_text (decode_once e_acute stats) = [0xC3A9]).
  { unfold decode_once.
    destruct Hinv as [[Hu _] | [Hu _]]; rewrite Hu; cbn [length Z.of_nat Z.eqb];
      [ cbn [utf8_text]; apply e_acute_decoded | exact Hu ]. }
  destruct (decode_once_fields e_acute stats) as (Etc & Ex & Et & Ed & El & Ett).
  assert (Htc : type_counter stats = 0 \/ type_counter stats = 1)
    by (destruct Hinv as [[_ H] | [_ H]]; auto).
  unfold draw_typewriter, reveal_complete.
  rewrite Hdec, Etc, Ed, Et, e_acute_length.
  set (lines := get_all_lines e_acute size h_offset (rw rect)).
  destruct Htc as [Htc | Htc]; rewrite Htc;
    change (size_t 1 >? size_t (Z.of_nat (length [0xC3A9]) - 1)) with true;
    change (size_t 0 >? size_t (Z.of_nat (length [0xC3A9]) - 1)) with false;
    cbv iota.
  - change (0 =? 1) with false. cbn [orb].
    destruct (duration stats <? timer stats)%float eqn:Htime.
    + set (stats1 := if line_advanced lines 0
                     then set_current_x (decode_once e_acute stats) (rx rect)
                     else decode_once e_acute stats).
      assert (H1 : utf8_text stats1 = [0xC3A9] /\ type_counter stats1 = 0
                   /\ duration stats1 = duration stats).
      { unfold stats1. destruct (line_advanced lines 0); cbn;
          rewrite ?Hdec, ?Etc, ?Ed, ?Htc; auto. }
      destruct H1 as (U1 & T1 & D1). rewrite U1, T1.
      change (vector_at [0xC3A9] 0) with (Some 0xC3A9). cbv beta iota.
      destruct (no_glyph font_atlas 0xC3A9).
      * cbv beta iota. unfold bind. rewrite present_run. unfold ret.
        do 3 eexists. split; [ reflexivity | ].
        cbn [calls utf8_text duration type_counter increment_counter].
        rewrite callback_count_app, ?U1, ?T1, ?D1.
        repeat split; try reflexivity.
        unfold presentation, callback_count.
        destruct (render_target r); cbn; lia.
      * cbv beta iota. unfold bind.
        pose proof (quiet_draw_utf8_text [0xC3A9] font_atlas (current_x stats1)
                      (int32 (ry rect
                              + int32 (get_current_line lines 0
                                       * Z.quot (int32 (size * v_offset)) 100)))
                      size h_offset
                      (Some (mk_combined false (texture target))) white r)
          as Hq.
        destruct (draw_utf8_text _ _ _ _ _ _ _ _ r) as [drawn r1].
        cbn [snd] in Hq. cbn [type_counter]. rewrite ?T1.
        change (size_t (int32 (0 + 1)) >? size_t (2 - 1)) with false.
        cbn [andb]. unfold ret.
        do 3 eexists. split; [ reflexivity | ].
        cbn [utf8_text duration type_counter].
        rewrite ?U1, ?D1, ?T1. repeat split; auto.
    + cbv beta iota. unfold bind. rewrite present_run. unfold ret.
      do 3 eexists. split; [ reflexivity | ].
      cbn [calls]. rewrite callback_count_app, Hdec, Ed, Etc.
      repeat split; auto.
      unfold presentation, callback_count.
      destruct (render_target r); cbn; lia.
  - change (1 =? 1) with true. cbn [orb].
    cbv beta iota. unfold bind. rewrite present_run. unfold ret.
    do 3 eexists. split; [ reflexivity | ].
    cbn [calls]. rewrite callback_count_app, Hdec, Ed, Etc.
    repeat split; auto.
    unfold presentation, callback_count.
    destruct (render_target r); cbn; lia.
Qed.

Lemma ticks_e_acute (font_atlas : FontAtlas) (rect : SDL_Rect)
    (size h_offset v_offset : Z) (timers : list float) :
  forall (target : CombinedTexture) (stats : TypeStats) (r : SDL_Renderer),
    (utf8_text stats = [] /\ type_counter stats = 0)
    \/ (utf8_text stats = [0xC3A9]
        /\ (type_counter stats = 0 \/ type_counter stats = 1)) ->
    exists tg' st' r',
      typewriter_ticks e_acute font_atlas rect size true h_offset v_offset
                       timers target stats r
      = (Some (tg', st'), r')
      /\ callback_count (calls r') = callback_count (calls r)
      /\ type_counter st'
         = (if (type_counter stats =? 1)
               || existsb (fun t => (duration stats <? t)%float) timers
            then 1 else 0).
Proof.
  induction timers as [| t rest IH]; intros target stats r Hinv.
  - exists target, stats, r. cbn. repeat split.
    rewrite orb_false_r.
    destruct Hinv as [[_ H] | [_ [H | H]]]; rewrite H; reflexivity.
  - cbn [typewriter_ticks existsb].
    set (stats0 := mk_stats _ _ _ _ _ t _).
    assert (Hinv0 : (utf8_text stats0 = [] /\ type_counter stats0 = 0)
                    \/ (utf8_text stats0 = [0xC3A9]
                        /\ (type_counter stats0 = 0 \/ type_counter stats0 = 1)))
      by exact Hinv.
    destruct (tick_e_acute font_atlas rect target stats0 size h_offset v_offset
                           r Hinv0)
      as (tg1 & st1 & r1 & E1 & C1 & U1 & D1 & T1).
    unfold bind. rewrite E1.
    assert (Hinv1 : (utf8_text st1 = [] /\ type_counter st1 = 0)
                    \/ (utf8_text st1 = [0xC3A9]
                        /\ (type_counter st1 = 0 \/ type_counter st1 = 1))).
    { right. split; [ exact U1 | ]. rewrite T1.
      destruct (_ || _); auto. }
    destruct (IH tg1 st1 r1 Hinv1) as (tg2 & st2 & r2 & E2 & C2 & T2).
    exists tg2, st2, r2. split; [ exact E2 | ]. split; [ congruence | ].
    rewrite T2, T1, D1. unfold stats0. cbn [type_counter duration timer].
    destruct (type_counter stats =? 1); cbn [orb]; [ reflexivity | ].
    destruct (duration stats <? t)%float; reflexivity.
Qed.

(** C1 (the defect, evaluated).  The typewriter run over the text [U+00E9]
    (two bytes, one code point), from a fresh [TypeStats] and with a callback
    supplied: whatever the atlas, the rectangle, the sizes, the cache and the
    timer values of the ticks, the run succeeds, its one code point is
    revealed as soon as a tick finds the timer past the duration
    ([type_counter] ends at 1), and the callback has not been invoked by any
    tick.  The callback test compares [type_counter] with the byte length of
    the text, which the count of code points never exceeds here. *)
Theorem callback_missed_on_two_byte_text (font_atlas : FontAtlas)
    (rect : SDL_Rect) (size h_offset v_offset : Z) (timers : list float)
    (target : CombinedTexture) (lines : list (list ascii)) (tmp : list ascii)
    (x : Z) (t d : float) (r : SDL_Renderer) :
  exists tg' st' r',
    typewriter_ticks e_acute font_atlas rect size true h_offset v_offset
                     timers target (mk_stats lines tmp [] 0 x t d) r
    = (Some (tg', st'), r')
    /\ type_counter st'
       = (if existsb (fun t' => (d <? t')%float) timers then 1 else 0)
    /\ callback_count (calls r') = callback_count (calls r).
Proof.
  destruct (ticks_e_acute font_atlas rect size h_offset v_offset timers target
                          (mk_stats lines tmp [] 0 x t d) r)
    as (tg' & st' & r' & E & C & T).
  { left. split; reflexivity. }
  exists tg', st', r'. repeat split; auto.
Qed.

(** * Further properties of the header *)

(** ** The decoder on longer sequences and on malformed input *)

Lemma decode_byte_pushes_at_most_one (c : ascii) (rest : list ascii)
    (st : decoder) :
  (length (converted (decode_byte c rest st)) <= S (length (converted st)))%nat.
Proof.
  unfold decode_byte, decode_start, decode_cont, push_back.
  repeat match goal with
         | |- context [if ?b then _ else _] => destruct b
         end;
    cbn [converted]; rewrite ?length_app; cbn [length]; lia.
Qed.

Lemma decode_loop_length (text : list ascii) :
  forall st,
    (length (converted (decode_loop text st))
     <= length (converted st) + length text)%nat.
Proof.
  induction text as [| c rest IH]; intros st; cbn [decode_loop length].
  - lia.
  - specialize (IH (decode_byte c rest st)).
    pose proof (decode_byte_pushes_at_most_one c rest st). lia.
Qed.

Lemma until_nul_length (s : list ascii) :
  (length (until_nul s) <= length s)%nat.
Proof.
  induction s as [| c rest IH]; cbn; [ lia | ].
  destruct (is_nul c); cbn; lia.
Qed.

Lemma decoded_length_bounds (text : list ascii) :
  Z.of_nat (length (get_utf8_char_vector text)) <= strlen text
  /\ strlen text <= string_length text.
Proof.
  unfold get_utf8_char_vector, strlen, string_length.
  pose proof (decode_loop_length (until_nul text)
                (mk_decoder [] 0 0 indeterminate_mask)) as H.
  pose proof (until_nul_length text).
  cbn [converted length] in H. lia.
Qed.

(** X1.  Whatever the bytes, the decoder never yields more code points than
    the C string has bytes before its terminator. *)
Theorem get_utf8_char_vector_length (text : list ascii) :
  Z.of_nat (length (get_utf8_char_vector text)) <= strlen text
  /\ strlen text <= string_length text.
Proof. exact (decoded_length_bounds text). Qed.

(** *** Packed bytes *)

Lemma land_shifted_low (a b k : Z) :
  0 <= k -> 0 <= b < 2 ^ k -> Z.land (a * 2 ^ k) b = 0.
Proof.
  intros Hk Hb. apply Z.bits_inj'. intros n Hn.
  rewrite Z.land_spec, Z.bits_0.
  destruct (Z.lt_ge_cases n k) as [Hlt | Hge].
  - now rewrite Z.mul_pow2_bits_low.
  - destruct (Z.eq_dec b 0) as [-> | Hb0].
    + now rewrite Z.bits_0, andb_false_r.
    + rewrite (Z.bits_above_log2 b n); [ apply andb_false_r | lia | ].
      apply Z.log2_lt_pow2; [ lia | ].
      apply Z.lt_le_trans with (2 ^ k); [ lia | ].
      apply Z.pow_le_mono_r; lia.
Qed.

Lemma add_disjoint_lor (a b : Z) : Z.land a b = 0 -> a + b = Z.lor a b.
Proof.
  intros H. rewrite Z.add_nocarry_lxor by exact H. now apply Z.lxor_lor.
Qed.

Lemma land_top_byte (x : Z) : 0 <= x < 2 ^ 24 -> Z.land 0xff000000 x = 0.
Proof.
  intros Hx. change 0xff000000 with (255 * 2 ^ 24).
  apply land_shifted_low; lia.
Qed.

(** Two values that carry the sign bits [0xff000000] and disjoint payloads
    below them: their [lor] carries the sum of the payloads. *)
Lemma lor_packed (x y : Z) :
  0 <= x < 2 ^ 24 -> 0 <= y < 2 ^ 24 -> Z.land x y = 0 ->
  Z.lor (0xff000000 + x) (0xff000000 + y) = 0xff000000 + (x + y).
Proof.
  intros Hx Hy Hxy.
  rewrite (add_disjoint_lor _ x (land_top_byte x Hx)).
  rewrite (add_disjoint_lor _ y (land_top_byte y Hy)).
  rewrite (add_disjoint_lor x y Hxy).
  rewrite (add_disjoint_lor 0xff000000 (Z.lor x y)).
  - apply Z.bits_inj'. intros n _. rewrite !Z.lor_spec.
    destruct (Z.testbit 0xff000000 n), (Z.testbit x n), (Z.testbit y n);
      reflexivity.
  - rewrite Z.land_lor_distr_r, (land_top_byte x Hx), (land_top_byte y Hy).
    reflexivity.
Qed.

Lemma lxor_top_byte (x : Z) :
  0 <= x < 2 ^ 24 -> Z.lxor (0xff000000 + x) 0xff000000 = x.
Proof.
  intros Hx.
  rewrite (Z.add_nocarry_lxor _ x (land_top_byte x Hx)).
  apply Z.bits_inj'. intros n _. rewrite !Z.lxor_spec.
  destruct (Z.testbit 0xff000000 n), (Z.testbit x n); reflexivity.
Qed.

Lemma byte_value_range (c : ascii) : 0 <= byte_value c < 256.
Proof. unfold byte_value. pose proof (N_ascii_bounded c). lia. Qed.

Lemma continuation_lanes (c : ascii) :
  is_utf_cont c = true ->
  is_nul c = false /\ is_utf8_start c = false
  /\ Z.land (uint32 (Z.shiftl (char_to_int c) 0)) 0xff0000ff
     = 0xff000000 + byte_value c
  /\ Z.land (uint32 (Z.shiftl (char_to_int c) 8)) 0xff00ffff
     = 0xff000000 + byte_value c * 256
  /\ Z.land (uint32 (Z.shiftl (char_to_int c) 16)) 0xffffffff
     = 0xff000000 + byte_value c * 65536.
Proof.
  destruct c as [b0 b1 b2 b3 b4 b5 b6 b7].
  destruct b6, b7; try (destruct b0, b1, b2, b3, b4, b5; discriminate).
  intros _.
  destruct b0, b1, b2, b3, b4, b5; repeat split; reflexivity.
Qed.

(** A continuation byte met with [current_offset = 0]: the last lane. *)
Lemma decode_cont_lane0 (c : ascii) (rest : list ascii)
    (cv : list Z) (t m : Z) :
  is_utf_cont c = true ->
  decode_byte c rest (mk_decoder cv t 0 m)
  = if closes rest
    then mk_decoder (cv ++ [Z.lxor (Z.lor t (0xff000000 + byte_value c)) m])
                    (Z.lxor (Z.lor t (0xff000000 + byte_value c)) m) 255 m
    else mk_decoder cv (Z.lor t (0xff000000 + byte_value c)) 255 m.
Proof.
  intros Hc. destruct (continuation_lanes c Hc) as (_ & Hs & H0 & _ & _).
  unfold decode_byte. rewrite Hs, Hc. unfold decode_cont, closes, push_back.
  cbn [converted temp_char current_offset mask].
  change (0 * 8) with 0. change (0 =? 0) with true.
  change (0 =? 1) with false. change (0 =? 2) with false.
  change (uint8 (0 - 1)) with 255. cbv iota. rewrite H0. reflexivity.
Qed.

(** With [current_offset = 1]: the middle lane. *)
Lemma decode_cont_lane1 (c : ascii) (rest : list ascii)
    (cv : list Z) (t m : Z) :
  is_utf_cont c = true ->
  decode_byte c rest (mk_decoder cv t 1 m)
  = if closes rest
    then mk_decoder (cv ++ [Z.lxor (Z.lor t (0xff000000 + byte_value c * 256)) m])
                    (Z.lxor (Z.lor t (0xff000000 + byte_value c * 256)) m) 0 m
    else mk_decoder cv (Z.lor t (0xff000000 + byte_value c * 256)) 0 m.
Proof.
  intros Hc. destruct (continuation_lanes c Hc) as (_ & Hs & _ & H1 & _).
  unfold decode_byte. rewrite Hs, Hc. unfold decode_cont, closes, push_back.
  cbn [converted temp_char current_offset mask].
  change (1 * 8) with 8. change (1 =? 0) with false.
  change (1 =? 1) with true. change (1 =? 2) with false.
  change (uint8 (1 - 1)) with 0. cbv iota. rewrite H1. reflexivity.
Qed.

(** With [current_offset = 2]: the upper lane. *)
Lemma decode_cont_lane2 (c : ascii) (rest : list ascii)
    (cv : list Z) (t m : Z) :
  is_utf_cont c = true ->
  decode_byte c rest (mk_decoder cv t 2 m)
  = if closes rest
    then mk_decoder (cv ++ [Z.lxor (Z.lor t (0xff000000 + byte_value c * 65536)) m])
                    (Z.lxor (Z.lor t (0xff000000 + byte_value c * 65536)) m) 1 m
    else mk_decoder cv (Z.lor t (0xff000000 + byte_value c * 65536)) 1 m.
Proof.
  intros Hc. destruct (continuation_lanes c Hc) as (_ & Hs & _ & _ & H2).
  unfold decode_byte. rewrite Hs, Hc. unfold decode_cont, closes, push_back.
  cbn [converted temp_char current_offset mask].
  change (2 * 8) with 16. change (2 =? 0) with false.
  change (2 =? 1) with false. change (2 =? 2) with true.
  change (uint8 (2 - 1)) with 1. cbv iota. rewrite H2. reflexivity.
Qed.

Lemma three_byte_lead (c : ascii) (rest : list ascii) (st : decoder) :
  Z.land (char_to_int c) 0xF0 = 0xE0 ->
  is_nul c = false
  /\ decode_byte c rest st
     = mk_decoder (converted st) (0xff000000 + byte_value c * 65536)
                  1 0xff000000.
Proof.
  destruct c as [b0 b1 b2 b3 b4 b5 b6 b7].
  destruct b4, b5, b6, b7; try (destruct b0, b1, b2, b3; discriminate).
  intros _.
  destruct b0, b1, b2, b3; split; reflexivity.
Qed.

Lemma four_byte_lead (c : ascii) (rest : list ascii) (st : decoder) :
  Z.land (char_to_int c) 0xF8 = 0xF0 ->
  is_nul c = false
  /\ decode_byte c rest st
     = mk_decoder (converted st) (byte_value c * 16777216) 2 0
  /\ Z.lor (byte_value c * 16777216) 0xff000000 = 0xff000000.
Proof.
  destruct c as [b0 b1 b2 b3 b4 b5 b6 b7].
  destruct b3, b4, b5, b6, b7; try (destruct b0, b1, b2; discriminate).
  intros _.
  destruct b0, b1, b2; repeat split; reflexivity.
Qed.

Lemma two_byte_start (c : ascii) (rest : list ascii) (st : decoder) :
  Z.land (char_to_int c) 0xE0 = 0xC0 ->
  is_nul c = false /\ is_utf_cont c = false
  /\ decode_byte c rest st
     = mk_decoder (converted st) (0xffff0000 + byte_value c * 256)
                  0 0xffff0000.
Proof.
  destruct c as [b0 b1 b2 b3 b4 b5 b6 b7].
  destruct b5, b6, b7; try (destruct b0, b1, b2, b3, b4; discriminate).
  intros _.
  destruct b0, b1, b2, b3, b4; repeat split; reflexivity.
Qed.

(** *** One sequence in front of more text

    Each lemma runs the loop over one sequence from any state of the locals,
    the text going on with [rest]; [closes rest] says that [rest] does not
    begin with a continuation byte. *)

Lemma decode_loop_one_byte (c : ascii) (rest : list ascii) (st : decoder) :
  is_ascii c = true ->
  decode_loop (c :: rest) st
  = decode_loop rest
      (mk_decoder (converted st ++ [byte_value c])
                  (temp_char st) (current_offset st) (mask st)).
Proof.
  intros Hc. destruct (ascii_plain c Hc) as (Hs & Hk & Hv).
  cbn [decode_loop]. unfold decode_byte. now rewrite Hs, Hk, Hv.
Qed.

Lemma decode_loop_two_bytes (lead c1 : ascii) (rest : list ascii)
    (st : decoder) :
  Z.land (char_to_int lead) 0xE0 = 0xC0 -> is_utf_cont c1 = true ->
  closes rest = true ->
  exists t,
    decode_loop (lead :: c1 :: rest) st
    = decode_loop rest
        (mk_decoder (converted st
                     ++ [byte_value lead * 256 + byte_value c1])
                    t 255 0xffff0000).
Proof.
  intros Hlead H1 Hrest.
  destruct (two_byte_start lead (c1 :: rest) st Hlead) as (_ & _ & EL).
  cbn [decode_loop]. rewrite EL.
  rewrite (decode_cont_lane0 c1 rest _ _ _ H1), Hrest.
  pose proof (two_byte_value lead c1 Hlead H1) as V.
  rewrite Z.lor_0_l in V. rewrite V. eexists. reflexivity.
Qed.

Lemma decode_loop_three_bytes (lead c1 c2 : ascii) (rest : list ascii)
    (st : decoder) :
  Z.land (char_to_int lead) 0xF0 = 0xE0 ->
  is_utf_cont c1 = true -> is_utf_cont c2 = true ->
  closes rest = true ->
  exists t,
    decode_loop (lead :: c1 :: c2 :: rest) st
    = decode_loop rest
        (mk_decoder (converted st
                     ++ [byte_value lead * 65536 + byte_value c1 * 256
                         + byte_value c2])
                    t 255 0xff000000).
Proof.
  intros Hlead H1 H2 Hrest.
  pose proof (byte_value_range lead) as RL.
  pose proof (byte_value_range c1) as R1.
  pose proof (byte_value_range c2) as R2.
  cbn [decode_loop].
  rewrite (proj2 (three_byte_lead lead (c1 :: c2 :: rest) st Hlead)).
  rewrite (decode_cont_lane1 c1 (c2 :: rest) _ _ _ H1). unfold closes at 1.
  rewrite H2. cbn [negb].
  rewrite (decode_cont_lane0 c2 rest _ _ _ H2), Hrest.
  rewrite lor_packed; try lia.
  2:{ change 65536 with (2 ^ 16). apply land_shifted_low; lia. }
  rewrite lor_packed; try lia.
  2:{ replace (byte_value lead * 65536 + byte_value c1 * 256)
        with ((byte_value lead * 256 + byte_value c1) * 2 ^ 8) by lia.
      apply land_shifted_low; lia. }
  rewrite lxor_top_byte by lia.
  rewrite ?Z.add_assoc. eexists. reflexivity.
Qed.

Lemma decode_loop_four_bytes (lead c1 c2 c3 : ascii) (rest : list ascii)
    (st : decoder) :
  Z.land (char_to_int lead) 0xF8 = 0xF0 ->
  is_utf_cont c1 = true -> is_utf_cont c2 = true -> is_utf_cont c3 = true ->
  closes rest = true ->
  exists t,
    decode_loop (lead :: c1 :: c2 :: c3 :: rest) st
    = decode_loop rest
        (mk_decoder (converted st
                     ++ [0xff000000 + byte_value c1 * 65536
                         + byte_value c2 * 256 + byte_value c3])
                    t 255 0).
Proof.
  intros Hlead H1 H2 H3 Hrest.
  pose proof (byte_value_range c1) as R1.
  pose proof (byte_value_range c2) as R2.
  pose proof (byte_value_range c3) as R3.
  destruct (four_byte_lead lead (c1 :: c2 :: c3 :: rest) st Hlead)
    as (_ & EL & TL).
  cbn [decode_loop]. rewrite EL.
  rewrite (decode_cont_lane2 c1 (c2 :: c3 :: rest) _ _ _ H1).
  unfold closes at 1. rewrite H2. cbn [negb].
  rewrite (decode_cont_lane1 c2 (c3 :: rest) _ _ _ H2). unfold closes at 1.
  rewrite H3. cbn [negb].
  rewrite (decode_cont_lane0 c3 rest _ _ _ H3), Hrest.
  assert (E1 : Z.lor (byte_value lead * 16777216)
                     (0xff000000 + byte_value c1 * 65536)
               = 0xff000000 + byte_value c1 * 65536).
  { rewrite (add_disjoint_lor 0xff000000 (byte_value c1 * 65536))
      by (apply land_top_byte; lia).
    now rewrite Z.lor_assoc, TL. }
  rewrite E1.
  rewrite lor_packed; try lia.
  2:{ change 65536 with (2 ^ 16). apply land_shifted_low; lia. }
  rewrite lor_packed; try lia.
  2:{ replace (byte_value c1 * 65536 + byte_value c2 * 256)
        with ((byte_value c1 * 256 + byte_value c2) * 2 ^ 8) by lia.
      apply land_shifted_low; lia. }
  rewrite Z.lxor_0_r, ?Z.add_assoc. eexists. reflexivity.
Qed.

(** X2.  A string made of one 3-byte sequence (a lead byte [1110xxxx] and
    two continuation bytes) decodes to exactly one code point: the three
    bytes packed as [lead * 65536 + c1 * 256 + c2]. *)
Theorem get_utf8_char_vector_three_byte (lead c1 c2 : ascii) :
  Z.land (char_to_int lead) 0xF0 = 0xE0 ->
  is_utf_cont c1 = true -> is_utf_cont c2 = true ->
  get_utf8_char_vector [lead; c1; c2]
  = [byte_value lead * 65536 + byte_value c1 * 256 + byte_value c2].
Proof.
  intros Hlead H1 H2.
  destruct (continuation_lanes c1 H1) as (N1 & _).
  destruct (continuation_lanes c2 H2) as (N2 & _).
  unfold get_utf8_char_vector. cbn [until_nul].
  rewrite (proj1 (three_byte_lead lead [] (mk_decoder [] 0 0 0) Hlead)), N1, N2.
  destruct (decode_loop_three_bytes lead c1 c2 []
              (mk_decoder [] 0 0 indeterminate_mask) Hlead H1 H2 eq_refl)
    as (t & E).
  rewrite E. reflexivity.
Qed.

(** X3.  A string made of one 4-byte sequence (a lead byte [11110xxx] and
    three continuation bytes) decodes to exactly one code point, and the lead
    byte does not reach it: the sign bits of the first continuation byte fill
    the top lane, so the value is [0xff000000 + c1 * 65536 + c2 * 256 + c3]
    whatever the lead.  Two 4-byte characters that differ only in the lead
    byte get the same code point. *)
Theorem get_utf8_char_vector_four_byte (lead c1 c2 c3 : ascii) :
  Z.land (char_to_int lead) 0xF8 = 0xF0 ->
  is_utf_cont c1 = true -> is_utf_cont c2 = true -> is_utf_cont c3 = true ->
  get_utf8_char_vector [lead; c1; c2; c3]
  = [0xff000000 + byte_value c1 * 65536 + byte_value c2 * 256 + byte_value c3].
Proof.
  intros Hlead H1 H2 H3.
  destruct (continuation_lanes c1 H1) as (N1 & _).
  destruct (continuation_lanes c2 H2) as (N2 & _).
  destruct (continuation_lanes c3 H3) as (N3 & _).
  unfold get_utf8_char_vector. cbn [until_nul].
  rewrite (proj1 (four_byte_lead lead [] (mk_decoder [] 0 0 0) Hlead)),
    N1, N2, N3.
  destruct (decode_loop_four_bytes lead c1 c2 c3 []
              (mk_decoder [] 0 0 indeterminate_mask) Hlead H1 H2 H3 eq_refl)
    as (t & E).
  rewrite E. reflexivity.
Qed.

(** X4.  A string made of one continuation byte alone, with no start byte
    before it, is not rejected: it decodes to one code point, and that code
    point is the byte (under the sign bits [0xff000000]) XORed with [mask],
    which nothing has initialised at that point.  The value therefore
    depends on what the uninitialised local happens to hold. *)
Theorem get_utf8_char_vector_orphan_continuation (c : ascii) :
  is_utf_cont c = true ->
  get_utf8_char_vector [c]
  = [Z.lxor (0xff000000 + byte_value c) indeterminate_mask].
Proof.
  intros Hc. destruct (continuation_lanes c Hc) as (N & _).
  unfold get_utf8_char_vector. cbn [until_nul]. rewrite N.
  cbn [decode_loop].
  rewrite (decode_cont_lane0 c [] _ _ _ Hc). cbn [closes converted app].
  now rewrite Z.lor_0_l.
Qed.

(** *** Well-formed text *)

Lemma ascii_not_cont (c : ascii) : is_ascii c = true -> is_utf_cont c = false.
Proof. intros H. now destruct (ascii_plain c H) as (_ & Hk & _). Qed.

Lemma lead_not_cont (c : ascii) :
  is_utf8_start c = true -> is_utf_cont c = false.
Proof.
  destruct c as [b0 b1 b2 b3 b4 b5 b6 b7].
  destruct b0, b1, b2, b3, b4, b5, b6, b7; intros H;
    try reflexivity; discriminate.
Qed.

Lemma lead_not_nul (c : ascii) : is_utf8_start c = true -> is_nul c = false.
Proof.
  destruct c as [b0 b1 b2 b3 b4 b5 b6 b7].
  destruct b0, b1, b2, b3, b4, b5, b6, b7; intros H;
    try reflexivity; discriminate.
Qed.

Lemma lead_patterns (c : ascii) :
  Z.land (char_to_int c) 0xE0 = 0xC0
  \/ Z.land (char_to_int c) 0xF0 = 0xE0
  \/ Z.land (char_to_int c) 0xF8 = 0xF0 ->
  is_utf8_start c = true /\ is_nul c = false.
Proof.
  intros H.
  assert (Hs : is_utf8_start c = true).
  { unfold is_utf8_start.
    destruct H as [H | [H | H]]; rewrite H; cbn; rewrite ?orb_true_r;
      reflexivity. }
  split; [ exact Hs | exact (lead_not_nul c Hs) ].
Qed.

(** A well-formed sequence starts with a byte that is no continuation byte
    and holds no NUL. *)
Lemma encoded_char_bytes (bytes : list ascii) (v : Z) :
  encoded_char bytes v ->
  (forall rest, closes (bytes ++ rest) = true)
  /\ (forall rest, until_nul (bytes ++ rest) = bytes ++ until_nul rest).
Proof.
  intros H. destruct H as [c Ha Hn | lead c1 Hl H1 | lead c1 c2 Hl H1 H2
                          | lead c1 c2 c3 Hl H1 H2 H3].
  - split; intros rest; cbn.
    + now rewrite (ascii_not_cont c Ha).
    + now rewrite Hn.
  - destruct (lead_patterns lead (or_introl Hl)) as [Hs Hn].
    destruct (continuation_lanes c1 H1) as (N1 & _).
    split; intros rest; cbn.
    + now rewrite (lead_not_cont lead Hs).
    + now rewrite Hn, N1.
  - destruct (lead_patterns lead (or_intror (or_introl Hl))) as [Hs Hn].
    destruct (continuation_lanes c1 H1) as (N1 & _).
    destruct (continuation_lanes c2 H2) as (N2 & _).
    split; intros rest; cbn.
    + now rewrite (lead_not_cont lead Hs).
    + now rewrite Hn, N1, N2.
  - destruct (lead_patterns lead (or_intror (or_intror Hl))) as [Hs Hn].
    destruct (continuation_lanes c1 H1) as (N1 & _).
    destruct (continuation_lanes c2 H2) as (N2 & _).
    destruct (continuation_lanes c3 H3) as (N3 & _).
    split; intros rest; cbn.
    + now rewrite (lead_not_cont lead Hs).
    + now rewrite Hn, N1, N2, N3.
Qed.

Lemma encoded_text_closes (text : list ascii) (cps : list Z) :
  encoded_text text cps -> closes text = true.
Proof.
  intros H. destruct H as [| bytes v text cps Hc _]; [ reflexivity | ].
  apply (proj1 (encoded_char_bytes bytes v Hc)).
Qed.

Lemma encoded_text_until_nul (text : list ascii) (cps : list Z) :
  encoded_text text cps -> until_nul text = text.
Proof.
  induction 1 as [| bytes v text cps Hc _ IH]; [ reflexivity | ].
  rewrite (proj2 (encoded_char_bytes bytes v Hc)). now rewrite IH.
Qed.

Lemma decode_loop_encoded_char (bytes : list ascii) (v : Z) :
  encoded_char bytes v ->
  forall rest st,
    closes rest = true ->
    exists st',
      decode_loop (bytes ++ rest) st = decode_loop rest st'
      /\ converted st' = converted st ++ [v].
Proof.
  intros H rest st Hrest.
  destruct H as [c Ha Hn | lead c1 Hl H1 | lead c1 c2 Hl H1 H2
                | lead c1 c2 c3 Hl H1 H2 H3]; cbn [app].
  - rewrite (decode_loop_one_byte c rest st Ha). eexists. split; reflexivity.
  - destruct (decode_loop_two_bytes lead c1 rest st Hl H1 Hrest) as (t & E).
    rewrite E. eexists. split; reflexivity.
  - destruct (decode_loop_three_bytes lead c1 c2 rest st Hl H1 H2 Hrest)
      as (t & E).
    rewrite E. eexists. split; reflexivity.
  - destruct (decode_loop_four_bytes lead c1 c2 c3 rest st Hl H1 H2 H3 Hrest)
      as (t & E).
    rewrite E. eexists. split; reflexivity.
Qed.

Lemma decode_loop_encoded_text (text : list ascii) (cps : list Z) :
  encoded_text text cps ->
  forall st, converted (decode_loop text st) = converted st ++ cps.
Proof.
  induction 1 as [| bytes v text cps Hc Ht IH]; intros st.
  - cbn. now rewrite app_nil_r.
  - destruct (decode_loop_encoded_char bytes v Hc text st
                (encoded_text_closes text cps Ht)) as (st' & E & C).
    rewrite E, IH, C, <- app_assoc. reflexivity.
Qed.

(** X5.  On a text made of well-formed sequences only (non-NUL ASCII bytes
    and 2-, 3- and 4-byte sequences, in any mix) the decoder yields exactly
    one code point per sequence, in the order of the text: the byte itself
    for ASCII, the packed bytes for 2 and 3 bytes, and the three
    continuation bytes under [0xff] for 4 bytes.  The uninitialised [mask]
    does not enter the result. *)
Theorem get_utf8_char_vector_encoded_text (text : list ascii) (cps : list Z) :
  encoded_text text cps ->
  get_utf8_char_vector text = cps.
Proof.
  intros H. unfold get_utf8_char_vector.
  rewrite (encoded_text_until_nul text cps H).
  now rewrite (decode_loop_encoded_text text cps H).
Qed.

(** X6.  A start byte that ends the text, its continuation bytes missing,
    is dropped without a trace: a non-NUL ASCII text followed by one start
    byte decodes to the code points of the ASCII text alone. *)
Theorem get_utf8_char_vector_truncated (text : list ascii) (lead : ascii) :
  forallb (fun c => is_ascii c && negb (is_nul c)) text = true ->
  is_utf8_start lead = true ->
  get_utf8_char_vector (text ++ [lead]) = map byte_value text.
Proof.
  intros Htext Hlead.
  assert (Hdec : forall st,
             converted (decode_loop (text ++ [lead]) st)
             = converted st ++ map byte_value text).
  { induction text as [| c rest IH]; intros st.
    - cbn. unfold decode_byte. rewrite Hlead. unfold decode_start.
      repeat match goal with
             | |- context [if ?b then _ else _] => destruct b
             end; cbn; now rewrite app_nil_r.
    - cbn [forallb] in Htext.
      apply andb_true_iff in Htext as [Hc Hrest].
      apply andb_true_iff in Hc as [Ha _].
      cbn [app]. rewrite (decode_loop_one_byte c (rest ++ [lead]) st Ha).
      rewrite (IH Hrest). cbn [converted map]. now rewrite <- app_assoc. }
  assert (Hnul : until_nul (text ++ [lead]) = text ++ [lead]).
  { pose proof (lead_not_nul lead Hlead) as Hl.
    clear Hdec. induction text as [| c rest IH]; cbn.
    - now rewrite Hl.
    - cbn [forallb] in Htext.
      apply andb_true_iff in Htext as [Hc Hrest].
      apply andb_true_iff in Hc as [_ Hn]. apply negb_true_iff in Hn.
      now rewrite Hn, (IH Hrest). }
  unfold get_utf8_char_vector. rewrite Hnul, Hdec. reflexivity.
Qed.

(** ** The glyph index *)

Lemma char_index_loop_spec (v : list Z) (character : Z) :
  forall i,
    (char_index_loop v character i = -1 /\ ~ In character v)
    \/ (exists k : nat,
           char_index_loop v character i = i + Z.of_nat k
           /\ nth_error v k = Some character
           /\ forall j : nat, (j < k)%nat -> nth_error v j <> Some character).
Proof.
  induction v as [| a rest IH]; intros i; cbn [char_index_loop].
  - left. split; [ reflexivity | intros [] ].
  - destruct (Z.eqb_spec a character) as [-> | Hne].
    + right. exists O. repeat split; [ lia | intros j Hj; lia ].
    + destruct (IH (i + 1)) as [[E Hnot] | (k & E & Hk & Hfirst)].
      * left. split; [ exact E | ]. intros [H | H]; [ congruence | tauto ].
      * right. exists (S k). repeat split; [ lia | exact Hk | ].
        intros [| j] Hj; cbn; [ congruence | apply Hfirst; lia ].
Qed.

(** X7.  [get_char_index] returns [-1] exactly when the character is not
    among the decoded characters of the atlas; otherwise it returns the
    position of the first occurrence of the character, a valid index into
    the decoded atlas. *)
Theorem get_char_index_first_occurrence (character : Z) (atlas : list ascii) :
  (get_char_index character atlas = -1
   /\ ~ In character (get_utf8_char_vector atlas))
  \/ (exists k : nat,
         get_char_index character atlas = Z.of_nat k
         /\ (k < length (get_utf8_char_vector atlas))%nat
         /\ nth_error (get_utf8_char_vector atlas) k = Some character
         /\ forall j : nat,
              (j < k)%nat ->
              nth_error (get_utf8_char_vector atlas) j <> Some character).
Proof.
  unfold get_char_index.
  destruct (char_index_loop_spec (get_utf8_char_vector atlas) character 0)
    as [H | (k & E & Hk & Hfirst)]; [ now left | right ].
  exists k. repeat split; auto.
  apply nth_error_Some. congruence.
Qed.

(** X8.  For an atlas cut into cells of positive size, with at least one
    cell per row, and an index below the number of cells (all sizes within
    [int]), the rectangle of [get_atlas_rect_by_index] is a cell of the grid
    that lies inside the atlas, and the index is recovered from it as
    [(y / cell_height) * cells_per_row + x / cell_width]: different indices
    get different cells. *)
Theorem get_atlas_rect_by_index_cell
    (index atlas_width atlas_height cell_width cell_height : Z) :
  0 < cell_width <= atlas_width -> 0 < cell_height ->
  atlas_width <= INT_MAX -> atlas_height <= INT_MAX ->
  0 <= index < (atlas_width / cell_width) * (atlas_height / cell_height) ->
  0 <= rx (get_atlas_rect_by_index index atlas_width atlas_height
                                   cell_width cell_height)
  /\ rx (get_atlas_rect_by_index index atlas_width atlas_height
                                 cell_width cell_height)
     + rw (get_atlas_rect_by_index index atlas_width atlas_height
                                   cell_width cell_height) <= atlas_width
  /\ 0 <= ry (get_atlas_rect_by_index index atlas_width atlas_height
                                      cell_width cell_height)
  /\ ry (get_atlas_rect_by_index index atlas_width atlas_height
                                 cell_width cell_height)
     + rh (get_atlas_rect_by_index index atlas_width atlas_height
                                   cell_width cell_height) <= atlas_height
  /\ ry (get_atlas_rect_by_index index atlas_width atlas_height
                                 cell_width cell_height) / cell_height
     * (atlas_width / cell_width)
     + rx (get_atlas_rect_by_index index atlas_width atlas_height
                                   cell_width cell_height) / cell_width
     = index.
Proof.
  intros Hcw Hch Haw Hah Hindex.
  unfold get_atlas_rect_by_index. cbn [rx ry rw rh].
  rewrite (Z.quot_div_nonneg atlas_width cell_width) by lia.
  set (cpr := atlas_width / cell_width) in *.
  set (rows := atlas_height / cell_height) in *.
  assert (Hcpr : 1 <= cpr).
  { unfold cpr. apply Z.div_le_lower_bound; lia. }
  assert (Hcprw : cpr * cell_width <= atlas_width).
  { unfold cpr. rewrite Z.mul_comm. apply Z.mul_div_le. lia. }
  assert (Hrows : 0 < rows) by nia.
  assert (Hrowsh : rows * cell_height <= atlas_height).
  { unfold rows. rewrite Z.mul_comm. apply Z.mul_div_le. lia. }
  rewrite (Z.quot_div_nonneg index cpr) by lia.
  rewrite (Z.rem_mod_nonneg index cpr) by lia.
  pose proof (Z.mod_pos_bound index cpr ltac:(lia)) as Hcol.
  pose proof (Z.div_mod index cpr ltac:(lia)) as Hdm.
  assert (Hrow : 0 <= index / cpr < rows).
  { split; [ apply Z.div_pos; lia | ].
    apply Z.div_lt_upper_bound; lia. }
  set (row := index / cpr) in *. set (col := index mod cpr) in *.
  assert (Hx : 0 <= col * cell_width /\ col * cell_width + cell_width <= atlas_width)
    by nia.
  assert (Hy : 0 <= row * cell_height /\ row * cell_height + cell_height <= atlas_height)
    by nia.
  rewrite !int32_small by (unfold INT_MAX in *; lia).
  rewrite !Z.div_mul by lia. lia.
Qed.

(** ** Newlines and lines *)

Lemma newline_free_filter (s : list ascii) :
  newline_free s -> filter not_newline s = s.
Proof.
  unfold newline_free. induction s as [| c rest IH]; cbn; [ reflexivity | ].
  intros H. apply andb_true_iff in H as [Hc Hrest].
  now rewrite Hc, (IH Hrest).
Qed.

Lemma filter_newline_free (s : list ascii) :
  newline_free (filter not_newline s).
Proof.
  unfold newline_free. induction s as [| c rest IH]; cbn; [ reflexivity | ].
  destruct (not_newline c) eqn:Hc; cbn; [ now rewrite Hc | exact IH ].
Qed.

(** X9.  [remove_new_lines] terminates with every newline byte removed and
    every other byte kept, in order; a string without newline comes back
    unchanged, so the function is idempotent. *)
Theorem remove_new_lines_removes_all (input_string : list ascii) :
  remove_new_lines input_string = filter not_newline input_string
  /\ find_newline (remove_new_lines input_string) = None
  /\ remove_new_lines (remove_new_lines input_string)
     = remove_new_lines input_string.
Proof.
  rewrite !remove_new_lines_filter.
  pose proof (filter_newline_free input_string) as Hfree.
  split; [ reflexivity | ]. split.
  - revert Hfree. generalize (filter not_newline input_string).
    unfold newline_free. induction l as [| c rest IH]; cbn; [ reflexivity | ].
    intros H. apply andb_true_iff in H as [Hc Hrest].
    unfold not_newline in Hc. apply negb_true_iff in Hc.
    now rewrite Hc, (IH Hrest).
  - now apply newline_free_filter.
Qed.

Lemma getline_loop_lines (iss : list ascii) :
  forall line,
    newline_free line ->
    concat (getline_loop iss line) = line ++ filter not_newline iss
    /\ Forall newline_free (getline_loop iss line)
    /\ (length (getline_loop iss line)
        <= S (length (filter is_newline iss)))%nat.
Proof.
  induction iss as [| c rest IH]; intros line Hline; cbn [getline_loop filter].
  - destruct line as [| a l].
    + cbn. auto.
    + rewrite remove_new_lines_filter, (newline_free_filter _ Hline).
      cbn [concat length]. rewrite !app_nil_r. repeat split; auto.
  - unfold not_newline at 1. destruct (is_newline c) eqn:Hc; cbn [negb].
    + destruct (IH [] eq_refl) as (E & F & L).
      rewrite remove_new_lines_filter, (newline_free_filter _ Hline).
      cbn [concat length]. rewrite E. repeat split; auto. lia.
    + assert (Hline' : newline_free (line ++ [c])).
      { unfold newline_free in *. rewrite forallb_app, Hline. cbn.
        unfold not_newline. now rewrite Hc. }
      destruct (IH (line ++ [c]) Hline') as (E & F & L).
      rewrite E, <- app_assoc. repeat split; auto.
Qed.

Lemma is_newline_spec (c : ascii) : is_newline c = Ascii.eqb c newline.
Proof.
  destruct c as [[] [] [] [] [] [] [] []]; reflexivity.
Qed.

Lemma newline_free_In (l : list ascii) : newline_free l <-> ~ In newline l.
Proof.
  unfold newline_free. induction l as [| c rest IH]; cbn [forallb In].
  - split; [ intros _ [] | reflexivity ].
  - unfold not_newline at 1. rewrite is_newline_spec, andb_true_iff, IH.
    destruct (Ascii.eqb_spec c newline) as [-> | Hc]; cbn [negb].
    + split; [ intros [H _]; discriminate | intros H; exfalso; apply H; now left ].
    + split.
      * intros [_ H] [E | E]; [ congruence | contradiction ].
      * intros H. split; [ reflexivity | ]. intros E. apply H. now right.
Qed.

Lemma Forall_newline_free (lines : list (list ascii)) :
  Forall newline_free lines <-> Forall (fun l => ~ In newline l) lines.
Proof.
  split; intros H; eapply Forall_impl; try exact H;
    intros l; apply newline_free_In.
Qed.

Lemma last_app_nonempty (u v : list ascii) (d : ascii) :
  v <> [] -> last (u ++ v) d = last v d.
Proof.
  intros Hv. induction u as [| c u IH]; [ reflexivity | ].
  cbn [app last]. destruct (u ++ v) eqn:E; [ | exact IH ].
  apply app_eq_nil in E as [_ E]. congruence.
Qed.

Lemma closed_app (u v : list ascii) : v <> [] -> closed (u ++ v) = u ++ closed v.
Proof.
  intros Hv. unfold closed. rewrite (last_app_nonempty u v newline Hv).
  destruct (Ascii.eqb (last v newline) newline); [ reflexivity | ].
  now rewrite app_assoc.
Qed.

Lemma closed_at_newline (u rest : list ascii) :
  closed (u ++ newline :: rest) = u ++ newline :: closed rest.
Proof.
  rewrite closed_app by discriminate. f_equal.
  destruct rest as [| c rest]; [ reflexivity | ].
  apply (closed_app [newline] (c :: rest)). discriminate.
Qed.

Lemma closed_line (line : list ascii) :
  line <> [] -> ~ In newline line -> closed line = line ++ [newline].
Proof.
  intros Hne Hfree. unfold closed.
  destruct (Ascii.eqb_spec (last line newline) newline) as [E | _];
    [ | reflexivity ].
  exfalso. apply Hfree. rewrite <- E at 1.
  destruct (exists_last Hne) as (l & a & ->).
  rewrite last_last. apply in_or_app. right. now left.
Qed.

(** The [std::getline] loop ends a line at every newline and nowhere else. *)
Lemma getline_loop_cuts (iss : list ascii) :
  forall line,
    newline_free line ->
    terminated (getline_loop iss line) = closed (line ++ iss).
Proof.
  induction iss as [| c rest IH]; intros line Hline; cbn [getline_loop].
  - rewrite app_nil_r. destruct line as [| a l]; [ reflexivity | ].
    rewrite remove_new_lines_filter, (newline_free_filter _ Hline).
    unfold terminated. cbn [flat_map]. rewrite app_nil_r.
    symmetry. apply closed_line; [ discriminate | now apply newline_free_In ].
  - rewrite is_newline_spec.
    destruct (Ascii.eqb_spec c newline) as [-> | Hc].
    + rewrite remove_new_lines_filter, (newline_free_filter _ Hline).
      unfold terminated. cbn [flat_map]. fold (terminated (getline_loop rest [])).
      rewrite (IH [] eq_refl), closed_at_newline, <- app_assoc. reflexivity.
    + assert (Hline' : newline_free (line ++ [c])).
      { apply newline_free_In. intros Hin. apply in_app_or in Hin as [Hin | Hin].
        - now apply newline_free_In in Hline.
        - destruct Hin as [E | []]. congruence. }
      rewrite (IH (line ++ [c]) Hline'), <- app_assoc. reflexivity.
Qed.

(** A text is cut at its first newline in one way only. *)
Lemma first_newline_unique (u v x y : list ascii) :
  ~ In newline u -> ~ In newline v ->
  u ++ newline :: x = v ++ newline :: y -> u = v /\ x = y.
Proof.
  revert v. induction u as [| a u IH]; intros [| b v] Hu Hv E; cbn in E.
  - injection E as ->. auto.
  - injection E as <- _. exfalso. apply Hv. now left.
  - injection E as -> _. exfalso. apply Hu. now left.
  - injection E as -> E.
    destruct (IH v) as [-> ->]; auto; intros H; [ apply Hu | apply Hv ]; now right.
Qed.

Lemma terminated_unique (l1 : list (list ascii)) :
  forall l2,
    Forall (fun l => ~ In newline l) l1 ->
    Forall (fun l => ~ In newline l) l2 ->
    terminated l1 = terminated l2 -> l1 = l2.
Proof.
  unfold terminated.
  induction l1 as [| a l1 IH]; intros [| b l2] H1 H2 E; cbn [flat_map] in E.
  - reflexivity.
  - destruct b; discriminate.
  - destruct a; discriminate.
  - inversion H1 as [| ? ? Ha H1']; inversion H2 as [| ? ? Hb H2']; subst.
    rewrite <- !app_assoc in E. cbn [app] in E.
    destruct (first_newline_unique _ _ _ _ Ha Hb E) as [-> E'].
    now rewrite (IH l2 H1' H2' E').
Qed.

(** The lines of a text: the one list of pieces without newline that, each
    followed by a newline, spell the text. *)
Lemma split_string_by_newline_cuts (input_string : list ascii)
    (lines : list (list ascii)) :
  lines = split_string_by_newline input_string
  <-> Forall (fun l => ~ In newline l) lines
      /\ terminated lines = closed input_string.
Proof.
  unfold split_string_by_newline.
  pose proof (getline_loop_lines input_string [] eq_refl) as (_ & F & _).
  apply Forall_newline_free in F.
  pose proof (getline_loop_cuts input_string [] eq_refl) as T.
  cbn [app] in T. split.
  - intros ->. now split.
  - intros [Hfree Hterm]. apply terminated_unique; auto. congruence.
Qed.

(** X10.  [split_string_by_newline] cuts the input at its newline bytes and
    nowhere else: its result is the one list of pieces without newline that,
    each followed by a newline, spell the input (the input with a final
    newline supplied if it does not end in one; the empty input has no
    line).  So a newline that ends the input opens no further line, an empty
    piece before any other newline is a line, and no byte but the newlines
    is lost: the lines put end to end are [remove_new_lines] of the input. *)
Theorem split_string_by_newline_lines (input_string : list ascii) :
  (forall lines : list (list ascii),
      lines = split_string_by_newline input_string
      <-> Forall (fun l => ~ In newline l) lines
          /\ terminated lines = closed input_string)
  /\ concat (split_string_by_newline input_string)
     = remove_new_lines input_string.
Proof.
  split.
  - intros lines. apply split_string_by_newline_cuts.
  - unfold split_string_by_newline.
    destruct (getline_loop_lines input_string [] eq_refl) as (E & _ & _).
    now rewrite remove_new_lines_filter.
Qed.

(** *** Words *)

Lemma extract_words_proper (iss : list ascii) :
  forall word,
    no_space word -> Forall proper_word (extract_words iss word).
Proof.
  induction iss as [| c rest IH]; intros word Hw; cbn [extract_words].
  - destruct word; constructor; [ split; [ discriminate | exact Hw ] | constructor ].
  - destruct (isspace c) eqn:Hc.
    + destruct word as [| a w]; [ exact (IH [] eq_refl) | ].
      constructor; [ split; [ discriminate | exact Hw ] | exact (IH [] eq_refl) ].
    + apply IH. unfold no_space in *. rewrite existsb_app, Hw. cbn.
      now rewrite Hc.
Qed.

(** Reading goes through a stretch without white space by collecting it. *)
Lemma extract_words_through (w : list ascii) :
  no_space w ->
  forall iss word, extract_words (w ++ iss) word = extract_words iss (word ++ w).
Proof.
  unfold no_space. induction w as [| c w IH]; intros Hw iss word.
  - cbn. now rewrite app_nil_r.
  - cbn in Hw. apply orb_false_iff in Hw as [Hc Hw].
    cbn [app extract_words]. rewrite Hc, (IH Hw).
    now rewrite <- app_assoc.
Qed.

Lemma line_of_cons (w w2 : list ascii) (ws : list (list ascii)) :
  line_of (w :: w2 :: ws) = w ++ space :: line_of (w2 :: ws).
Proof.
  cbn [line_of fold_left].
  revert w w2. induction ws as [| w3 ws IH]; intros w w2; cbn [fold_left].
  - reflexivity.
  - rewrite (IH (w ++ space :: w2) w3), (IH w2 w3).
    now rewrite <- app_assoc.
Qed.

(** The words of a line are the words it was joined from. *)
Lemma words_of_line_of (g : list (list ascii)) :
  Forall proper_word g -> words_of (line_of g) = g.
Proof.
  unfold words_of. induction g as [| w g IH]; intros Hg; [ reflexivity | ].
  inversion Hg as [| ? ? [Hne Hns] Hrest]; subst.
  destruct g as [| w2 g].
  - cbn [line_of fold_left]. rewrite <- (app_nil_r w) at 1.
    rewrite (extract_words_through w Hns). cbn.
    destruct w; [ congruence | reflexivity ].
  - rewrite line_of_cons, (extract_words_through w Hns). cbn [app extract_words].
    change (isspace space) with true. cbv iota.
    destruct w as [| a w]; [ congruence | ].
    now rewrite (IH Hrest).
Qed.

(** One turn of the loop of [split_text_by_size], whatever the numbers. *)
Lemma place_word_regroups (ro max_length : Z)
    (groups : list (list (list ascii))) (word : list ascii) :
  Forall (fun g => g <> []) groups ->
  exists groups',
    place_word ro max_length (map line_of groups) word = map line_of groups'
    /\ concat groups' = concat groups ++ [word]
    /\ Forall (fun g => g <> []) groups'.
Proof.
  intros Hne. unfold place_word.
  destruct groups as [| g0 gs0 _] using rev_ind.
  - exists [[word]]. cbn. repeat split.
    constructor; [ discriminate | constructor ].
  - rewrite map_app. cbn [map]. rewrite rev_app_distr. cbn [rev app].
    rewrite rev_involutive.
    apply Forall_app in Hne as [Hne1 Hne2].
    inversion Hne2 as [| ? ? Hg _]; subst.
    destruct (fits (line_of g0) word ro max_length).
    + exists (gs0 ++ [g0 ++ [word]]). repeat split.
      * rewrite map_app. cbn [map]. now rewrite line_of_snoc.
      * rewrite !concat_app. cbn [concat]. now rewrite !app_nil_r, app_assoc.
      * apply Forall_app. split; [ exact Hne1 | ].
        constructor; [ | constructor ]. destruct g0; discriminate.
    + exists ((gs0 ++ [g0]) ++ [[word]]). repeat split.
      * unfold push_back. rewrite !map_app. reflexivity.
      * rewrite (concat_app (gs0 ++ [g0])). cbn [concat]. now rewrite app_nil_r.
      * apply Forall_app. split; [ apply Forall_app; now split | ].
        constructor; [ discriminate | constructor ].
Qed.

Lemma place_words_regroup (ro max_length : Z) (words : list (list ascii)) :
  forall groups,
    Forall (fun g => g <> []) groups ->
    exists groups',
      fold_left (place_word ro max_length) words (map line_of groups)
      = map line_of groups'
      /\ concat groups' = concat groups ++ words
      /\ Forall (fun g => g <> []) groups'.
Proof.
  induction words as [| word rest IH]; intros groups Hne.
  - exists groups. cbn. rewrite app_nil_r. auto.
  - cbn [fold_left].
    destruct (place_word_regroups ro max_length groups word Hne)
      as (g1 & E1 & C1 & N1).
    rewrite E1. destruct (IH g1 N1) as (g2 & E2 & C2 & N2).
    exists g2. repeat split; auto.
    rewrite C2, C1, <- app_assoc. reflexivity.
Qed.

Lemma Forall_concat_groups {A} (P : A -> Prop) (groups : list (list A)) :
  Forall P (concat groups) -> Forall (Forall P) groups.
Proof.
  induction groups as [| g gs IH]; cbn; intros H; constructor.
  - now apply Forall_app in H as [H1 _].
  - apply IH. now apply Forall_app in H as [_ H2].
Qed.

Lemma words_of_lines (groups : list (list (list ascii))) :
  Forall (Forall proper_word) groups ->
  flat_map words_of (map line_of groups) = concat groups.
Proof.
  induction groups as [| g gs IH]; intros H; [ reflexivity | ].
  inversion H as [| ? ? Hg Hgs]; subst. cbn [map flat_map concat].
  now rewrite (words_of_line_of g Hg), (IH Hgs).
Qed.

Lemma line_of_nonempty (g : list (list ascii)) :
  Forall proper_word g -> g <> [] -> line_of g <> [].
Proof.
  intros Hg Hne Hline.
  pose proof (words_of_line_of g Hg) as Hw. rewrite Hline in Hw.
  cbn in Hw. congruence.
Qed.

Lemma split_keeps_words (text : list ascii)
    (size h_offset max_length : Z) :
  flat_map words_of (split_text_by_size text size h_offset max_length)
  = words_of text
  /\ Forall (fun line => line <> [])
            (split_text_by_size text size h_offset max_length)
  /\ (words_of text = [] ->
      split_text_by_size text size h_offset max_length = []).
Proof.
  unfold split_text_by_size.
  destruct (place_words_regroup (real_offset size h_offset) max_length
              (extract_words text []) [] (Forall_nil _))
    as (groups & E & C & N).
  cbn [map concat app] in E, C. rewrite E.
  pose proof (extract_words_proper text [] eq_refl) as Hproper.
  rewrite <- C in Hproper. apply Forall_concat_groups in Hproper.
  repeat split.
  - rewrite (words_of_lines groups Hproper). exact C.
  - clear E C. induction groups as [| g gs IH]; constructor.
    + inversion N; inversion Hproper; subst. now apply line_of_nonempty.
    + inversion N; inversion Hproper; subst. now apply IH.
  - unfold words_of. intros Hnone. rewrite Hnone in C.
    destruct groups as [| g gs]; [ reflexivity | ].
    inversion N as [| ? ? Hg _]; subst. cbn in C.
    destruct g; [ congruence | discriminate ].
Qed.

(** The words of a text are those the stream extracts, and no others. *)
Lemma words_between_spaces_unique (text : list ascii)
    (words : list (list ascii)) :
  words_between_spaces text words -> words = extract_words text [].
Proof.
  induction 1 as [| c text words Hc _ IH | w text words Hne Hns Hnext _ IH].
  - reflexivity.
  - cbn [extract_words]. now rewrite Hc.
  - rewrite (extract_words_through w Hns text []). cbn [app].
    destruct Hnext as [-> | (c & t & -> & Hc)].
    + cbn [extract_words] in *. destruct w; congruence.
    + cbn [extract_words] in *. rewrite Hc in *.
      destruct w; congruence.
Qed.

Lemma white_space_no_words (text : list ascii) :
  Forall (fun c => isspace c = true) text -> extract_words text [] = [].
Proof.
  induction 1 as [| c rest Hc _ IH]; cbn [extract_words]; [ reflexivity | ].
  now rewrite Hc.
Qed.

(** The lines of [split_text_by_size] are the words the stream extracts,
    grouped. *)
Lemma split_groups (text : list ascii) (size h_offset max_length : Z) :
  exists groups,
    concat groups = extract_words text []
    /\ Forall (fun g => g <> []) groups
    /\ split_text_by_size text size h_offset max_length = map line_of groups.
Proof.
  unfold split_text_by_size.
  destruct (place_words_regroup (real_offset size h_offset) max_length
              (extract_words text []) [] (Forall_nil _))
    as (groups & E & C & N).
  exists groups. auto.
Qed.

(** X11.  Whatever [size], [h_offset] and [max_length] are (negative or
    overflowing values included), [split_text_by_size] neither loses, adds,
    reorders nor cuts a word.  The text has one list of words (its maximal
    runs of bytes that are not white space, in order), and the lines are
    these words dealt out in order into non-empty groups, the words of a
    group joined by single spaces.  No line is empty, and a text of white
    space only (or empty) gives no line at all. *)
Theorem split_text_by_size_keeps_words (text : list ascii)
    (size h_offset max_length : Z) :
  (exists words groups,
      words_between_spaces text words
      /\ (forall other, words_between_spaces text other -> other = words)
      /\ concat groups = words
      /\ Forall (fun g => g <> []) groups
      /\ split_text_by_size text size h_offset max_length
         = map line_of groups)
  /\ Forall (fun line => line <> [])
            (split_text_by_size text size h_offset max_length)
  /\ (Forall (fun c => isspace c = true) text ->
      split_text_by_size text size h_offset max_length = []).
Proof.
  split; [ | split ].
  - destruct (split_groups text size h_offset max_length) as (groups & C & N & E).
    exists (extract_words text []), groups. repeat split; auto.
    + exact (extract_words_between_spaces text [] eq_refl).
    + intros other. apply words_between_spaces_unique.
  - apply (split_keeps_words text size h_offset max_length).
  - intros Hws.
    apply (split_keeps_words text size h_offset max_length).
    unfold words_of. now apply white_space_no_words.
Qed.

Lemma newline_is_space (c : ascii) : is_newline c = true -> isspace c = true.
Proof.
  unfold is_newline, isspace. intros H. apply Z.eqb_eq in H. rewrite H.
  reflexivity.
Qed.

Lemma extract_words_at_space (u : list ascii) (c : ascii) (v : list ascii) :
  isspace c = true ->
  forall word,
    extract_words (u ++ c :: v) word
    = extract_words u word ++ extract_words v [].
Proof.
  intros Hc. induction u as [| d u IH]; intros word; cbn [app extract_words].
  - rewrite Hc. destruct word; reflexivity.
  - destruct (isspace d).
    + destruct word; rewrite IH; reflexivity.
    + apply IH.
Qed.

Lemma getline_loop_words (iss : list ascii) :
  forall line,
    newline_free line ->
    flat_map words_of (getline_loop iss line) = words_of (line ++ iss).
Proof.
  induction iss as [| c rest IH]; intros line Hline; cbn [getline_loop].
  - rewrite app_nil_r. destruct line as [| a l]; [ reflexivity | ].
    cbn [flat_map]. rewrite remove_new_lines_filter,
      (newline_free_filter _ Hline). apply app_nil_r.
  - destruct (is_newline c) eqn:Hc.
    + cbn [flat_map]. rewrite remove_new_lines_filter,
        (newline_free_filter _ Hline), (IH [] eq_refl).
      unfold words_of. cbn [app].
      now rewrite (extract_words_at_space line c rest (newline_is_space c Hc)).
    + assert (Hline' : newline_free (line ++ [c])).
      { unfold newline_free in *. rewrite forallb_app, Hline. cbn.
        unfold not_newline. now rewrite Hc. }
      rewrite (IH (line ++ [c]) Hline'), <- app_assoc. reflexivity.
Qed.

Lemma getline_loop_single (iss : list ascii) :
  newline_free iss ->
  forall line,
    newline_free line ->
    getline_loop iss line
    = match line ++ iss with
      | [] => []
      | _ :: _ => [line ++ iss]
      end.
Proof.
  unfold newline_free at 1.
  induction iss as [| c rest IH]; intros Hiss line Hline; cbn [getline_loop].
  - rewrite app_nil_r. destruct line; [ reflexivity | ].
    now rewrite remove_new_lines_filter, (newline_free_filter _ Hline).
  - cbn in Hiss. apply andb_true_iff in Hiss as [Hc Hrest].
    assert (Hc' : is_newline c = false)
      by (unfold not_newline in Hc; now apply negb_true_iff in Hc).
    rewrite Hc'.
    assert (Hline' : newline_free (line ++ [c])).
    { unfold newline_free in *. rewrite forallb_app, Hline. cbn.
      now rewrite Hc. }
    rewrite (IH Hrest (line ++ [c]) Hline'), <- app_assoc. reflexivity.
Qed.

(** The lines of [get_all_lines] are the words the stream extracts from the
    whole text, grouped. *)
Lemma get_all_lines_groups (text : list ascii) (size h_offset max_length : Z) :
  exists groups,
    concat groups = extract_words text []
    /\ Forall (fun g => g <> []) groups
    /\ get_all_lines text size h_offset max_length = map line_of groups.
Proof.
  unfold get_all_lines.
  pose proof (getline_loop_words text [] eq_refl) as Hw.
  cbn [app] in Hw. unfold words_of in Hw at 2. rewrite <- Hw.
  fold (split_string_by_newline text).
  induction (split_string_by_newline text) as [| t ts IH].
  - exists []. cbn. auto.
  - destruct IH as (gs & C & N & E).
    destruct (split_groups t size h_offset max_length) as (g & Ct & Nt & Et).
    exists (g ++ gs). cbn [flat_map]. split; [ | split ].
    + rewrite concat_app, Ct, C. reflexivity.
    + apply Forall_app. now split.
    + now rewrite map_app, Et, E.
Qed.

(** X12.  [get_all_lines] keeps the words of the text, all of them and in
    order, whatever the numeric arguments: the text has one list of words
    (its maximal runs of bytes that are not white space), and the lines are
    these words dealt out in order into non-empty groups, the words of a
    group joined by single spaces.  None of its lines is empty, so a blank
    line of the text (two newlines in a row) leaves no line behind.  Every
    newline of the text is a line break: cut the text at all its newlines,
    and the result is the lines of [split_text_by_size] of each piece, one
    piece after the other; on a text without newline it is
    [split_text_by_size] of the text. *)
Theorem get_all_lines_keeps_words (text : list ascii)
    (size h_offset max_length : Z) :
  (exists words groups,
      words_between_spaces text words
      /\ (forall other, words_between_spaces text other -> other = words)
      /\ concat groups = words
      /\ Forall (fun g => g <> []) groups
      /\ get_all_lines text size h_offset max_length = map line_of groups)
  /\ Forall (fun line => line <> [])
            (get_all_lines text size h_offset max_length)
  /\ (forall pieces,
        Forall (fun l => ~ In newline l) pieces ->
        terminated pieces = closed text ->
        get_all_lines text size h_offset max_length
        = flat_map (fun t => split_text_by_size t size h_offset max_length)
                   pieces)
  /\ (~ In newline text ->
      get_all_lines text size h_offset max_length
      = split_text_by_size text size h_offset max_length).
Proof.
  split; [ | split; [ | split ] ].
  - destruct (get_all_lines_groups text size h_offset max_length)
      as (groups & C & N & E).
    exists (extract_words text []), groups. repeat split; auto.
    + exact (extract_words_between_spaces text [] eq_refl).
    + intros other. apply words_between_spaces_unique.
  - unfold get_all_lines. apply Forall_flat_map. apply Forall_forall.
    intros t _. apply (split_keeps_words t size h_offset max_length).
  - intros pieces Hfree Hterm. unfold get_all_lines.
    now rewrite <- (proj2 (split_string_by_newline_cuts text pieces)
                          (conj Hfree Hterm)).
  - intros Hfree. apply newline_free_In in Hfree.
    unfold get_all_lines, split_string_by_newline.
    rewrite (getline_loop_single text Hfree [] eq_refl). cbn [app].
    destruct text; [ reflexivity | ]. cbn [flat_map]. apply app_nil_r.
Qed.

(** ** The line of a character, without assumption *)

Lemma current_line_loop_range (lines : list (list ascii)) :
  forall i total c,
    current_line_loop lines i total c = -1
    \/ i <= current_line_loop lines i total c < i + Z.of_nat (length lines).
Proof.
  induction lines as [| l rest IH]; intros i total c; cbn [current_line_loop].
  - now left.
  - change (length (l :: rest)) with (S (length rest)).
    destruct (_ >? c); [ right; lia | ].
    destruct (IH (i + 1)
                 (int32 (total + (Z.of_nat (length (get_utf8_char_vector l)) + 1)))
                 c) as [H | H]; [ now left | right; lia ].
Qed.

(** X13.  For every line vector and every index, negative ones and indices
    past the end included, [get_current_line] returns either [-1] or a valid
    position in the vector; on an empty vector it returns [-1]. *)
Theorem get_current_line_range (lines : list (list ascii)) (current_char : Z) :
  (get_current_line lines current_char = -1
   \/ 0 <= get_current_line lines current_char < Z.of_nat (length lines))
  /\ (lines = [] -> get_current_line lines current_char = -1).
Proof.
  split.
  - unfold get_current_line.
    destruct (current_line_loop_range lines 0 0 current_char); [ now left | right; lia ].
  - intros ->. reflexivity.
Qed.

(** ** Drawing: what reaches the renderer *)

Lemma tally_app (f : sdl_call -> bool) (u v : list sdl_call) :
  tally f (u ++ v) = tally f u + tally f v.
Proof. unfold tally. rewrite filter_app, length_app. lia. Qed.

Lemma effect_refl (r : SDL_Renderer) : effect r r 0 0 0.
Proof. unfold effect. lia. Qed.

Lemma effect_trans (r r1 r2 : SDL_Renderer) (g1 c1 d1 g2 c2 d2 : Z) :
  effect r r1 g1 c1 d1 -> effect r1 r2 g2 c2 d2 ->
  effect r r2 (g1 + g2) (c1 + c2) (d1 + d2).
Proof. unfold effect. lia. Qed.

Lemma effect_eq (r r' : SDL_Renderer) (g c d g' c' d' : Z) :
  effect r r' g c d -> g = g' -> c = c' -> d = d' -> effect r r' g' c' d'.
Proof. now intros H <- <- <-. Qed.

(** The effect of a stretch of calls appended to the log. *)
Lemma effect_appended (rt rt' : option SDL_Texture) (nt nt' : SDL_Texture)
    (cs issued : list sdl_call) :
  effect (mk_renderer rt nt cs) (mk_renderer rt' nt' (cs ++ issued))
         (tally glyph_draw issued) (tally is_create issued)
         (tally is_destroy issued).
Proof. unfold effect. cbn [calls]. now rewrite !tally_app. Qed.

Lemma present_effect (target : CombinedTexture) (r : SDL_Renderer) :
  render_target (snd (present target r)) = None
  /\ next_texture (snd (present target r)) = next_texture r
  /\ effect r (snd (present target r)) 0 0 0.
Proof.
  rewrite present_run. cbn [snd render_target next_texture].
  repeat split; destruct r as [rt nt cs]; cbn [calls]; rewrite tally_app;
    unfold presentation; destruct rt; cbn; lia.
Qed.

Lemma ensure_texture_effect (tg : CombinedTexture) (r : SDL_Renderer) :
  fst (ensure_texture (Some tg) r)
  = Some (mk_combined (finished tg) (texture_after tg r))
  /\ effect r (snd (ensure_texture (Some tg) r)) 0 (allocations tg) 0.
Proof.
  unfold ensure_texture, texture_after, allocations.
  destruct tg as [fin [t |]]; cbn [texture finished].
  - cbn. split; [ reflexivity | apply effect_refl ].
  - destruct r as [rt nt cs]. cbn. split; [ reflexivity | ].
    rewrite <- !app_assoc. cbn [app].
    eapply effect_eq; [ apply effect_appended | | | ]; reflexivity.
Qed.

(** One code point drawn on a cache: one glyph copy onto a temporary
    texture that is created for it and destroyed after it, if the code point
    is drawable; the screen is the render target afterwards. *)
Lemma draw_code_point_on_cache (font_atlas : FontAtlas) (y size h_offset : Z)
    (tg : CombinedTexture) (color : SDL_Color) (x c : Z) (r : SDL_Renderer) :
  render_target (snd (draw_code_point font_atlas y size h_offset (Some tg)
                                      color x c r)) = None
  /\ effect r (snd (draw_code_point font_atlas y size h_offset (Some tg)
                                    color x c r))
            (if drawable font_atlas c then 1 else 0)
            (if drawable font_atlas c then 1 else 0)
            (if drawable font_atlas c then 1 else 0).
Proof.
  unfold draw_code_point, drawable.
  destruct (c =? 32); cbn [negb andb].
  - unfold bind.
    pose proof (present_effect tg r) as (Hrt & _ & He).
    destruct (present tg r) as [u r1]. cbn [snd ret] in *. now split.
  - destruct (negb (get_char_index c (characters font_atlas) =? -1)).
    + destruct r as [rt nt cs]. cbn. split; [ reflexivity | ].
      rewrite <- !app_assoc. cbn [app].
      eapply effect_eq; [ apply effect_appended | | | ]; reflexivity.
    + unfold bind.
      pose proof (present_effect tg r) as (Hrt & _ & He).
      destruct (present tg r) as [u r1]. cbn [snd ret] in *. now split.
Qed.


Lemma drawable_count_cons (font_atlas : FontAtlas) (c : Z) (rest : list Z) :
  drawable_count font_atlas (c :: rest)
  = (if drawable font_atlas c then 1 else 0) + drawable_count font_atlas rest.
Proof.
  unfold drawable_count. cbn [filter].
  destruct (drawable font_atlas c); cbn [length]; lia.
Qed.

Lemma draw_code_points_on_cache (font_atlas : FontAtlas) (y size h_offset : Z)
    (tg : CombinedTexture) (color : SDL_Color) (utf8 : list Z) :
  forall x r,
    (utf8 <> [] ->
     render_target (snd (draw_code_points font_atlas y size h_offset (Some tg)
                                          color x utf8 r)) = None)
    /\ effect r (snd (draw_code_points font_atlas y size h_offset (Some tg)
                                       color x utf8 r))
              (drawable_count font_atlas utf8)
              (drawable_count font_atlas utf8)
              (drawable_count font_atlas utf8).
Proof.
  induction utf8 as [| c rest IH]; intros x r; cbn [draw_code_points].
  - split; [ congruence | apply effect_refl ].
  - unfold bind.
    pose proof (draw_code_point_on_cache font_atlas y size h_offset tg color
                                         x c r) as (Hrt & He).
    destruct (draw_code_point _ _ _ _ _ _ _ _ r) as [x1 r1]. cbn [snd] in *.
    destruct (IH x1 r1) as (Hrt2 & He2).
    rewrite drawable_count_cons. split.
    + intros _. destruct rest as [| c2 rest2]; [ exact Hrt | ].
      apply Hrt2. discriminate.
    + exact (effect_trans _ _ _ _ _ _ _ _ _ He He2).
Qed.


Lemma finish_effect (tg : CombinedTexture) (r : SDL_Renderer) :
  fst (finish (Some tg) r) = Some (mk_combined true (texture tg))
  /\ render_target (snd (finish (Some tg) r)) = None
  /\ effect r (snd (finish (Some tg) r)) 0 0 0.
Proof.
  unfold finish. destruct r as [[o |] nt cs]; cbn;
    (split; [ reflexivity | ]); (split; [ reflexivity | ]).
  - eapply effect_eq; [ apply effect_appended | | | ]; reflexivity.
  - apply effect_refl.
Qed.

Lemma draw_body_on_cache (font_atlas : FontAtlas) (x y size h_offset : Z)
    (tg : CombinedTexture) (color : SDL_Color) (utf8 : list Z)
    (r : SDL_Renderer) :
  exists r',
    draw_utf8_text utf8 font_atlas x y size h_offset (Some tg) color r
    = (Some (mk_combined true (texture_after tg r)), r')
    /\ render_target r' = None
    /\ effect r r'
         (if finished tg then 0 else drawable_count font_atlas utf8)
         (allocations tg
          + (if finished tg then 0 else drawable_count font_atlas utf8))
         (if finished tg then 0 else drawable_count font_atlas utf8).
Proof.
  unfold draw_utf8_text, bind.
  pose proof (ensure_texture_effect tg r) as (Etg & He).
  destruct (ensure_texture (Some tg) r) as [tg1 r1]. cbn [fst snd] in *.
  subst tg1. destruct (finished tg).
  - pose proof (present_effect (mk_combined true (texture_after tg r)) r1)
      as (Hrt & _ & He2).
    destruct (present _ r1) as [u r2]. cbn [snd ret] in *.
    exists r2. split; [ reflexivity | ]. split; [ exact Hrt | ].
    eapply effect_eq; [ exact (effect_trans _ _ _ _ _ _ _ _ _ He He2) | | | ];
      lia.
  - pose proof (draw_code_points_on_cache font_atlas y size h_offset
                  (mk_combined false (texture_after tg r)) color utf8 x r1)
      as (_ & He2).
    destruct (draw_code_points _ _ _ _ _ _ _ utf8 r1) as [x2 r2].
    cbn [snd] in *.
    pose proof (finish_effect (mk_combined false (texture_after tg r)) r2)
      as (Ef & Hrt & He3).
    destruct (finish _ r2) as [tg3 r3]. cbn [fst snd texture] in *. subst tg3.
    exists r3. split; [ reflexivity | ]. split; [ exact Hrt | ].
    eapply effect_eq;
      [ exact (effect_trans _ _ _ _ _ _ _ _ _
                 (effect_trans _ _ _ _ _ _ _ _ _ He He2) He3) | | | ]; lia.
Qed.

Lemma draw_text_as_utf8 (text : list ascii) (font_atlas : FontAtlas)
    (x y size h_offset : Z) (target : option CombinedTexture)
    (color : SDL_Color) (r : SDL_Renderer) :
  draw_text text font_atlas x y size h_offset target color r
  = draw_utf8_text (get_utf8_char_vector text) font_atlas x y size h_offset
                   target color r.
Proof. reflexivity. Qed.

(** *** Temporary textures *)

Lemma live_textures_app (u v : list sdl_call) :
  forall live, live_textures (u ++ v) live = live_textures v (live_textures u live).
Proof.
  induction u as [| c u IH]; intros live; [ reflexivity | ].
  destruct c as [ | | | | | | | [d |] | ]; cbn [app live_textures]; apply IH.
Qed.

Lemma glyph_targets_app (u v : list sdl_call) :
  glyph_targets (u ++ v) = glyph_targets u ++ glyph_targets v.
Proof. apply flat_map_app. Qed.

Lemma presentation_keeps_textures (r : SDL_Renderer) (target : CombinedTexture) :
  glyph_targets (presentation r target) = []
  /\ forall live, live_textures (presentation r target) live = live.
Proof. unfold presentation. destruct (render_target r); split; reflexivity. Qed.

Lemma remove_appended (n : nat) (live : list nat) :
  ~ In n live -> remove Nat.eq_dec n (live ++ [n]) = live.
Proof.
  intros Hn. rewrite remove_app, (notin_remove Nat.eq_dec live n Hn).
  cbn. destruct (Nat.eq_dec n n); [ apply app_nil_r | congruence ].
Qed.

(** One code point drawn on a cache that has its texture: a drawable code
    point takes the next handle of the renderer for a temporary texture, draws
    its glyph there, copies the temporary onto the cache and destroys it; any
    other code point touches no texture. *)
Lemma draw_code_point_temporary (font_atlas : FontAtlas) (y size h_offset : Z)
    (fin : bool) (t : SDL_Texture) (color : SDL_Color) (x c : Z)
    (r : SDL_Renderer) :
  exists x' r' issued,
    draw_code_point font_atlas y size h_offset
                    (Some (mk_combined fin (Some t))) color x c r = (x', r')
    /\ render_target r' = None
    /\ next_texture r'
       = (if drawable font_atlas c then S (next_texture r) else next_texture r)
    /\ calls r' = calls r ++ issued
    /\ glyph_targets issued
       = (if drawable font_atlas c then [Some (next_texture r)] else [])
    /\ (forall live, ~ In (next_texture r) live ->
                     live_textures issued live = live)
    /\ (drawable font_atlas c = true ->
        In (CreateTexture (next_texture r)) issued
        /\ In (RenderCopy (Some t) (Some (next_texture r)) None None) issued
        /\ In (DestroyTexture (Some (next_texture r))) issued).
Proof.
  unfold draw_code_point, drawable.
  destruct (c =? 32); cbn [negb andb].
  - unfold bind. rewrite present_run. cbn [ret].
    destruct (presentation_keeps_textures r (mk_combined fin (Some t)))
      as [G L].
    eexists _, _, _. split; [ reflexivity | ]. cbn.
    repeat split; auto; discriminate.
  - destruct (negb (get_char_index c (characters font_atlas) =? -1)).
    + destruct r as [rt nt cs]. cbn.
      rewrite <- !app_assoc. cbn [app].
      eexists _, _, _. split; [ reflexivity | ]. cbn.
      split; [ reflexivity | ]. split; [ reflexivity | ].
      split; [ reflexivity | ]. split; [ reflexivity | ]. split.
      * intros live Hn. now apply remove_appended.
      * intros _. repeat split; repeat (first [ left; reflexivity | right ]).
    + unfold bind. rewrite present_run. cbn [ret].
      destruct (presentation_keeps_textures r (mk_combined fin (Some t)))
        as [G L].
      eexists _, _, _. split; [ reflexivity | ]. cbn.
      repeat split; auto; discriminate.
Qed.

Lemma drawable_filter_cons (font_atlas : FontAtlas) (c : Z) (rest : list Z) :
  length (filter (drawable font_atlas) (c :: rest))
  = ((if drawable font_atlas c then 1 else 0)
     + length (filter (drawable font_atlas) rest))%nat.
Proof. cbn [filter]. now destruct (drawable font_atlas c). Qed.

(** The code points of a text drawn on a cache that has its texture: the
    temporaries are the next handles of the renderer, one per drawable code
    point. *)
Lemma draw_code_points_temporaries (font_atlas : FontAtlas)
    (y size h_offset : Z) (fin : bool) (t : SDL_Texture) (color : SDL_Color)
    (utf8 : list Z) :
  forall x r,
    exists x' r' issued,
      draw_code_points font_atlas y size h_offset
                       (Some (mk_combined fin (Some t))) color x utf8 r
      = (x', r')
      /\ next_texture r'
         = (next_texture r + length (filter (drawable font_atlas) utf8))%nat
      /\ calls r' = calls r ++ issued
      /\ glyph_targets issued
         = map Some (seq (next_texture r)
                         (length (filter (drawable font_atlas) utf8)))
      /\ (forall live, Forall (fun h => (h < next_texture r)%nat) live ->
                       live_textures issued live = live)
      /\ Forall (fun n =>
                   In (CreateTexture n) issued
                   /\ In (RenderCopy (Some t) (Some n) None None) issued
                   /\ In (DestroyTexture (Some n)) issued)
                (seq (next_texture r)
                     (length (filter (drawable font_atlas) utf8))).
Proof.
  induction utf8 as [| c rest IH]; intros x r; cbn [draw_code_points].
  - exists x, r, []. cbn. rewrite app_nil_r, Nat.add_0_r.
    repeat split; auto.
  - unfold bind.
    destruct (draw_code_point_temporary font_atlas y size h_offset fin t color
                                        x c r)
      as (x1 & r1 & i1 & E1 & _ & N1 & C1 & G1 & L1 & T1).
    rewrite E1.
    destruct (IH x1 r1) as (x2 & r2 & i2 & E2 & N2 & C2 & G2 & L2 & T2).
    rewrite E2. exists x2, r2, (i1 ++ i2).
    rewrite drawable_filter_cons.
    split; [ reflexivity | ].
    split; [ rewrite N2, N1; destruct (drawable font_atlas c); lia | ].
    split; [ rewrite C2, C1; now rewrite app_assoc | ].
    split; [ | split ].
    + rewrite glyph_targets_app, G1, G2, N1.
      destruct (drawable font_atlas c); reflexivity.
    + intros live Hlive. rewrite live_textures_app.
      rewrite L1.
      * apply L2. eapply Forall_impl; [ | exact Hlive ].
        intros h Hh. cbv beta in *. rewrite N1.
        destruct (drawable font_atlas c); lia.
      * intros Hin. rewrite Forall_forall in Hlive.
        specialize (Hlive _ Hin). lia.
    + rewrite N1 in T2.
      assert (T2' : Forall (fun n =>
                 In (CreateTexture n) (i1 ++ i2)
                 /\ In (RenderCopy (Some t) (Some n) None None) (i1 ++ i2)
                 /\ In (DestroyTexture (Some n)) (i1 ++ i2))
                (seq (if drawable font_atlas c then S (next_texture r)
                      else next_texture r)
                     (length (filter (drawable font_atlas) rest)))).
      { eapply Forall_impl; [ | exact T2 ].
        intros n (A & B & D). repeat split; apply in_or_app; now right. }
      destruct (drawable font_atlas c); [ | exact T2' ].
      cbn [Nat.add seq]. constructor; [ | exact T2' ].
      destruct (T1 eq_refl) as (A & B & D).
      repeat split; apply in_or_app; now left.
Qed.

(** [draw_utf8_text] on a cache draws through temporaries only. *)
Lemma draw_body_temporaries (font_atlas : FontAtlas) (x y size h_offset : Z)
    (tg : CombinedTexture) (color : SDL_Color) (utf8 : list Z)
    (r : SDL_Renderer) :
  handed_out tg r ->
  drawn_through_temporaries tg r
    (snd (draw_utf8_text utf8 font_atlas x y size h_offset (Some tg) color r))
    (if finished tg then 0 else drawable_count font_atlas utf8).
Proof.
  intros Hout. unfold drawn_through_temporaries, draw_utf8_text, bind.
  destruct tg as [fin [t |]]; cbn [finished].
  - assert (Ht : (t < next_texture r)%nat) by now apply Hout.
    cbn [ensure_texture texture ret texture_after held].
    destruct fin.
    + rewrite present_run. cbn [ret snd calls].
      destruct (presentation_keeps_textures r (mk_combined true (Some t)))
        as [G L].
      exists (presentation r (mk_combined true (Some t))), [].
      rewrite G, L. cbn. repeat split; auto. constructor.
    + destruct (draw_code_points_temporaries font_atlas y size h_offset false t
                  color utf8 x r)
        as (x1 & r1 & i1 & E1 & N1 & C1 & G1 & L1 & T1).
      rewrite E1. unfold finish, bind, SDL_GetRenderTarget. cbn [texture].
      set (k := length (filter (drawable font_atlas) utf8)) in *.
      assert (Htemps : Forall (temporary (Some t) i1) (seq (next_texture r) k)).
      { rewrite Forall_forall in *. intros n Hn. specialize (T1 n Hn).
        apply in_seq in Hn. unfold temporary.
        destruct T1 as (A & B & D). repeat split; auto.
        intros [= ->]. lia. }
      assert (Hlive : live_textures i1 [t] = [t])
        by (apply L1; constructor; [ exact Ht | constructor ]).
      destruct (render_target r1) as [o |]; cbn [ret snd calls SDL_SetRenderTarget].
      * exists (i1 ++ [SetRenderTarget None]), (seq (next_texture r) k).
        rewrite C1, <- app_assoc, glyph_targets_app, G1, live_textures_app, Hlive.
        cbn [glyph_targets flat_map live_textures app map]. rewrite app_nil_r.
        split; [ reflexivity | ]. split; [ reflexivity | ].
        split; [ now rewrite length_seq | ]. split; [ apply seq_NoDup | ].
        split; [ | reflexivity ].
        eapply Forall_impl; [ | exact Htemps ].
        intros n (A & B & D & F). repeat split; auto; apply in_or_app; now left.
      * exists i1, (seq (next_texture r) k).
        rewrite C1, G1, Hlive.
        split; [ reflexivity | ]. split; [ reflexivity | ].
        split; [ now rewrite length_seq | ]. split; [ apply seq_NoDup | ].
        split; [ exact Htemps | reflexivity ].
  - cbn [texture_after texture held].
    destruct r as [rt nt cs].
    set (alloc := [CreateTexture nt; SetRenderTarget (Some nt);
                   SetTextureBlendMode (Some nt); SetRenderDrawColor 0 0 0 0;
                   RenderClear (Some nt)]).
    assert (Ealloc : ensure_texture (Some (mk_combined fin None))
                                    (mk_renderer rt nt cs)
                     = (Some (mk_combined fin (Some nt)),
                        mk_renderer (Some nt) (S nt) (cs ++ alloc))).
    { cbn. now rewrite <- !app_assoc. }
    rewrite Ealloc. cbn [next_texture calls].
    destruct fin.
    + rewrite present_run. cbn [ret snd calls next_texture].
      set (r1 := mk_renderer (Some nt) (S nt) (cs ++ alloc)).
      destruct (presentation_keeps_textures r1 (mk_combined true (Some nt)))
        as [G L].
      exists (alloc ++ presentation r1 (mk_combined true (Some nt))), [].
      rewrite <- app_assoc, glyph_targets_app, G, live_textures_app, L.
      cbn. repeat split; auto. constructor.
    + destruct (draw_code_points_temporaries font_atlas y size h_offset false nt
                  color utf8 x (mk_renderer (Some nt) (S nt) (cs ++ alloc)))
        as (x1 & r1 & i1 & E1 & N1 & C1 & G1 & L1 & T1).
      rewrite E1. unfold finish, bind, SDL_GetRenderTarget. cbn [texture].
      cbn [next_texture calls] in *.
      set (k := length (filter (drawable font_atlas) utf8)) in *.
      assert (Htemps : Forall (temporary (Some nt) i1) (seq (S nt) k)).
      { rewrite Forall_forall in *. intros n Hn. specialize (T1 n Hn).
        apply in_seq in Hn. unfold temporary.
        destruct T1 as (A & B & D). repeat split; auto.
        intros [= ->]. lia. }
      assert (Hlive : live_textures i1 [nt] = [nt])
        by (apply L1; constructor; [ lia | constructor ]).
      destruct (render_target r1) as [o |]; cbn [ret snd calls SDL_SetRenderTarget].
      * exists (alloc ++ i1 ++ [SetRenderTarget None]), (seq (S nt) k).
        rewrite C1, <- !app_assoc, !glyph_targets_app, G1, !live_textures_app.
        change (live_textures alloc []) with [nt]. rewrite Hlive.
        change (glyph_targets alloc) with (@nil (option SDL_Texture)).
        change (glyph_targets [SetRenderTarget None])
          with (@nil (option SDL_Texture)).
        change (live_textures [SetRenderTarget None] [nt]) with [nt].
        rewrite app_nil_r. cbn [app map].
        split; [ reflexivity | ]. split; [ reflexivity | ].
        split; [ now rewrite length_seq | ]. split; [ apply seq_NoDup | ].
        split; [ | reflexivity ].
        eapply Forall_impl; [ | exact Htemps ].
        intros n (A & B & D & F).
        repeat split; auto; apply in_or_app; right; apply in_or_app; now left.
      * exists (alloc ++ i1), (seq (S nt) k).
        rewrite C1, <- !app_assoc, !glyph_targets_app, G1, !live_textures_app.
        change (live_textures alloc []) with [nt]. rewrite Hlive.
        change (glyph_targets alloc) with (@nil (option SDL_Texture)).
        cbn [app map].
        split; [ reflexivity | ]. split; [ reflexivity | ].
        split; [ now rewrite length_seq | ]. split; [ apply seq_NoDup | ].
        split; [ | reflexivity ].
        eapply Forall_impl; [ | exact Htemps ].
        intros n (A & B & D & F).
        repeat split; auto; apply in_or_app; now right.
Qed.

(** X14.  After [draw_utf8_text] or [draw_text] on a cache, whatever state
    the cache and the renderer were in: the cache is finished and holds a
    texture (its own, or one allocated by this call), and the screen is the
    render target again.  If the cache was not finished, the call has drawn
    one glyph for every code point that is not the blank and has a glyph in
    the atlas, and has created and destroyed as many textures; if it was
    finished, no glyph.  With the texture of the cache, if it has one, handed
    out by this renderer: every glyph copy of the call lands on a temporary
    texture, a different one for each glyph, which is not the texture of the
    cache and which the call creates, copies onto the cache and destroys; and
    of the textures the call finds or creates the one left alive is the
    texture of the cache. *)
Theorem draw_on_cache (utf8 : list Z) (text : list ascii)
    (font_atlas : FontAtlas) (x y size h_offset : Z)
    (tg : CombinedTexture) (color : SDL_Color) (r : SDL_Renderer) :
  (exists r',
      draw_utf8_text utf8 font_atlas x y size h_offset (Some tg) color r
      = (Some (mk_combined true (texture_after tg r)), r')
      /\ render_target r' = None
      /\ effect r r'
           (if finished tg then 0 else drawable_count font_atlas utf8)
           (allocations tg
            + (if finished tg then 0 else drawable_count font_atlas utf8))
           (if finished tg then 0 else drawable_count font_atlas utf8)
      /\ (handed_out tg r ->
          drawn_through_temporaries tg r r'
            (if finished tg then 0 else drawable_count font_atlas utf8)))
  /\ (exists r',
         draw_text text font_atlas x y size h_offset (Some tg) color r
         = (Some (mk_combined true (texture_after tg r)), r')
         /\ render_target r' = None
         /\ effect r r'
              (if finished tg then 0
               else drawable_count font_atlas (get_utf8_char_vector text))
              (allocations tg
               + (if finished tg then 0
                  else drawable_count font_atlas (get_utf8_char_vector text)))
              (if finished tg then 0
               else drawable_count font_atlas (get_utf8_char_vector text))
         /\ (handed_out tg r ->
             drawn_through_temporaries tg r r'
               (if finished tg then 0
                else drawable_count font_atlas (get_utf8_char_vector text)))).
Proof.
  assert (H : forall cps,
    exists r',
      draw_utf8_text cps font_atlas x y size h_offset (Some tg) color r
      = (Some (mk_combined true (texture_after tg r)), r')
      /\ render_target r' = None
      /\ effect r r'
           (if finished tg then 0 else drawable_count font_atlas cps)
           (allocations tg
            + (if finished tg then 0 else drawable_count font_atlas cps))
           (if finished tg then 0 else drawable_count font_atlas cps)
      /\ (handed_out tg r ->
          drawn_through_temporaries tg r r'
            (if finished tg then 0 else drawable_count font_atlas cps))).
  { intros cps.
    destruct (draw_body_on_cache font_atlas x y size h_offset tg color cps r)
      as (r' & E & Hrt & He).
    exists r'. split; [ exact E | ]. split; [ exact Hrt | ].
    split; [ exact He | ]. intros Hout.
    pose proof (draw_body_temporaries font_atlas x y size h_offset tg color
                                      cps r Hout) as T.
    now rewrite E in T. }
  split.
  - apply H.
  - rewrite draw_text_as_utf8. apply H.
Qed.



Lemma drawable_in_lines_nonneg (font_atlas : FontAtlas)
    (lines : list (list ascii)) :
  0 <= drawable_in_lines font_atlas lines.
Proof.
  induction lines as [| l rest IH]; cbn [drawable_in_lines];
    unfold drawable_count; lia.
Qed.

(** The lines after the first: the cache holds a texture by then. *)
Lemma draw_lines_allocated (font_atlas : FontAtlas) (rect : SDL_Rect)
    (size h_offset v_offset : Z) (lines : list (list ascii)) :
  forall (fin : bool) (t : SDL_Texture) (y : Z) (r : SDL_Renderer),
    exists r',
      draw_lines font_atlas rect size h_offset v_offset
                 (Some (mk_combined fin (Some t))) y lines r
      = (Some (mk_combined (match lines with [] => fin | _ :: _ => true end)
                           (Some t)), r')
      /\ (lines <> [] -> render_target r' = None)
      /\ (lines = [] -> r' = r)
      /\ effect r r' (drawable_in_lines font_atlas lines)
                (drawable_in_lines font_atlas lines)
                (drawable_in_lines font_atlas lines).
Proof.
  induction lines as [| l rest IH]; intros fin t y r; cbn [draw_lines].
  - exists r. cbn. split; [ reflexivity | ]. split; [ congruence | ].
    split; [ reflexivity | apply effect_refl ].
  - unfold bind. cbn [texture].
    destruct (draw_body_on_cache font_atlas (rx rect) y size h_offset
                (mk_combined false (Some t)) white (get_utf8_char_vector l) r)
      as (r1 & E1 & Hrt1 & He1).
    rewrite draw_text_as_utf8, E1. cbn [texture_after texture].
    destruct (IH true t
                 (int32 (y + Z.quot (int32 (size * v_offset)) 100)) r1)
      as (r2 & E2 & Hrt2 & Hsame & He2).
    rewrite E2. exists r2.
    split; [ destruct rest; reflexivity | ].
    split; [ | split; [ discriminate | ] ].
    + intros _. destruct rest as [| l2 rest2]; [ | apply Hrt2; discriminate ].
      now rewrite (Hsame eq_refl).
    + cbn [drawable_in_lines finished allocations texture] in *.
      eapply effect_eq; [ exact (effect_trans _ _ _ _ _ _ _ _ _ He1 He2) | | | ];
        lia.
Qed.

(** X16.  [draw_text_multiline] on a cache that is not finished draws every
    line, one glyph per drawable code point of every line, and leaves the
    cache finished, with a texture, and the screen as render target -
    provided there is a line.  With no line to draw (a text without a word,
    or an empty line vector) it issues no call at all, allocates nothing and
    leaves the cache unfinished: such a cache never turns into the cheap
    copy. *)
Theorem draw_text_multiline_on_cache (text : list ascii)
    (font_atlas : FontAtlas) (rect : SDL_Rect) (size h_offset v_offset : Z)
    (tex : option SDL_Texture) (c_lines : option (list (list ascii)))
    (r : SDL_Renderer) :
  exists r',
    draw_text_multiline text font_atlas rect size h_offset v_offset
                        (Some (mk_combined false tex)) c_lines r
    = (Some (match multiline_lines text rect size h_offset c_lines with
             | [] => mk_combined false tex
             | _ :: _ =>
                 mk_combined true (texture_after (mk_combined false tex) r)
             end), r')
    /\ match multiline_lines text rect size h_offset c_lines with
       | [] => r' = r
       | _ :: _ =>
           render_target r' = None
           /\ effect r r'
                (drawable_in_lines font_atlas
                   (multiline_lines text rect size h_offset c_lines))
                (allocations (mk_combined false tex)
                 + drawable_in_lines font_atlas
                     (multiline_lines text rect size h_offset c_lines))
                (drawable_in_lines font_atlas
                   (multiline_lines text rect size h_offset c_lines))
       end.
Proof.
  unfold draw_text_multiline. fold (multiline_lines text rect size h_offset c_lines).
  destruct (multiline_lines text rect size h_offset c_lines) as [| l rest].
  - exists r. split; reflexivity.
  - cbn [draw_lines]. unfold bind. cbn [texture].
    destruct (draw_body_on_cache font_atlas (rx rect) (ry rect) size h_offset
                (mk_combined false tex) white (get_utf8_char_vector l) r)
      as (r1 & E1 & Hrt1 & He1).
    rewrite draw_text_as_utf8, E1.
    assert (Htex : exists t, texture_after (mk_combined false tex) r = Some t).
    { unfold texture_after. cbn. destruct tex; eauto. }
    destruct Htex as (t & Htex). rewrite Htex.
    destruct (draw_lines_allocated font_atlas rect size h_offset v_offset rest
                true t (int32 (ry rect + Z.quot (int32 (size * v_offset)) 100))
                r1)
      as (r2 & E2 & Hrt2 & Hsame & He2).
    rewrite E2. exists r2.
    split; [ destruct rest; reflexivity | ]. split.
    + destruct rest as [| l2 rest2]; [ | apply Hrt2; discriminate ].
      now rewrite (Hsame eq_refl).
    + cbn [drawable_in_lines finished] in *.
      eapply effect_eq; [ exact (effect_trans _ _ _ _ _ _ _ _ _ He1 He2) | | | ];
        lia.
Qed.

(** ** Runs of the typewriter *)

Lemma code_points_le_bytes (text : list ascii) :
  code_points text <= byte_count text.
Proof.
  unfold code_points, byte_count, decoded_text.
  pose proof (decoded_length_bounds (remove_new_lines text)). lia.
Qed.

Lemma size_t_small (z : Z) : 0 <= z <= INT_MAX -> size_t z = z.
Proof.
  intros H. unfold size_t. apply uint32_small. unfold INT_MAX in *. lia.
Qed.

Lemma decode_once_ready (text : list ascii) (stats : TypeStats) :
  1 <= code_points text -> run_ready text stats ->
  utf8_text (decode_once text stats) = decoded_text text.
Proof.
  intros HN [[Hu | Hu] _]; unfold decode_once; rewrite Hu.
  - reflexivity.
  - unfold code_points in HN.
    destruct (Z.eqb_spec (Z.of_nat (length (decoded_text text))) 0);
      [ lia | exact Hu ].
Qed.

Lemma callback_count_presentation (r : SDL_Renderer) (target : CombinedTexture) :
  callback_count (calls r ++ presentation r target) = callback_count (calls r).
Proof.
  rewrite callback_count_app. unfold presentation, callback_count.
  destruct (render_target r); cbn; lia.
Qed.

Lemma typewriter_tick_step (text : list ascii) (font_atlas : FontAtlas)
    (rect : SDL_Rect) (target : CombinedTexture) (stats : TypeStats)
    (size : Z) (callback : bool) (h_offset v_offset : Z) (r : SDL_Renderer) :
  1 <= code_points text -> byte_count text <= INT_MAX ->
  run_ready text stats ->
  exists tg' st' r',
    draw_typewriter text font_atlas rect target stats size callback
                    h_offset v_offset r
    = (Some (tg', st'), r')
    /\ utf8_text st' = decoded_text text
    /\ duration st' = duration stats
    /\ type_counter st'
       = type_counter stats + (if reveals text stats then 1 else 0)
    /\ timer st'
       = (if reveals text stats
             && negb (no_glyph font_atlas (next_code_point text stats))
          then 0%float else timer stats)
    /\ Z.of_nat (callback_count (calls r'))
       = Z.of_nat (callback_count (calls r))
         + (if reveals text stats && callback
               && negb (no_glyph font_atlas (next_code_point text stats))
               && (byte_count text <=? type_counter stats + 1)
            then 1 else 0)
    /\ (reveals text stats = false ->
        tg' = target /\ st' = decode_once text stats
        /\ calls r' = calls r ++ presentation r target).
Proof.
  intros HN HL Hready.
  pose proof (decode_once_ready text stats HN Hready) as Hdec.
  pose proof (code_points_le_bytes text) as HNL.
  destruct Hready as [_ Htc].
  destruct (decode_once_fields text stats) as (Etc & Ex & Et & Ed & El & Ett).
  unfold draw_typewriter, reveal_complete, reveals.
  rewrite Hdec, Etc, Ed, Et. fold (byte_count text).
  fold (code_points text).
  rewrite (size_t_small (type_counter stats)) by lia.
  rewrite (size_t_small (code_points text - 1)) by lia.
  destruct (Z.ltb_spec (type_counter stats) (code_points text)) as [Hlt | Hge];
    cbn [andb].
  2:{ destruct (Z.gtb_spec (type_counter stats) (code_points text - 1));
        [ | lia ].
      unfold bind. rewrite present_run. unfold ret.
      do 3 eexists. split; [ reflexivity | ].
      cbn [calls]. rewrite callback_count_presentation, Hdec, Ed, Etc, Et.
      repeat split; auto; lia. }
  destruct (Z.gtb_spec (type_counter stats) (code_points text - 1)); [ lia | ].
  destruct (duration stats <? timer stats)%float eqn:Htime; cbn [andb].
  2:{ unfold bind. rewrite present_run. unfold ret.
      do 3 eexists. split; [ reflexivity | ].
      cbn [calls]. rewrite callback_count_presentation, Hdec, Ed, Etc, Et.
      repeat split; auto; lia. }
  set (lines := get_all_lines text size h_offset (rw rect)).
  set (stats1 := if line_advanced lines (type_counter stats)
                 then set_current_x (decode_once text stats) (rx rect)
                 else decode_once text stats).
  assert (H1 : utf8_text stats1 = decoded_text text
               /\ type_counter stats1 = type_counter stats
               /\ duration stats1 = duration stats
               /\ timer stats1 = timer stats).
  { unfold stats1. destruct (line_advanced lines (type_counter stats)); cbn;
      rewrite ?Hdec, ?Etc, ?Ed, ?Et; auto. }
  destruct H1 as (U1 & T1 & D1 & M1). rewrite U1, T1.
  assert (Hat : vector_at (decoded_text text) (type_counter stats)
                = Some (next_code_point text stats)).
  { unfold vector_at, next_code_point.
    rewrite (size_t_small (type_counter stats)) by lia.
    apply nth_error_nth'. unfold code_points in Hlt. lia. }
  rewrite Hat. cbv beta iota.
  destruct (no_glyph font_atlas (next_code_point text stats)); cbn [negb andb].
  - rewrite andb_false_r. cbn [andb].
    unfold bind. rewrite present_run. unfold ret.
    do 3 eexists. split; [ reflexivity | ].
    cbn [calls utf8_text duration type_counter timer increment_counter].
    rewrite callback_count_presentation, U1, T1, D1, M1.
    rewrite int32_small by (unfold INT_MAX in *; lia).
    repeat split; auto; try lia; discriminate.
  - rewrite andb_true_r. unfold bind.
    pose proof (quiet_draw_utf8_text [next_code_point text stats] font_atlas
                  (current_x stats1)
                  (int32 (ry rect
                          + int32 (get_current_line lines (type_counter stats)
                                   * Z.quot (int32 (size * v_offset)) 100)))
                  size h_offset
                  (Some (mk_combined false (texture target))) white r)
      as Hq.
    destruct (draw_utf8_text _ _ _ _ _ _ _ _ r) as [drawn r1].
    cbn [snd] in Hq. cbn [type_counter]. rewrite ?T1.
    rewrite (int32_small (type_counter stats + 1))
      by (unfold INT_MAX in *; lia).
    rewrite (size_t_small (type_counter stats + 1)) by lia.
    rewrite (size_t_small (byte_count text - 1)) by lia.
    assert (Htest : (type_counter stats + 1 >? byte_count text - 1)
                    = (byte_count text <=? type_counter stats + 1)).
    { destruct (Z.gtb_spec (type_counter stats + 1) (byte_count text - 1));
        destruct (Z.leb_spec (byte_count text) (type_counter stats + 1));
        try reflexivity; lia. }
    rewrite Htest.
    destruct (byte_count text <=? type_counter stats + 1);
      destruct callback; cbn [andb]; unfold ret;
      do 3 eexists; (split; [ reflexivity | ]);
      cbn [calls utf8_text duration type_counter timer snd issue];
      rewrite ?U1, ?D1, ?callback_count_app, ?Hq;
      change (callback_count [Callback]) with 1%nat;
      repeat split; auto; try discriminate; lia.
Qed.

(** X17.  One tick of [draw_typewriter] on a text with at least one code
    point (its byte length within [int]), from any state of a run.  The tick
    succeeds; the decoded text is the text's; the counter moves by one if the
    tick reveals (code points left and timer past the duration) and not at
    all otherwise; the timer is set to zero only by a reveal that draws, a
    skipped code point leaves it running; the callback, if there is one, runs
    on a reveal that draws and takes the counter past
    [tmptext.length() - 1], and on no other tick.  A tick that does not
    reveal leaves the cache and the (decoded) stats as they are and only
    presents the cache. *)
Theorem draw_typewriter_tick (text : list ascii) (font_atlas : FontAtlas)
    (rect : SDL_Rect) (target : CombinedTexture) (stats : TypeStats)
    (size : Z) (callback : bool) (h_offset v_offset : Z) (r : SDL_Renderer) :
  1 <= code_points text -> byte_count text <= INT_MAX ->
  run_ready text stats ->
  exists tg' st' r',
    draw_typewriter text font_atlas rect target stats size callback
                    h_offset v_offset r
    = (Some (tg', st'), r')
    /\ utf8_text st' = decoded_text text
    /\ duration st' = duration stats
    /\ type_counter st'
       = type_counter stats + (if reveals text stats then 1 else 0)
    /\ timer st'
       = (if reveals text stats
             && negb (no_glyph font_atlas (next_code_point text stats))
          then 0%float else timer stats)
    /\ Z.of_nat (callback_count (calls r'))
       = Z.of_nat (callback_count (calls r))
         + (if reveals text stats && callback
               && negb (no_glyph font_atlas (next_code_point text stats))
               && (byte_count text <=? type_counter stats + 1)
            then 1 else 0)
    /\ (reveals text stats = false ->
        tg' = target /\ st' = decode_once text stats
        /\ calls r' = calls r ++ presentation r target).
Proof. exact (typewriter_tick_step text font_atlas rect target stats size callback h_offset v_offset r). Qed.

Lemma nth_length_last (l : list Z) :
  forall a d, nth (length l) (a :: l) d = last (a :: l) d.
Proof.
  induction l as [| b rest IH]; intros a d; [ reflexivity | ].
  change (nth (length (b :: rest)) (a :: b :: rest) d)
    with (nth (length rest) (b :: rest) d).
  rewrite IH. reflexivity.
Qed.

Lemma nth_pred_last (l : list Z) (d : Z) :
  l <> [] -> nth (length l - 1) l d = last l d.
Proof.
  destruct l as [| a rest]; [ congruence | intros _ ].
  cbn [length]. rewrite Nat.sub_succ, Nat.sub_0_r. apply nth_length_last.
Qed.

Lemma reveal_ticks_cons (d t : float) (rest : list float) :
  reveal_ticks d (t :: rest)
  = (if (d <? t)%float then 1 else 0) + reveal_ticks d rest.
Proof.
  unfold reveal_ticks. cbn [filter].
  destruct (d <? t)%float; cbn [length]; lia.
Qed.

Lemma reveal_ticks_nonneg (d : float) (timers : list float) :
  0 <= reveal_ticks d timers.
Proof. unfold reveal_ticks. lia. Qed.

(** A run of ticks, from any state of a run. *)
Lemma typewriter_run (text : list ascii) (font_atlas : FontAtlas)
    (rect : SDL_Rect) (size : Z) (callback : bool) (h_offset v_offset : Z)
    (timers : list float) :
  1 <= code_points text -> byte_count text <= INT_MAX ->
  forall (target : CombinedTexture) (stats : TypeStats) (r : SDL_Renderer),
    run_ready text stats ->
    exists tg' st' r',
      typewriter_ticks text font_atlas rect size callback h_offset v_offset
                       timers target stats r
      = (Some (tg', st'), r')
      /\ run_ready text st'
      /\ duration st' = duration stats
      /\ type_counter st'
         = Z.min (code_points text)
                 (type_counter stats + reveal_ticks (duration stats) timers)
      /\ Z.of_nat (callback_count (calls r'))
         = Z.of_nat (callback_count (calls r))
           + (if callback
                 && (type_counter stats <? code_points text)
                 && (code_points text
                     <=? type_counter stats
                         + reveal_ticks (duration stats) timers)
                 && (byte_count text =? code_points text)
                 && negb (no_glyph font_atlas (last_code_point text))
              then 1 else 0).
Proof.
  intros HN HL.
  pose proof (code_points_le_bytes text) as HNL.
  induction timers as [| t rest IH]; intros target stats r Hready.
  - exists target, stats, r. cbn [typewriter_ticks ret].
    pose proof Hready as [_ Htc].
    change (reveal_ticks (duration stats) []) with 0.
    split; [ reflexivity | ]. split; [ exact Hready | ].
    split; [ reflexivity | ]. split; [ lia | ].
    destruct (Z.ltb_spec (type_counter stats) (code_points text));
      destruct (Z.leb_spec (code_points text) (type_counter stats + 0));
      rewrite ?andb_false_r; cbn [andb]; lia.
  - cbn [typewriter_ticks].
    set (stats0 := mk_stats _ _ _ _ _ t _).
    assert (Hready0 : run_ready text stats0) by exact Hready.
    destruct (typewriter_tick_step text font_atlas rect target stats0 size
                callback h_offset v_offset r HN HL Hready0)
      as (tg1 & st1 & r1 & E1 & U1 & D1 & T1 & _ & C1 & _).
    unfold bind. rewrite E1.
    destruct Hready0 as [_ Htc0].
    assert (Hrev : reveals text stats0
                   = (type_counter stats <? code_points text)
                     && (duration stats <? t)%float) by reflexivity.
    assert (Htc00 : type_counter stats0 = type_counter stats) by reflexivity.
    assert (Hd0 : duration stats0 = duration stats) by reflexivity.
    rewrite Hrev, Htc00 in *.
    assert (Hready1 : run_ready text st1).
    { split; [ now right | ]. rewrite T1.
      destruct (Z.ltb_spec (type_counter stats) (code_points text));
        cbn [andb]; [ destruct (duration stats <? t)%float | ]; lia. }
    destruct (IH tg1 st1 r1 Hready1) as (tg2 & st2 & r2 & E2 & R2 & D2 & T2 & C2).
    rewrite E2. exists tg2, st2, r2.
    split; [ reflexivity | ]. split; [ exact R2 | ].
    split; [ congruence | ].
    rewrite reveal_ticks_cons.
    pose proof (reveal_ticks_nonneg (duration stats) rest) as Hk.
    rewrite D1, Hd0 in *.
    set (k := reveal_ticks (duration stats) rest) in *.
    assert (Hlast : type_counter stats + 1 = code_points text ->
                    next_code_point text stats0 = last_code_point text).
    { intros Heq. unfold next_code_point, last_code_point.
      rewrite <- nth_pred_last.
      - f_equal. rewrite Htc00. unfold code_points in Heq. lia.
      - unfold code_points in HN. destruct (decoded_text text);
          [ cbn in HN; lia | discriminate ]. }
    rewrite T2, C2, C1, T1. clear E1 E2 C1 C2 T2 IH.
    destruct (Z.eq_dec (type_counter stats + 1) (code_points text))
      as [Heq | Hneq]; [ rewrite (Hlast Heq) | ];
      destruct callback;
      destruct (duration stats <? t)%float;
      destruct (no_glyph font_atlas (last_code_point text));
      try destruct (no_glyph font_atlas (next_code_point text stats0));
      repeat match goal with
             | |- context [Z.ltb ?a ?b] => destruct (Z.ltb_spec a b)
             | |- context [Z.leb ?a ?b] => destruct (Z.leb_spec a b)
             | |- context [Z.eqb ?a ?b] => destruct (Z.eqb_spec a b)
             end;
      cbn [andb negb] in *; split; lia.
Qed.

(** X18.  A run of ticks on a text with at least one code point, started
    anywhere in a run (a fresh [TypeStats] included): no tick reads past the
    decoded text, the decoded text is never replaced, and the counter ends at
    the start value plus the number of ticks that found the timer past the
    duration, capped at the number of code points.  The counter never
    decreases and never leaves the text. *)
Theorem typewriter_run_counter (text : list ascii) (font_atlas : FontAtlas)
    (rect : SDL_Rect) (size : Z) (callback : bool) (h_offset v_offset : Z)
    (timers : list float) (target : CombinedTexture) (stats : TypeStats)
    (r : SDL_Renderer) :
  1 <= code_points text -> byte_count text <= INT_MAX ->
  run_ready text stats ->
  exists tg' st' r',
    typewriter_ticks text font_atlas rect size callback h_offset v_offset
                     timers target stats r
    = (Some (tg', st'), r')
    /\ run_ready text st'
    /\ type_counter st'
       = Z.min (code_points text)
               (type_counter stats + reveal_ticks (duration stats) timers).
Proof.
  intros HN HL Hready.
  destruct (typewriter_run text font_atlas rect size callback h_offset v_offset
              timers HN HL target stats r Hready)
    as (tg' & st' & r' & E & R & _ & T & _).
  exists tg', st', r'. auto.
Qed.

(** X19.  Over such a run the callback is invoked at most once, and exactly
    once precisely when all of this holds: a callback was supplied, the run
    starts before the end of the text and reaches it, the text has as many
    bytes as code points (no multi-byte sequence, no byte after a NUL), and
    its last code point is drawn rather than skipped (it is the blank or has
    a glyph).  In every other case the callback is never invoked. *)
Theorem typewriter_run_callback (text : list ascii) (font_atlas : FontAtlas)
    (rect : SDL_Rect) (size : Z) (callback : bool) (h_offset v_offset : Z)
    (timers : list float) (target : CombinedTexture) (stats : TypeStats)
    (r : SDL_Renderer) :
  1 <= code_points text -> byte_count text <= INT_MAX ->
  run_ready text stats ->
  exists tg' st' r',
    typewriter_ticks text font_atlas rect size callback h_offset v_offset
                     timers target stats r
    = (Some (tg', st'), r')
    /\ Z.of_nat (callback_count (calls r'))
       = Z.of_nat (callback_count (calls r))
         + (if callback
               && (type_counter stats <? code_points text)
               && (code_points text
                   <=? type_counter stats
                       + reveal_ticks (duration stats) timers)
               && (byte_count text =? code_points text)
               && negb (no_glyph font_atlas (last_code_point text))
            then 1 else 0).
Proof.
  intros HN HL Hready.
  destruct (typewriter_run text font_atlas rect size callback h_offset v_offset
              timers HN HL target stats r Hready)
    as (tg' & st' & r' & E & _ & _ & _ & C).
  exists tg', st', r'. auto.
Qed.

(** X20.  On a text without code point (empty, or newlines only) a tick of
    a fresh [TypeStats] that finds the timer past the duration goes wrong:
    with the vector empty, [utf8_text.size() - 1] wraps around, the
    completion test never holds, and the tick reads [utf8_text[type_counter]]
    of an empty vector. *)
Theorem draw_typewriter_empty_text (text : list ascii) (font_atlas : FontAtlas)
    (rect : SDL_Rect) (target : CombinedTexture) (stats : TypeStats)
    (size : Z) (callback : bool) (h_offset v_offset : Z) (r : SDL_Renderer) :
  decoded_text text = [] -> utf8_text stats = [] ->
  (duration stats <? timer stats)%float = true ->
  draw_typewriter text font_atlas rect target stats size callback
                  h_offset v_offset r
  = (None, r).
Proof.
  intros Hempty Hu Htime.
  destruct (decode_once_fields text stats) as (Etc & Ex & Et & Ed & El & Ett).
  assert (Hdec : utf8_text (decode_once text stats) = []).
  { unfold decode_once. rewrite Hu. cbn. exact Hempty. }
  unfold draw_typewriter, reveal_complete.
  rewrite Hdec, Etc, Ed, Et, Htime.
  assert (Hnot : (size_t (type_counter stats)
                  >? size_t (Z.of_nat (length (@nil Z)) - 1)) = false).
  { change (size_t (Z.of_nat (length (@nil Z)) - 1)) with (2 ^ 32 - 1).
    unfold size_t, uint32.
    pose proof (Z.mod_pos_bound (type_counter stats) (2 ^ 32) ltac:(lia)).
    destruct (Z.gtb_spec (type_counter stats mod 2 ^ 32) (2 ^ 32 - 1));
      [ lia | reflexivity ]. }
  rewrite Hnot.
  destruct (line_advanced _ _); cbn [utf8_text set_current_x];
    rewrite Hdec; unfold vector_at; now rewrite nth_error_nil.
Qed.
End SimpleText.

(** * Concrete runs

    The theorems above at concrete inputs, and the inputs on which the
    statements of the specification fail.  The indeterminate first value of
    [mask] is taken to be 0; no run below reads it. *)

(** C7 at the text "abc": the code points 97, 98, 99. *)
Lemma get_utf8_char_vector_ascii_abc :
  Forall (fun c => 0 < byte_value c < 128) (str "abc")
  /\ get_utf8_char_vector 0 (str "abc") = [97; 98; 99]
  /\ length (get_utf8_char_vector 0 (str "abc")) = 3%nat.
Proof.
  assert (H : Forall (fun c => 0 < byte_value c < 128) (str "abc")).
  { repeat (constructor; [ split; reflexivity | ]). constructor. }
  split; [ exact H | ].
  destruct (get_utf8_char_vector_ascii 0 (str "abc") H) as (E & L & _).
  split; [ exact E | exact L ].
Defined.

(** C8 at the bytes [C3 A9]. *)
Lemma get_utf8_char_vector_two_byte_e_acute :
  Z.land (char_to_int (ascii_of_nat 195)) 0xE0 = 0xC0
  /\ is_utf_cont (ascii_of_nat 169) = true
  /\ get_utf8_char_vector 0 e_acute = [0xC3A9].
Proof.
  split; [ reflexivity | ]. split; [ reflexivity | ].
  apply (get_utf8_char_vector_two_byte 0 (ascii_of_nat 195) (ascii_of_nat 169));
    reflexivity.
Defined.

(** C4 at the lines "a", "b". *)
Lemma get_current_line_monotone_a_b :
  line_total 0 [str "a"; str "b"] <= INT_MAX
  /\ 0 <= get_current_line 0 [str "a"; str "b"] 1
       <= get_current_line 0 [str "a"; str "b"] 3
  /\ get_current_line 0 [str "a"; str "b"] 4 = -1.
Proof.
  assert (H : line_total 0 [str "a"; str "b"] <= INT_MAX) by (vm_compute; discriminate).
  split; [ exact H | ].
  destruct (get_current_line_monotone 0 [str "a"; str "b"] H) as [Hmono Hnone].
  split.
  - apply (Hmono 1 3); [ lia | vm_compute; reflexivity ].
  - apply (Hnone 4). vm_compute. discriminate.
Defined.

(** C4, as stated, fails on the lines "a", "b", which hold two characters:
    index 3 exceeds that count and is still found on line 1, and the result
    drops from 0 at index 0 to -1 at index 4. *)
Lemma get_current_line_found_past_the_characters :
  character_count 0 [str "a"; str "b"] = 2
  /\ get_current_line 0 [str "a"; str "b"] 3 = 1
  /\ get_current_line 0 [str "a"; str "b"] 0 = 0
  /\ get_current_line 0 [str "a"; str "b"] 4 = -1.
Proof. repeat split; reflexivity. Qed.

(** C3 at the text "hello big world", 10 pixels a character, 90 wide. *)
Lemma split_text_by_size_wraps_hello :
  0 <= 10 /\ 0 <= 0 <= 100 /\ 10 * 100 <= INT_MAX /\ 0 <= 90 <= INT_MAX
  /\ string_length (str "hello big world") * real_offset 10 0 < 2 ^ 32
  /\ exists words groups,
       words_between_spaces (str "hello big world") words
       /\ concat groups = words
       /\ Forall (fun g => g <> []) groups
       /\ split_text_by_size (str "hello big world") 10 0 90
          = map line_of groups
       /\ Forall (within_width (real_offset 10 0) 90) groups.
Proof.
  assert (H1 : 0 <= 10) by lia.
  assert (H2 : 0 <= 0 <= 100) by lia.
  assert (H3 : 10 * 100 <= INT_MAX) by (vm_compute; discriminate).
  assert (H4 : 0 <= 90 <= INT_MAX) by (split; vm_compute; discriminate).
  assert (H5 : string_length (str "hello big world") * real_offset 10 0 < 2 ^ 32)
    by (vm_compute; reflexivity).
  repeat (split; [ assumption | ]).
  exact (split_text_by_size_wraps (str "hello big world") 10 0 90 H1 H2 H3 H4 H5).
Defined.

(** C3, as stated, fails on a word wider than the line: "hello" at 10 pixels
    a character is 50 wide and is emitted as one line for a width of 20. *)
Lemma split_text_by_size_long_word :
  split_text_by_size (str "hello") 10 0 20 = [str "hello"]
  /\ string_length (str "hello") * real_offset 10 0 = 50
  /\ ~ (string_length (str "hello") * real_offset 10 0 <= 20).
Proof. repeat split; vm_compute; congruence. Qed.

(** C2 at a finished cache with texture 7.  First a
    [draw_text_multiline], a [draw_text] and a [draw_utf8_text] in a row, the
    screen being the render target; then a [draw_text] followed by a
    [draw_text_multiline] with the cached texture itself left as render
    target, which [draw_text] leaves for the screen. *)
Lemma finished_cache_is_only_presented_thrice :
  (starts_with_multiline
     [DrawTextMultiline a_b atlas_ab (rect16 100) 10 0 70 None;
      DrawText a_b atlas_ab 16 40 10 0 white;
      DrawUtf8Text [97; 98] atlas_ab 16 40 10 0 white] = true ->
   render_target renderer0 <> Some 7%nat)
  /\ (exists rt' issued,
         run_requests 0
           [DrawTextMultiline a_b atlas_ab (rect16 100) 10 0 70 None;
            DrawText a_b atlas_ab 16 40 10 0 white;
            DrawUtf8Text [97; 98] atlas_ab 16 40 10 0 white]
           (Some (mk_combined true (Some 7%nat))) renderer0
         = (Some (mk_combined true (Some 7%nat)),
            mk_renderer rt' (next_texture renderer0)
                        (calls renderer0 ++ issued))
         /\ (rt' = None \/ rt' = render_target renderer0)
         /\ Forall (fun c => presents 7%nat c = true) issued
         /\ Forall (fun c => draws_on 7%nat c = false) issued
         /\ length (filter is_copy issued) = 3%nat)
  /\ (exists rt' issued,
         run_requests 0
           [DrawText a_b atlas_ab 16 40 10 0 white;
            DrawTextMultiline a_b atlas_ab (rect16 100) 10 0 70 None]
           (Some (mk_combined true (Some 7%nat)))
           (mk_renderer (Some 7%nat) 8%nat [])
         = (Some (mk_combined true (Some 7%nat)),
            mk_renderer rt' 8%nat ([] ++ issued))
         /\ (rt' = None \/ rt' = Some 7%nat)
         /\ Forall (fun c => presents 7%nat c = true) issued
         /\ Forall (fun c => draws_on 7%nat c = false) issued
         /\ length (filter is_copy issued) = 2%nat).
Proof.
  assert (H : starts_with_multiline
                [DrawTextMultiline a_b atlas_ab (rect16 100) 10 0 70 None;
                 DrawText a_b atlas_ab 16 40 10 0 white;
                 DrawUtf8Text [97; 98] atlas_ab 16 40 10 0 white] = true ->
              render_target renderer0 <> Some 7%nat)
    by (intros _; discriminate).
  split; [ exact H | ]. split.
  - exact (finished_cache_is_only_presented 0
             [DrawTextMultiline a_b atlas_ab (rect16 100) 10 0 70 None;
              DrawText a_b atlas_ab 16 40 10 0 white;
              DrawUtf8Text [97; 98] atlas_ab 16 40 10 0 white]
             7%nat renderer0 H).
  - apply (finished_cache_is_only_presented 0
             [DrawText a_b atlas_ab 16 40 10 0 white;
              DrawTextMultiline a_b atlas_ab (rect16 100) 10 0 70 None]
             7%nat (mk_renderer (Some 7%nat) 8%nat [])).
    discriminate.
Defined.

(** C2, as stated, fails in two places.  On a cache whose flag is set while
    its texture is still null, [draw_text] allocates a texture, stores it in
    the cache and clears it before it presents it.  And with the cached
    texture 7 itself left as the render target, [draw_text_multiline] on the
    finished cache copies the texture onto itself, a draw on the cached
    surface, where [draw_text] and [draw_utf8_text] first switch to the
    screen. *)
Lemma finished_cache_not_only_presented :
  draw_text 0 a_b atlas_ab 16 40 10 0 (Some (mk_combined true None)) white
            renderer0
  = (Some (mk_combined true (Some 0%nat)),
     mk_renderer None 1%nat
       [CreateTexture 0%nat; SetRenderTarget (Some 0%nat);
        SetTextureBlendMode (Some 0%nat); SetRenderDrawColor 0 0 0 0;
        RenderClear (Some 0%nat); SetRenderTarget None;
        RenderCopy None (Some 0%nat) None None])
  /\ draw_text_multiline 0 a_b atlas_ab (rect16 100) 10 0 70 (Some cache7)
                         None (mk_renderer (Some 7%nat) 8%nat [])
     = (Some cache7,
        mk_renderer (Some 7%nat) 8%nat
          [RenderCopy (Some 7%nat) (Some 7%nat)
                      (Some (rect16 100)) (Some (rect16 100))])
  /\ draws_on 7%nat
       (RenderCopy (Some 7%nat) (Some 7%nat)
                   (Some (rect16 100)) (Some (rect16 100))) = true
  /\ draw_text 0 a_b atlas_ab 16 40 10 0 (Some cache7) white
               (mk_renderer (Some 7%nat) 8%nat [])
     = (Some cache7,
        mk_renderer None 8%nat
          [SetRenderTarget None; RenderCopy None (Some 7%nat) None None]).
Proof. repeat split; reflexivity. Qed.

(** C6 at the first tick of "a b" over an atlas without "a": the counter
    moves to 1, the cursor stays at 16, one copy of the cache is issued. *)
Lemma typewriter_skips_missing_glyph_first_tick :
  reveal_complete (decode_once 0 a_b (stats_at [] 0 16 1)) = false
  /\ PrimFloat.ltb (duration (stats_at [] 0 16 1))
                   (timer (stats_at [] 0 16 1)) = true
  /\ - 2 ^ 31 <= type_counter (stats_at [] 0 16 1) < INT_MAX
  /\ vector_at (utf8_text (decode_once 0 a_b (stats_at [] 0 16 1)))
               (type_counter (stats_at [] 0 16 1)) = Some 97
  /\ no_glyph 0 atlas_b 97 = true
  /\ draw_typewriter 0 a_b atlas_b (rect16 100) cache7 (stats_at [] 0 16 1)
                     10 true 0 70 renderer0
     = (Some (cache7, stats_at [97; 32; 98] 1 16 1),
        mk_renderer None 0%nat [RenderCopy None (Some 7%nat) None None]).
Proof.
  assert (H1 : reveal_complete (decode_once 0 a_b (stats_at [] 0 16 1)) = false)
    by reflexivity.
  assert (H2 : PrimFloat.ltb (duration (stats_at [] 0 16 1))
                             (timer (stats_at [] 0 16 1)) = true) by reflexivity.
  assert (H3 : - 2 ^ 31 <= type_counter (stats_at [] 0 16 1) < INT_MAX)
    by (split; vm_compute; congruence).
  assert (H4 : vector_at (utf8_text (decode_once 0 a_b (stats_at [] 0 16 1)))
                         (type_counter (stats_at [] 0 16 1)) = Some 97)
    by reflexivity.
  assert (H5 : no_glyph 0 atlas_b 97 = true) by reflexivity.
  repeat (split; [ assumption | ]).
  exact (proj1 (typewriter_skips_missing_glyph 0 a_b atlas_b (rect16 100) cache7
                  (stats_at [] 0 16 1) 10 true 0 70 renderer0 97
                  H1 H2 H3 H4 H5)).
Defined.

(** C6, as stated, fails when the skipped code point is the first of a new
    line.  "a b" in a rectangle one character wide is laid out as the lines
    "a" and "b"; over an atlas without "b", two ticks bring the counter to 2
    and the cursor to 36, and the third tick, which skips "b", leaves the
    cursor at [rect.x = 16]. *)
Lemma typewriter_skip_after_line_break_moves_cursor :
  counter_and_cursor
    (fst (typewriter_ticks 0 a_b atlas_a (rect16 10) 10 true 0 70
            [1%float; 1%float] cache0 stats0 renderer0))
  = Some (2, 36)
  /\ reveal_complete (stats_at [97; 32; 98] 2 36 1) = false
  /\ vector_at [97; 32; 98] 2 = Some 98
  /\ no_glyph 0 atlas_a 98 = true
  /\ counter_and_cursor
       (fst (draw_typewriter 0 a_b atlas_a (rect16 10) cache7
               (stats_at [97; 32; 98] 2 36 1) 10 true 0 70 renderer0))
     = Some (3, 16).
Proof. repeat split; reflexivity. Qed.

(** C5 at the third tick of "a b" laid out as the lines "a" and "b": the
    character about to be revealed is on line 1, the previous one on line 0,
    and the tick draws from [rect.x = 16], leaving the cursor at 26. *)
Lemma typewriter_cursor_reset_second_line :
  reveal_complete (decode_once 0 a_b (stats_at [97; 32; 98] 2 36 1)) = false
  /\ PrimFloat.ltb (duration (stats_at [97; 32; 98] 2 36 1))
                   (timer (stats_at [97; 32; 98] 2 36 1)) = true
  /\ 0 <= type_counter (stats_at [97; 32; 98] 2 36 1) <= INT_MAX
  /\ vector_at (utf8_text (decode_once 0 a_b (stats_at [97; 32; 98] 2 36 1)))
               (type_counter (stats_at [97; 32; 98] 2 36 1)) = Some 98
  /\ line_total 0 (get_all_lines a_b 10 0 (rw (rect16 10))) <= INT_MAX
  /\ get_current_line 0 (get_all_lines a_b 10 0 (rw (rect16 10))) 2 = 1
  /\ get_current_line 0 (get_all_lines a_b 10 0 (rw (rect16 10))) 1 = 0
  /\ exists tg' st' r',
       draw_typewriter 0 a_b atlas_ab (rect16 10) cache7
                       (stats_at [97; 32; 98] 2 36 1) 10 true 0 70 renderer0
       = (Some (tg', st'), r')
       /\ current_x st' = 26.
Proof.
  assert (H1 : reveal_complete (decode_once 0 a_b (stats_at [97; 32; 98] 2 36 1))
               = false) by reflexivity.
  assert (H2 : PrimFloat.ltb (duration (stats_at [97; 32; 98] 2 36 1))
                             (timer (stats_at [97; 32; 98] 2 36 1)) = true)
    by reflexivity.
  assert (H3 : 0 <= type_counter (stats_at [97; 32; 98] 2 36 1) <= INT_MAX)
    by (split; vm_compute; congruence).
  assert (H4 : vector_at (utf8_text (decode_once 0 a_b (stats_at [97; 32; 98] 2 36 1)))
                         (type_counter (stats_at [97; 32; 98] 2 36 1)) = Some 98)
    by reflexivity.
  assert (H5 : line_total 0 (get_all_lines a_b 10 0 (rw (rect16 10))) <= INT_MAX)
    by (vm_compute; congruence).
  repeat (split; [ first [ assumption | reflexivity ] | ]).
  destruct (typewriter_cursor_reset 0 a_b atlas_ab (rect16 10) cache7
              (stats_at [97; 32; 98] 2 36 1) 10 true 0 70 renderer0 98
              H1 H2 H3 H4 H5)
    as (tg' & st' & r' & E & Hreset & _).
  exists tg', st', r'. split; [ exact E | ].
  rewrite Hreset; [ reflexivity | | | ]; vm_compute; congruence.
Defined.

(** C5, as stated, fails once the counter runs past the lines.  "a   b" is
    laid out as the one line "a b" (4 with its separator) while the decoded
    text keeps the three blanks.  Four ticks bring the counter to 4 and the
    cursor to 56; for index 4 [get_current_line] returns -1, for index 3 it
    returns 0; the fifth tick does not reset the cursor and leaves it at 66,
    not at [rect.x + 10 = 26]. *)
Lemma typewriter_no_reset_past_the_lines :
  get_all_lines a___b 10 0 100 = [str "a b"]
  /\ counter_and_cursor
       (fst (typewriter_ticks 0 a___b atlas_ab (rect16 100) 10 true 0 70
               [1%float; 1%float; 1%float; 1%float] cache0 stats0 renderer0))
     = Some (4, 56)
  /\ reveal_complete (stats_at [97; 32; 32; 32; 98] 4 56 1) = false
  /\ get_current_line 0 (get_all_lines a___b 10 0 100) 4 = -1
  /\ get_current_line 0 (get_all_lines a___b 10 0 100) 3 = 0
  /\ counter_and_cursor
       (fst (draw_typewriter 0 a___b atlas_ab (rect16 100) cache7
               (stats_at [97; 32; 32; 32; 98] 4 56 1) 10 true 0 70 renderer0))
     = Some (5, 66).
Proof. repeat split; reflexivity. Qed.

(** The run of C1 next to a run that does call back: three ticks over
    [U+00E9] reveal it and call nothing; three ticks over "ab" call back once,
    on the tick that reveals "b". *)
Lemma typewriter_runs_compared :
  (let run := typewriter_ticks 0 e_acute (mk_atlas (Some 100%nat) e_acute)
                (rect16 100) 10 true 0 70 [1%float; 1%float; 1%float]
                cache0 stats0 renderer0 in
   (counter_and_cursor (fst run), callback_count (calls (snd run))))
  = (Some (1, 26), 0%nat)
  /\ (let run := typewriter_ticks 0 (str "ab") atlas_ab
                   (rect16 100) 10 true 0 70 [1%float; 1%float; 1%float]
                   cache0 stats0 renderer0 in
      (counter_and_cursor (fst run), callback_count (calls (snd run))))
     = (Some (2, 36), 1%nat).
Proof. split; reflexivity. Qed.

(** * Concrete runs of the further properties *)

(** X2 at the bytes [E3 81 82]. *)
Lemma get_utf8_char_vector_three_byte_hiragana :
  Z.land (char_to_int (ascii_of_nat 227)) 0xF0 = 0xE0
  /\ is_utf_cont (ascii_of_nat 129) = true
  /\ is_utf_cont (ascii_of_nat 130) = true
  /\ get_utf8_char_vector 0
       [ascii_of_nat 227; ascii_of_nat 129; ascii_of_nat 130]
     = [0xE38182].
Proof.
  repeat (split; [ reflexivity | ]).
  apply (get_utf8_char_vector_three_byte 0 (ascii_of_nat 227)
           (ascii_of_nat 129) (ascii_of_nat 130)); reflexivity.
Defined.

(** X3 at the bytes [F0 9F 98 80]: the lead [F0] is not in the value. *)
Lemma get_utf8_char_vector_four_byte_emoji :
  Z.land (char_to_int (ascii_of_nat 240)) 0xF8 = 0xF0
  /\ is_utf_cont (ascii_of_nat 159) = true
  /\ is_utf_cont (ascii_of_nat 152) = true
  /\ is_utf_cont (ascii_of_nat 128) = true
  /\ get_utf8_char_vector 0
       [ascii_of_nat 240; ascii_of_nat 159; ascii_of_nat 152; ascii_of_nat 128]
     = [0xFF9F9880].
Proof.
  repeat (split; [ reflexivity | ]).
  apply (get_utf8_char_vector_four_byte 0 (ascii_of_nat 240)
           (ascii_of_nat 159) (ascii_of_nat 152) (ascii_of_nat 128));
    reflexivity.
Defined.

(** X4 at the byte [A9], for two values the uninitialised [mask] may hold:
    the two decodes differ. *)
Lemma get_utf8_char_vector_orphan_continuation_a9 :
  is_utf_cont (ascii_of_nat 169) = true
  /\ get_utf8_char_vector 0 [ascii_of_nat 169] = [0xFF0000A9]
  /\ get_utf8_char_vector 0xffff0000 [ascii_of_nat 169] = [0x00FF00A9].
Proof.
  split; [ reflexivity | ]. split.
  - apply (get_utf8_char_vector_orphan_continuation 0 (ascii_of_nat 169)).
    reflexivity.
  - apply (get_utf8_char_vector_orphan_continuation 0xffff0000
             (ascii_of_nat 169)).
    reflexivity.
Defined.

(** X5 at the text "a", [C3 A9], [E3 81 82]. *)
Lemma get_utf8_char_vector_encoded_text_mixed :
  encoded_text
    ("a"%char :: ascii_of_nat 195 :: ascii_of_nat 169
     :: ascii_of_nat 227 :: ascii_of_nat 129 :: ascii_of_nat 130 :: [])
    [97; 0xC3A9; 0xE38182]
  /\ get_utf8_char_vector 0
       ("a"%char :: ascii_of_nat 195 :: ascii_of_nat 169
        :: ascii_of_nat 227 :: ascii_of_nat 129 :: ascii_of_nat 130 :: [])
     = [97; 0xC3A9; 0xE38182].
Proof.
  assert (H : encoded_text
                ("a"%char :: ascii_of_nat 195 :: ascii_of_nat 169
                 :: ascii_of_nat 227 :: ascii_of_nat 129 :: ascii_of_nat 130
                 :: [])
                [97; 0xC3A9; 0xE38182]).
  { apply (enc_cons ["a"%char] 97); [ apply enc_one; reflexivity | ].
    apply (enc_cons [ascii_of_nat 195; ascii_of_nat 169] 0xC3A9);
      [ apply (enc_two (ascii_of_nat 195) (ascii_of_nat 169)); reflexivity | ].
    apply (enc_cons [ascii_of_nat 227; ascii_of_nat 129; ascii_of_nat 130]
                    0xE38182 [] []);
      [ apply (enc_three (ascii_of_nat 227) (ascii_of_nat 129)
                         (ascii_of_nat 130)); reflexivity
      | apply enc_nil ]. }
  split; [ exact H | ].
  exact (get_utf8_char_vector_encoded_text 0 _ _ H).
Defined.

(** X6 at "ab" followed by the lone start byte [C3]. *)
Lemma get_utf8_char_vector_truncated_ab :
  forallb (fun c => is_ascii c && negb (is_nul c)) (str "ab") = true
  /\ is_utf8_start (ascii_of_nat 195) = true
  /\ get_utf8_char_vector 0 (str "ab" ++ [ascii_of_nat 195]) = [97; 98].
Proof.
  repeat (split; [ reflexivity | ]).
  apply (get_utf8_char_vector_truncated 0 (str "ab") (ascii_of_nat 195));
    reflexivity.
Defined.

(** X8 at cell 17 of the 512 x 512 atlas of 32 x 32 cells: the rectangle at
    (32, 32). *)
Lemma get_atlas_rect_by_index_cell_17 :
  0 < 32 <= 512 /\ 0 < 32 /\ 512 <= INT_MAX
  /\ 0 <= 17 < (512 / 32) * (512 / 32)
  /\ get_atlas_rect_by_index 17 512 512 32 32 = mk_rect 32 32 32 32
  /\ ry (get_atlas_rect_by_index 17 512 512 32 32) / 32 * (512 / 32)
     + rx (get_atlas_rect_by_index 17 512 512 32 32) / 32 = 17.
Proof.
  assert (H1 : 0 < 32 <= 512) by lia.
  assert (H2 : 0 < 32) by lia.
  assert (H3 : 512 <= INT_MAX) by (vm_compute; discriminate).
  assert (H4 : 0 <= 17 < (512 / 32) * (512 / 32)) by (vm_compute; split; congruence).
  repeat (split; [ assumption | ]).
  split; [ reflexivity | ].
  apply (get_atlas_rect_by_index_cell 17 512 512 32 32 H1 H2 H3 H3 H4).
Defined.

(** X10 at a text with a blank line and a final newline: the blank line is
    a line, the final newline opens none. *)
Lemma split_string_by_newline_lines_blank_line :
  [str "a"; []; str "b"]
  = split_string_by_newline
      (str "a" ++ newline :: newline :: str "b" ++ [newline]).
Proof.
  apply (proj1 (split_string_by_newline_lines
                  (str "a" ++ newline :: newline :: str "b" ++ [newline]))).
  split; [ | reflexivity ].
  repeat constructor; cbn; intuition discriminate.
Defined.

(** X11 at "a b  c": the words "a", "b", "c" and no others, whatever the
    numbers. *)
Lemma split_text_by_size_keeps_words_a_b_c :
  exists groups,
    concat groups = [str "a"; str "b"; str "c"]
    /\ Forall (fun g => g <> []) groups
    /\ split_text_by_size (str "a b  c") 16 0 40 = map line_of groups.
Proof.
  destruct (split_text_by_size_keeps_words (str "a b  c") 16 0 40)
    as [(words & groups & W & U & C & N & E) _].
  exists groups. split; [ | now split ].
  rewrite C. symmetry. apply U.
  apply (wbs_word (str "a") (str " b  c")); cbn;
    [ discriminate | reflexivity | right; eexists _, _; now split | ].
  apply wbs_space; [ reflexivity | ].
  apply (wbs_word (str "b") (str "  c")); cbn;
    [ discriminate | reflexivity | right; eexists _, _; now split | ].
  apply wbs_space; [ reflexivity | ]. apply wbs_space; [ reflexivity | ].
  apply (wbs_word (str "c") []); cbn;
    [ discriminate | reflexivity | now left | constructor ].
Defined.

(** X12 at two lines of text: the newline is a line break even where both
    lines would fit the width. *)
Lemma get_all_lines_keeps_words_two_lines :
  get_all_lines (str "a b" ++ newline :: str "c") 16 0 400
  = split_text_by_size (str "a b") 16 0 400
    ++ split_text_by_size (str "c") 16 0 400.
Proof.
  destruct (get_all_lines_keeps_words (str "a b" ++ newline :: str "c")
                                      16 0 400) as (_ & _ & P & _).
  rewrite (P [str "a b"; str "c"]).
  - cbn [flat_map]. now rewrite app_nil_r.
  - repeat constructor; cbn; intuition discriminate.
  - reflexivity.
Defined.

(** X14 at the code points of "a b" drawn on an unfinished cache that holds
    texture 7, handed out by the renderer: two glyphs, each on a temporary
    texture, and texture 7 alone left alive. *)
Lemma draw_on_cache_a_b :
  handed_out (mk_combined false (Some 7%nat)) (mk_renderer None 101%nat [])
  /\ exists r',
       draw_utf8_text 0 [97; 32; 98] atlas_ab 0 0 16 0
                      (Some (mk_combined false (Some 7%nat))) white
                      (mk_renderer None 101%nat [])
       = (Some cache7, r')
       /\ drawn_through_temporaries (mk_combined false (Some 7%nat))
                                    (mk_renderer None 101%nat []) r' 2.
Proof.
  assert (H : handed_out (mk_combined false (Some 7%nat))
                         (mk_renderer None 101%nat []))
    by (intros t [= <-]; cbn; lia).
  split; [ exact H | ].
  destruct (draw_on_cache 0 [97; 32; 98] a_b atlas_ab 0 0 16 0
              (mk_combined false (Some 7%nat)) white
              (mk_renderer None 101%nat []))
    as [(r' & E & _ & _ & T) _].
  exists r'. split; [ exact E | exact (T H) ].
Defined.

(** X17 at the first tick of "ab" over the atlas "ab": the tick reveals
    "a". *)
Lemma draw_typewriter_tick_first :
  1 <= code_points 0 (str "ab") /\ byte_count (str "ab") <= INT_MAX
  /\ run_ready 0 (str "ab") (stats_at [] 0 16 1)
  /\ counter_and_cursor
       (fst (draw_typewriter 0 (str "ab") atlas_ab (rect16 100) cache0
               (stats_at [] 0 16 1) 10 true 0 70 renderer0))
     = Some (1, 26)
  /\ exists tg' st' r',
       draw_typewriter 0 (str "ab") atlas_ab (rect16 100) cache0
                       (stats_at [] 0 16 1) 10 true 0 70 renderer0
       = (Some (tg', st'), r')
       /\ type_counter st' = 1
       /\ Z.of_nat (callback_count (calls r')) = 0.
Proof.
  assert (H1 : 1 <= code_points 0 (str "ab")) by (vm_compute; congruence).
  assert (H2 : byte_count (str "ab") <= INT_MAX) by (vm_compute; congruence).
  assert (H3 : run_ready 0 (str "ab") (stats_at [] 0 16 1)).
  { split; [ left; reflexivity | split; vm_compute; congruence ]. }
  repeat (split; [ assumption | ]).
  split; [ reflexivity | ].
  destruct (draw_typewriter_tick 0 (str "ab") atlas_ab (rect16 100) cache0
              (stats_at [] 0 16 1) 10 true 0 70 renderer0 H1 H2 H3)
    as (tg' & st' & r' & E & _ & _ & T & _ & C & _).
  exists tg', st', r'. split; [ exact E | ]. split; [ exact T | exact C ].
Defined.

(** X18 at three ticks over "ab", all with the timer past the duration:
    the counter stops at 2. *)
Lemma typewriter_run_counter_ab :
  1 <= code_points 0 (str "ab") /\ byte_count (str "ab") <= INT_MAX
  /\ run_ready 0 (str "ab") stats0
  /\ exists tg' st' r',
       typewriter_ticks 0 (str "ab") atlas_ab (rect16 100) 10 true 0 70
                        [1%float; 1%float; 1%float] cache0 stats0 renderer0
       = (Some (tg', st'), r')
       /\ type_counter st' = 2.
Proof.
  assert (H1 : 1 <= code_points 0 (str "ab")) by (vm_compute; congruence).
  assert (H2 : byte_count (str "ab") <= INT_MAX) by (vm_compute; congruence).
  assert (H3 : run_ready 0 (str "ab") stats0).
  { split; [ left; reflexivity | split; vm_compute; congruence ]. }
  repeat (split; [ assumption | ]).
  destruct (typewriter_run_counter 0 (str "ab") atlas_ab (rect16 100) 10 true
              0 70 [1%float; 1%float; 1%float] cache0 stats0 renderer0
              H1 H2 H3)
    as (tg' & st' & r' & E & _ & T).
  exists tg', st', r'. split; [ exact E | exact T ].
Defined.

(** X19 at the same run: the callback is invoked once. *)
Lemma typewriter_run_callback_ab :
  1 <= code_points 0 (str "ab") /\ byte_count (str "ab") <= INT_MAX
  /\ run_ready 0 (str "ab") stats0
  /\ exists tg' st' r',
       typewriter_ticks 0 (str "ab") atlas_ab (rect16 100) 10 true 0 70
                        [1%float; 1%float; 1%float] cache0 stats0 renderer0
       = (Some (tg', st'), r')
       /\ Z.of_nat (callback_count (calls r')) = 1.
Proof.
  assert (H1 : 1 <= code_points 0 (str "ab")) by (vm_compute; congruence).
  assert (H2 : byte_count (str "ab") <= INT_MAX) by (vm_compute; congruence).
  assert (H3 : run_ready 0 (str "ab") stats0).
  { split; [ left; reflexivity | split; vm_compute; congruence ]. }
  repeat (split; [ assumption | ]).
  destruct (typewriter_run_callback 0 (str "ab") atlas_ab (rect16 100) 10 true
              0 70 [1%float; 1%float; 1%float] cache0 stats0 renderer0
              H1 H2 H3)
    as (tg' & st' & r' & E & C).
  exists tg', st', r'. split; [ exact E | exact C ].
Defined.

(** X20 at the text of one newline. *)
Lemma draw_typewriter_empty_text_newline :
  decoded_text 0 [ascii_of_nat 10] = []
  /\ utf8_text (stats_at [] 0 16 1) = []
  /\ PrimFloat.ltb (duration (stats_at [] 0 16 1))
                   (timer (stats_at [] 0 16 1)) = true
  /\ draw_typewriter 0 [ascii_of_nat 10] atlas_ab (rect16 100) cache0
                     (stats_at [] 0 16 1) 10 true 0 70 renderer0
     = (None, renderer0).
Proof.
  repeat (split; [ reflexivity | ]).
  apply (draw_typewriter_empty_text 0 [ascii_of_nat 10] atlas_ab (rect16 100)
           cache0 (stats_at [] 0 16 1) 10 true 0 70 renderer0); reflexivity.
Defined.
